(** * author-collector: shallow embedding and verification of the core
      (URL canonicalization, fetcher, extractor, storage, pipeline). *)

From Stdlib Require Import Bool Arith Lia NArith ZArith.
From Stdlib Require Import Ascii String.
From Stdlib Require Import List.
Import ListNotations.
Open Scope string_scope.

(* ===================================================================== *)
(** ** Python string helpers (ASCII fragment of [str]) *)

Module Py.

Definition is_upper (c : ascii) : bool :=
  let n := nat_of_ascii c in (Nat.leb 65 n) && (Nat.leb n 90).

Definition is_lower_letter (c : ascii) : bool :=
  let n := nat_of_ascii c in (Nat.leb 97 n) && (Nat.leb n 122).

Definition is_alpha (c : ascii) : bool := is_upper c || is_lower_letter c.

Definition is_digit (c : ascii) : bool :=
  let n := nat_of_ascii c in (Nat.leb 48 n) && (Nat.leb n 57).

Definition is_hex (c : ascii) : bool :=
  let n := nat_of_ascii c in
  is_digit c || ((Nat.leb 65 n) && (Nat.leb n 70)) || ((Nat.leb 97 n) && (Nat.leb n 102)).

(** [str.lower] on ASCII letters. *)
Definition lower_char (c : ascii) : ascii :=
  if is_upper c then ascii_of_nat (nat_of_ascii c + 32) else c.

Fixpoint lower (s : string) : string :=
  match s with
  | EmptyString => EmptyString
  | String c r => String (lower_char c) (lower r)
  end.

(** [str.isspace] restricted to ASCII: \t \n \v \f \r, \x1c-\x1f, space. *)
Definition is_space (c : ascii) : bool :=
  let n := nat_of_ascii c in
  ((Nat.leb 9 n) && (Nat.leb n 13)) || ((Nat.leb 28 n) && (Nat.leb n 32)).

Fixpoint lstrip_by (p : ascii -> bool) (s : string) : string :=
  match s with
  | EmptyString => EmptyString
  | String c r => if p c then lstrip_by p r else s
  end.

Fixpoint rev_str (s : string) (acc : string) : string :=
  match s with
  | EmptyString => acc
  | String c r => rev_str r (String c acc)
  end.

Definition rstrip_by (p : ascii -> bool) (s : string) : string :=
  rev_str (lstrip_by p (rev_str s EmptyString)) EmptyString.

(** [str.strip()] *)
Definition strip (s : string) : string := rstrip_by is_space (lstrip_by is_space s).

Fixpoint contains (c : ascii) (s : string) : bool :=
  match s with
  | EmptyString => false
  | String d r => Ascii.eqb c d || contains c r
  end.

Fixpoint forall_chars (p : ascii -> bool) (s : string) : bool :=
  match s with
  | EmptyString => true
  | String c r => p c && forall_chars p r
  end.

(** [s.partition(c)]: text before the first [c], whether it was found,
    text after it. *)
Fixpoint partition (c : ascii) (s : string) : string * bool * string :=
  match s with
  | EmptyString => (EmptyString, false, EmptyString)
  | String d r =>
      if Ascii.eqb c d then (EmptyString, true, r)
      else let '(a, f, b) := partition c r in (String d a, f, b)
  end.

(** [s.rpartition(c)]. *)
Definition rpartition (c : ascii) (s : string) : string * bool * string :=
  let '(a, f, b) := partition c (rev_str s EmptyString) in
  if f then (rev_str b EmptyString, true, rev_str a EmptyString)
  else (EmptyString, false, s).

(** Split [s] before the first character satisfying [p]. *)
Fixpoint split_before (p : ascii -> bool) (s : string) : string * string :=
  match s with
  | EmptyString => (EmptyString, EmptyString)
  | String c r =>
      if p c then (EmptyString, s)
      else let '(a, b) := split_before p r in (String c a, b)
  end.

(** [s.split(c)] *)
Fixpoint split_on (c : ascii) (s : string) : list string :=
  match s with
  | EmptyString => [EmptyString]
  | String d r =>
      if Ascii.eqb c d then EmptyString :: split_on c r
      else match split_on c r with
           | x :: xs => String d x :: xs
           | [] => [String d EmptyString]
           end
  end.

(** [s.replace(a, b)] for single characters. *)
Fixpoint replace_char (a b : ascii) (s : string) : string :=
  match s with
  | EmptyString => EmptyString
  | String c r => String (if Ascii.eqb a c then b else c) (replace_char a b r)
  end.

Fixpoint remove_char (a : ascii) (s : string) : string :=
  match s with
  | EmptyString => EmptyString
  | String c r => if Ascii.eqb a c then remove_char a r else String c (remove_char a r)
  end.

Definition digit_val (c : ascii) : N := N.of_nat (nat_of_ascii c - 48).

(** [int(s)] for a string of decimal digits. *)
Fixpoint int_of_digits_aux (s : string) (acc : N) : N :=
  match s with
  | EmptyString => acc
  | String c r => int_of_digits_aux r (acc * 10 + digit_val c)%N
  end.

Definition int_of_digits (s : string) : N := int_of_digits_aux s 0%N.

Definition digit_char (n : N) : ascii := ascii_of_nat (48 + N.to_nat n).

(** [str(n)] for a non-negative integer below 10^32. *)
Fixpoint show_N_aux (fuel : nat) (n : N) (acc : string) : string :=
  match fuel with
  | O => acc
  | S f =>
      let acc' := String (digit_char (n mod 10)) acc in
      if (n <? 10)%N then acc' else show_N_aux f (n / 10)%N acc'
  end.

Definition show_N (n : N) : string := show_N_aux 32 n EmptyString.

(** Lists of pairs sorted by [(key, value)] (Python tuple order). *)
Definition pair_leb (p q : string * string) : bool :=
  match String.compare (fst p) (fst q) with
  | Lt => true
  | Gt => false
  | Eq => String.leb (snd p) (snd q)
  end.

Fixpoint insert_sorted (p : string * string) (l : list (string * string)) :=
  match l with
  | [] => [p]
  | q :: r => if pair_leb p q then p :: l else q :: insert_sorted p r
  end.

Fixpoint sort_pairs (l : list (string * string)) : list (string * string) :=
  match l with
  | [] => []
  | p :: r => insert_sorted p (sort_pairs r)
  end.

End Py.

(* ===================================================================== *)
(** ** [urllib.parse], the parts the repository calls (ASCII inputs).
    [None] stands for the [ValueError] the library raises. *)

Module UrlLib.
Import Py.

Record SplitResult := mkSplit {
  scheme : string; netloc : string; path : string; query : string; fragment : string
}.

(** [_WHATWG_C0_CONTROL_OR_SPACE]: code points 0..32. *)
Definition is_c0_or_space (c : ascii) : bool := Nat.leb (nat_of_ascii c) 32.

Definition is_scheme_char (c : ascii) : bool :=
  is_alpha c || is_digit c || contains c "+-.".

(** The scheme prefix: [url[:i]] with [i = url.find(':')], taken when it is
    non-empty, starts with an ASCII letter and uses only scheme characters. *)
Definition split_scheme (url : string) : string * string :=
  match partition ":" url with
  | (String c0 r0 as pre, true, post) =>
      if is_alpha c0 && forall_chars is_scheme_char pre then (lower pre, post)
      else (EmptyString, url)
  | _ => (EmptyString, url)
  end.

(** [_check_bracketed_host]: the library parses the text between the
    brackets with [ipaddress] and refuses IPv4; the model accepts a
    non-empty run of hex digits, [:] and [.] containing a [:]. *)
Definition check_bracketed_host (h : string) : bool :=
  match h with
  | EmptyString => false
  | _ => forall_chars (fun c => is_hex c || contains c ":.") h && contains ":" h
  end.

(** [_check_bracketed_netloc] *)
Definition check_bracketed_netloc (nl : string) : bool :=
  let '(_, _, hp) := rpartition "@" nl in
  let '(before, open_br, bracketed) := partition "[" hp in
  if open_br then
    match before with
    | EmptyString =>
        let '(h, _, port) := partition "]" bracketed in
        match port with
        | EmptyString => check_bracketed_host h
        | String c _ => Ascii.eqb c ":" && check_bracketed_host h
        end
    | _ => false
    end
  else let '(h, _, _) := partition ":" hp in check_bracketed_host h.

Definition is_netloc_delim (c : ascii) : bool := contains c "/?#".

(** [urlsplit(url)] *)
Definition urlsplit (url0 : string) : option SplitResult :=
  let url1 := lstrip_by is_c0_or_space url0 in
  let url2 := remove_char "010" (remove_char "013" (remove_char "009" url1)) in
  let '(sch, url3) := split_scheme url2 in
  let netloc_split :=
    match url3 with
    | String "/" (String "/" rest) =>
        let '(nl, r) := split_before is_netloc_delim rest in
        let ob := contains "[" nl in
        let cb := contains "]" nl in
        if xorb ob cb then None
        else if ob && cb then (if check_bracketed_netloc nl then Some (nl, r) else None)
        else Some (nl, r)
    | _ => Some (EmptyString, url3)
    end in
  match netloc_split with
  | None => None
  | Some (nl, url4) =>
      let '(url5, _, frag) := partition "#" url4 in
      let '(url6, _, q) := partition "?" url5 in
      Some (mkSplit sch nl url6 q frag)
  end.

(** [SplitResult._hostinfo]: (hostname, port text or None). *)
Definition hostinfo (sr : SplitResult) : string * option string :=
  let '(_, _, hi) := rpartition "@" (netloc sr) in
  let '(_, open_br, bracketed) := partition "[" hi in
  let '(h, p) :=
    if open_br then
      let '(h, _, rest) := partition "]" bracketed in
      let '(_, _, p) := partition ":" rest in (h, p)
    else let '(h, _, p) := partition ":" hi in (h, p) in
  (h, match p with EmptyString => None | _ => Some p end).

(** [SplitResult.hostname]: lower-cased host before any [%] zone, or None. *)
Definition hostname (sr : SplitResult) : option string :=
  match fst (hostinfo sr) with
  | EmptyString => None
  | h => let '(a, f, z) := partition "%" h in
         Some (lower a ++ (if f then String "%" z else EmptyString))
  end.

(** [SplitResult.port]: [Some None] when absent, [None] for the
    [ValueError] raised on a non-numeric or out-of-range port. *)
Definition port (sr : SplitResult) : option (option N) :=
  match snd (hostinfo sr) with
  | None => Some None
  | Some p =>
      if forall_chars is_digit p then
        let n := int_of_digits p in
        if (n <=? 65535)%N then Some (Some n) else None
      else None
  end.

(** [urlunsplit] (Python 3.11 form; [https] is a [uses_netloc] scheme). *)
Definition urlunsplit (sch nl p q frag : string) : string :=
  let uses_netloc := existsb (String.eqb sch) ["http"; "https"; "ftp"; "file"; ""] in
  let p1 :=
    if negb (String.eqb nl "") ||
       (negb (String.eqb sch "") && uses_netloc && negb (String.prefix "//" p))
    then
      let p0 := match p with
                | EmptyString => p
                | String "/" _ => p
                | _ => String "/" p
                end in
      "//" ++ nl ++ p0
    else p in
  let p2 := if String.eqb sch "" then p1 else sch ++ ":" ++ p1 in
  let p3 := if String.eqb q "" then p2 else p2 ++ "?" ++ q in
  if String.eqb frag "" then p3 else p3 ++ "#" ++ frag.

Definition hex_val (c : ascii) : nat :=
  let n := nat_of_ascii c in
  if is_digit c then n - 48 else if Nat.leb n 70 then n - 55 else n - 87.

(** [unquote]: every [%XX] with two hex digits becomes the byte [XX]
    (UTF-8 decoding of bytes above 0x7f is outside the ASCII model). *)
Fixpoint unquote (s : string) : string :=
  match s with
  | String "%" ((String h1 (String h2 r)) as t) =>
      if is_hex h1 && is_hex h2 then String (ascii_of_nat (16 * hex_val h1 + hex_val h2)) (unquote r)
      else String "%" (unquote t)
  | String c r => String c (unquote r)
  | EmptyString => EmptyString
  end.

Definition hex_digit (n : nat) : ascii :=
  if Nat.ltb n 10 then ascii_of_nat (48 + n) else ascii_of_nat (55 + n).

(** [quote_plus(s, safe='')] *)
Fixpoint quote_plus (s : string) : string :=
  match s with
  | EmptyString => EmptyString
  | String c r =>
      if is_alpha c || is_digit c || contains c "_.-~" then String c (quote_plus r)
      else if Ascii.eqb c " " then String "+" (quote_plus r)
      else let n := nat_of_ascii c in
           String "%" (String (hex_digit (n / 16)) (String (hex_digit (n mod 16)) (quote_plus r)))
  end.

(** [parse_qsl(qs, keep_blank_values=True)] *)
Definition parse_qsl (qs : string) : list (string * string) :=
  let args := if String.eqb qs "" then [] else split_on "&" qs in
  flat_map (fun nv =>
    if String.eqb nv "" then []
    else let '(n, _, v) := partition "=" nv in
         [(unquote (replace_char "+" " " n), unquote (replace_char "+" " " v))]) args.

(** [urlencode(pairs, doseq=True)] *)
Definition urlencode (pairs : list (string * string)) : string :=
  String.concat "&" (map (fun '(k, v) => quote_plus k ++ "=" ++ quote_plus v) pairs).

End UrlLib.

(* ===================================================================== *)
(** ** [quality/urlnorm.py] *)

Module UrlNorm.
Import Py UrlLib.

Definition REMOVABLE_QUERY_PARAMS : list string :=
  ["session"; "sessionid"; "sid"; "phpsessid"; "jsessionid"].

Definition keep_param (kv : string * string) : bool :=
  let key_lower := lower (fst kv) in
  negb (String.prefix "utm_" key_lower) &&
  negb (existsb (String.eqb key_lower) REMOVABLE_QUERY_PARAMS).

(** [canonicalize_url]; [None] when the library raises [ValueError]. *)
Definition canonicalize_url (url : string) : option string :=
  match urlsplit (strip url) with
  | None => None
  | Some parsed =>
      if negb (existsb (String.eqb (lower (scheme parsed))) ["http"; "https"]) then Some url
      else
        let sch := "https" in
        let host := match hostname parsed with Some h => lower h | None => "" end in
        match port parsed with
        | None => None
        | Some prt =>
            let nl :=
              match prt with
              | Some p =>
                  if (p =? 0)%N then host
                  else
                    let default_port := if String.eqb (lower (scheme parsed)) "http" then 80%N else 443%N in
                    if (p =? default_port)%N then host else host ++ ":" ++ show_N p
              | None => host
              end in
            let pth := lower (match path parsed with EmptyString => "/" | p => p end) in
            let pth := if String.prefix "/" pth then pth else "/" ++ pth in
            let filtered := filter keep_param (parse_qsl (query parsed)) in
            let q := urlencode (sort_pairs filtered) in
            Some (urlunsplit sch nl pth q "")
        end
  end.

End UrlNorm.

Example canon_test_rules :
  UrlNorm.canonicalize_url
    "http://Example.COM/News/Item?b=2&utm_source=newsletter&a=1&sessionid=abc#section"
  = Some "https://example.com/news/item?a=1&b=2".
Proof. vm_compute. reflexivity. Qed.

Example canon_test_root :
  UrlNorm.canonicalize_url "http://example.com" = Some "https://example.com/".
Proof. vm_compute. reflexivity. Qed.

(* ===================================================================== *)
(** ** Unicode text as code points, and [_truncate_with_ellipsis]
    ([extractor/article.py]) *)

Module UText.
Local Open Scope list_scope.

(** A Python [str] as its list of code points. *)
Definition ustr := list N.

(** Literal conversion from an ASCII string. *)
Fixpoint u (s : string) : ustr :=
  match s with
  | EmptyString => []
  | String c r => N_of_ascii c :: u r
  end.

Definition SPACE : N := 32.
Definition ELLIPSIS : N := 8230.

(** [str.isspace] (the code points [str.split()] splits on). *)
Definition is_uspace (c : N) : bool :=
  ((N.leb 9 c) && (N.leb c 13)) || ((N.leb 28 c) && (N.leb c 32))
  || N.eqb c 133 || N.eqb c 160 || N.eqb c 5760
  || ((N.leb 8192 c) && (N.leb c 8202))
  || N.eqb c 8232 || N.eqb c 8233 || N.eqb c 8239 || N.eqb c 8287
  || N.eqb c 12288.

(** [s.split()]: maximal runs of non-space code points. *)
Fixpoint split_ws_aux (s : ustr) (cur : ustr) : list ustr :=
  match s with
  | [] => match cur with [] => [] | _ => [rev cur] end
  | c :: r =>
      if is_uspace c then
        match cur with
        | [] => split_ws_aux r []
        | _ => rev cur :: split_ws_aux r []
        end
      else split_ws_aux r (c :: cur)
  end.

Definition split_ws (s : ustr) : list ustr := split_ws_aux s [].

(** [sep.join(parts)] *)
Fixpoint join (sep : ustr) (parts : list ustr) : ustr :=
  match parts with
  | [] => []
  | [p] => p
  | p :: ps => p ++ sep ++ join sep ps
  end.

(** [" ".join(text.split())] *)
Definition normalize_ws (s : ustr) : ustr := join [SPACE] (split_ws s).

(** [s.strip()] *)
Fixpoint lstrip (s : ustr) : ustr :=
  match s with
  | [] => []
  | c :: r => if is_uspace c then lstrip r else s
  end.

Definition rstrip (s : ustr) : ustr := rev (lstrip (rev s)).

Definition strip (s : ustr) : ustr := rstrip (lstrip s).

Fixpoint drop_through_space (l : ustr) : option ustr :=
  match l with
  | [] => None
  | c :: r => if N.eqb c SPACE then Some r else drop_through_space r
  end.

(** [s.rsplit(" ", 1)[0]]: everything before the last space. *)
Definition rsplit_space_head (s : ustr) : ustr :=
  match drop_through_space (rev s) with
  | Some b => rev b
  | None => s
  end.

Definition ends_with_space (s : ustr) : bool :=
  match rev s with
  | c :: _ => N.eqb c SPACE
  | [] => false
  end.

Definition has_space (s : ustr) : bool := existsb (N.eqb SPACE) s.

(** [_truncate_with_ellipsis(text, max_chars)] *)
Definition truncate_with_ellipsis (text : ustr) (max_chars : nat) : ustr :=
  let normalized := normalize_ws text in
  if Nat.leb (length normalized) max_chars then normalized
  else
    let trimmed := firstn max_chars (firstn (max_chars + 1) normalized) in
    let trimmed :=
      if negb (ends_with_space trimmed) && has_space trimmed
      then rsplit_space_head trimmed else trimmed in
    rstrip trimmed ++ [ELLIPSIS].

End UText.

Example truncate_test_words :
  UText.truncate_with_ellipsis (UText.u "alpha beta   gamma") 12
  = (UText.u "alpha beta" ++ [UText.ELLIPSIS])%list.
Proof. vm_compute. reflexivity. Qed.

(* ===================================================================== *)
(** ** [extractor/article.py]: [ArticleExtractStage.extract] *)

Module Extract.
Import UText.
Local Open Scope list_scope.

Fixpoint ustr_eqb (a b : ustr) : bool :=
  match a, b with
  | [], [] => true
  | x :: a', y :: b' => N.eqb x y && ustr_eqb a' b'
  | _, _ => false
  end.

(** A decoded JSON value; [JOther t] is a number, boolean or null with
    its Python truthiness [t]. *)
Inductive jval :=
| JStr (s : ustr)
| JList (l : list jval)
| JObj (kvs : list (ustr * jval))
| JOther (truthy : bool).

(** A JSON-LD object ([dict[str, Any]]). *)
Definition jblock := list (ustr * jval).

(** [d.get(k)] *)
Fixpoint dict_get {V} (d : list (ustr * V)) (k : ustr) : option V :=
  match d with
  | [] => None
  | (k', v) :: r => if ustr_eqb k k' then Some v else dict_get r k
  end.

(** Python truthiness of an optional JSON value. *)
Definition jtruthy (o : option jval) : bool :=
  match o with
  | None => false
  | Some (JStr s) => negb (ustr_eqb s [])
  | Some (JList l) => match l with [] => false | _ => true end
  | Some (JObj kvs) => match kvs with [] => false | _ => true end
  | Some (JOther t) => t
  end.

(** [a or b] *)
Definition jor (a b : option jval) : option jval := if jtruthy a then a else b.

Definition str_truthy (o : option ustr) : bool :=
  match o with Some (_ :: _) => true | _ => false end.

Definition sor (a b : option ustr) : option ustr := if str_truthy a then a else b.

Inductive EvidenceType := META_TAG | JSON_LD | EXTRACTED | FETCHED_CONTENT.

(** ASCII lower-casing; enough to compare against the ASCII type names. *)
Definition ulower (s : ustr) : ustr :=
  map (fun c => if (N.leb 65 c && N.leb c 90)%bool then (c + 32)%N else c) s.

Definition ARTICLE_TYPES : list ustr :=
  map u ["article"; "newsarticle"; "blogposting"; "scholarlyarticle"; "report"].

Definition is_article_type (s : ustr) : bool := existsb (ustr_eqb s) ARTICLE_TYPES.

(** [_score_jsonld_type]; [str(item)] of a non-string list item never
    spells one of the article types. *)
Definition score_jsonld_type (raw : option jval) : nat :=
  let types :=
    match raw with
    | Some (JStr s) => [ulower s]
    | Some (JList l) => flat_map (fun it => match it with JStr s => [ulower s] | _ => [] end) l
    | _ => []
    end in
  if existsb is_article_type types then 1 else 0.

(** [_pick_best_jsonld_block]: a stable descending sort takes the first
    block of score 1, or else the first block. *)
Definition pick_best_jsonld_block (blocks : list jblock) : option jblock :=
  match blocks with
  | [] => None
  | b0 :: _ =>
      match find (fun b => Nat.eqb (score_jsonld_type (dict_get b (u "@type"))) 1) blocks with
      | Some b => Some b
      | None => Some b0
      end
  end.

Definition block_truthy (b : option jblock) : bool :=
  match b with Some (_ :: _) => true | _ => false end.

(** [_add(name)] of [_extract_jsonld_author_names]; [None] is the
    [AttributeError] of [name.split()] on a truthy non-string. *)
Definition add_name (names : list ustr) (name : option jval) : option (list ustr) :=
  if negb (jtruthy name) then Some names
  else match name with
       | Some (JStr s) =>
           let n := normalize_ws s in
           if negb (ustr_eqb n []) && negb (existsb (ustr_eqb n) names)
           then Some (names ++ [n]) else Some names
       | _ => None
       end.

Definition extract_jsonld_author_names (block : option jblock) : option (list ustr) :=
  match block with
  | Some (_ :: _ as b) =>
      match dict_get b (u "author") with
      | Some (JStr s) => add_name [] (Some (JStr s))
      | Some (JObj kvs) => add_name [] (dict_get kvs (u "name"))
      | Some (JList items) =>
          fold_left (fun acc it =>
            match acc with
            | None => None
            | Some names =>
                match it with
                | JStr s => add_name names (Some (JStr s))
                | JObj kvs => add_name names (dict_get kvs (u "name"))
                | _ => Some names
                end
            end) items (Some [])
      | _ => Some []
      end
  | _ => Some []
  end.

(** [_pick_meta]: first key whose value is a non-empty string. *)
Fixpoint pick_meta (meta : list (ustr * ustr)) (keys : list ustr) : option (ustr * ustr) :=
  match keys with
  | [] => None
  | k :: ks =>
      match dict_get meta k with
      | Some (_ :: _ as v) => Some (v, k)
      | _ => pick_meta meta ks
      end
  end.

(** [\w] of [re]: ASCII letters, digits and [_]; code points above
    0x7f that are not spaces are counted as word characters. *)
Definition is_word (c : N) : bool :=
  (N.leb 48 c && N.leb c 57) || (N.leb 65 c && N.leb c 90) || (N.leb 97 c && N.leb c 122)
  || N.eqb c 95 || (N.leb 128 c && negb (is_uspace c)).

Definition next_not_word (r : ustr) : bool :=
  match r with [] => true | c :: _ => negb (is_word c) end.

(** [re.split(r",|\||\band\b", s)] *)
Fixpoint re_split_authors (s : ustr) (prev_word : bool) (cur : ustr) : list ustr :=
  match s with
  | [] => [rev cur]
  | c :: r =>
      if N.eqb c 44 || N.eqb c 124 then rev cur :: re_split_authors r false []
      else match r with
           | n :: d :: r' =>
               if N.eqb c 97 && N.eqb n 110 && N.eqb d 100 && negb prev_word && next_not_word r'
               then rev cur :: re_split_authors r' true []
               else re_split_authors r (is_word c) (c :: cur)
           | _ => re_split_authors r (is_word c) (c :: cur)
           end
  end.

Definition CLAIM_TITLE : ustr := u "/title".
Definition CLAIM_AUTHOR : ustr := u "/author_hint".
Definition CLAIM_PUBLISHED : ustr := u "/published_at".
Definition DRAFT_ARTICLE_ID : ustr := u "__draft_article__".

Section WithDatetime.
(** [datetime] with [datetime.fromisoformat] ([None] on [ValueError])
    and [datetime.isoformat]. *)
Variable dt : Type.
Variable fromisoformat : ustr -> option dt.
Variable isoformat : dt -> ustr.

Record Parsed := mkParsed {
  p_url : ustr;
  p_text : option ustr;
  p_title : option ustr;
  p_date_published : option dt;
  p_author_names : list ustr;
  p_html_title : option ustr;
  p_meta_tags : list (ustr * ustr);
  p_json_ld_blocks : list jblock;
  p_canonical_url : option ustr
}.

Record ArticleDraft := mkDraft {
  d_canonical_url : ustr;
  d_source_id : ustr;
  d_title : option ustr;
  d_author_hint : option ustr;
  d_published_at : option dt;
  d_snippet : option ustr
}.

(** The fields of [Evidence] the extractor sets (id and timestamps are
    generated). *)
Record Evidence := mkEvidence {
  ev_article_id : ustr;
  ev_claim_path : ustr;
  ev_type : EvidenceType;
  ev_source_url : ustr;
  ev_extracted_text : ustr;
  ev_run_id : ustr;
  ev_method : ustr;
  ev_metadata_field : ustr
}.

(** [ArticleDraft.validate_snippet_length] *)
Definition validate_snippet_length (v : option ustr) : option ustr :=
  match v with
  | Some s => if str_truthy v && Nat.ltb 1500 (length s)
              then Some (firstn 1500 s ++ [ELLIPSIS]) else v
  | None => None
  end.

Definition replace_Z (s : ustr) : ustr :=
  flat_map (fun c => if N.eqb c 90 then u "+00:00" else [c]) s.

(** [_parse_datetime] *)
Definition parse_datetime (value : option ustr) : option dt :=
  match value with
  | Some (_ :: _ as v) =>
      match strip v with
      | [] => None
      | n => fromisoformat (replace_Z n)
      end
  | _ => None
  end.

(** [enforce_evidence_coverage]: the draft with uncovered fields set to
    [None], and the warnings (one per dropped field). *)
Definition has_claim (claim : ustr) (evs : list Evidence) : bool :=
  existsb (fun e => ustr_eqb (ev_claim_path e) claim) evs.

Definition enforce_evidence_coverage (d : ArticleDraft) (evs : list Evidence)
  : ArticleDraft * list ustr :=
  let '(t, w1) :=
    match d_title d with
    | Some x => if has_claim CLAIM_TITLE evs then (Some x, []) else (None, [u "title"])
    | None => (None, [])
    end in
  let '(a, w2) :=
    match d_author_hint d with
    | Some x => if has_claim CLAIM_AUTHOR evs then (Some x, []) else (None, [u "author_hint"])
    | None => (None, [])
    end in
  let '(p, w3) :=
    match d_published_at d with
    | Some x => if has_claim CLAIM_PUBLISHED evs then (Some x, []) else (None, [u "published_at"])
    | None => (None, [])
    end in
  (mkDraft (d_canonical_url d) (d_source_id d) t a p (d_snippet d), w1 ++ w2 ++ w3).

(** [ArticleExtractStage(source_id, snippet_max_chars,
    evidence_snippet_max_chars)] *)
Record ExtractStage := mkStage {
  source_id : ustr;
  snippet_max_chars : nat;
  evidence_snippet_max_chars : nat
}.

Definition default_stage (sid : ustr) : ExtractStage := mkStage sid 1500 800.

(** [_build_evidence] *)
Definition build_evidence (st : ExtractStage) (claim : ustr) (ty : EvidenceType)
  (src text run method field : ustr) : Evidence :=
  mkEvidence DRAFT_ARTICLE_ID claim ty src
    (truncate_with_ellipsis text (evidence_snippet_max_chars st)) run method field.

(** [ArticleExtractStage.extract]; [None] when it raises. *)
Definition extract (st : ExtractStage) (parsed : Parsed) (run_id : ustr)
  : option (ArticleDraft * list Evidence) :=
  let source_url := match sor (p_canonical_url parsed) (Some (p_url parsed)) with
                    | Some s => s | None => p_url parsed end in
  let block := pick_best_jsonld_block (p_json_ld_blocks parsed) in
  let meta := p_meta_tags parsed in
  let bev := build_evidence st in
  (* title: JSON-LD -> meta -> parsed title / html title *)
  let json_ld_title :=
    match block with
    | Some b =>
        if block_truthy block then
          match jor (dict_get b (u "headline")) (dict_get b (u "name")) with
          | Some (JStr s) => if negb (ustr_eqb (strip s) []) then Some (normalize_ws s) else None
          | _ => None
          end
        else None
    | None => None
    end in
  let meta_title := pick_meta meta [u "og:title"; u "twitter:title"] in
  let fallback_title := sor (p_title parsed) (p_html_title parsed) in
  let '(title, ev_t) :=
    match json_ld_title with
    | Some t => (Some t, [bev CLAIM_TITLE JSON_LD source_url t run_id
                            (u "json_ld.headline") (u "headline")])
    | None =>
        match meta_title with
        | Some (v, k) =>
            let t := normalize_ws v in
            (Some t, [bev CLAIM_TITLE META_TAG source_url t run_id (u "meta." ++ k) k])
        | None =>
            if str_truthy fallback_title then
              let t := normalize_ws (match fallback_title with Some x => x | None => [] end) in
              (Some t, [bev CLAIM_TITLE EXTRACTED source_url t run_id
                          (u "parsed.title") (u "title")])
            else (None, [])
        end
    end in
  (* author: JSON-LD -> meta -> parsed author names *)
  match extract_jsonld_author_names block with
  | None => None
  | Some jnames =>
  let meta_author := pick_meta meta [u "author"; u "article:author"; u "og:article:author"] in
  let parsed_author := hd_error (p_author_names parsed) in
  let '(author_hint, ev_a) :=
    match jnames with
    | n0 :: _ => (Some n0, [bev CLAIM_AUTHOR JSON_LD source_url (join (u ", ") jnames) run_id
                              (u "json_ld.author") (u "author")])
    | [] =>
        match meta_author with
        | Some (v, k) =>
            let cands := map strip (re_split_authors v false []) in
            match find (fun x => negb (ustr_eqb x [])) cands with
            | Some h => (Some h, [bev CLAIM_AUTHOR META_TAG source_url v run_id (u "meta." ++ k) k])
            | None => (None, [])
            end
        | None =>
            match parsed_author with
            | Some (_ :: _ as pa) =>
                (Some pa, [bev CLAIM_AUTHOR EXTRACTED source_url pa run_id
                             (u "parsed.author_names") (u "author_names")])
            | _ => (None, [])
            end
        end
    end in
  (* published date: JSON-LD -> meta -> parsed date *)
  let json_ld_date :=
    match block with
    | Some b =>
        if block_truthy block then
          match jor (dict_get b (u "datePublished")) (dict_get b (u "dateCreated")) with
          | Some (JStr s) => parse_datetime (Some s)
          | _ => None
          end
        else None
    | None => None
    end in
  let meta_date := pick_meta meta
    [u "article:published_time"; u "pubdate"; u "publish-date"; u "dc.date"; u "date"] in
  let meta_date_parsed := parse_datetime (option_map fst meta_date) in
  let '(published_at, ev_p) :=
    match json_ld_date with
    | Some d => (Some d, [bev CLAIM_PUBLISHED JSON_LD source_url (isoformat d) run_id
                            (u "json_ld.datePublished") (u "datePublished")])
    | None =>
        match meta_date_parsed, meta_date with
        | Some d, Some (v, k) =>
            (Some d, [bev CLAIM_PUBLISHED META_TAG source_url v run_id (u "meta." ++ k) k])
        | _, _ =>
            match p_date_published parsed with
            | Some d => (Some d, [bev CLAIM_PUBLISHED EXTRACTED source_url (isoformat d) run_id
                                    (u "parsed.date_published") (u "date_published")])
            | None => (None, [])
            end
        end
    end in
  let snippet :=
    match p_text parsed with
    | Some (_ :: _ as t) => Some (truncate_with_ellipsis t (snippet_max_chars st))
    | _ => None
    end in
  let evidence_list := ev_t ++ ev_a ++ ev_p in
  let draft := mkDraft source_url (source_id st) title author_hint published_at
                 (validate_snippet_length snippet) in
  let '(draft', _) := enforce_evidence_coverage draft evidence_list in
  Some (draft', evidence_list)
  end.

End WithDatetime.

End Extract.

(* --------------------------------------------------------------------- *)
(** *** Extractor: lemmas *)

Module ExtractFacts.
Import UText Extract.

Lemma ustr_eqb_eq : forall a b, ustr_eqb a b = true <-> a = b.
Proof.
  induction a as [|x a IH]; destruct b as [|y b]; simpl; split; intros H;
    try discriminate; try reflexivity.
  - apply andb_prop in H as [H1 H2]. apply N.eqb_eq in H1. apply IH in H2. subst. reflexivity.
  - injection H as -> ->. rewrite N.eqb_refl. simpl. apply IH. reflexivity.
Qed.

Lemma has_claim_In : forall (c : ustr) (evs : list Evidence),
  has_claim c evs = true -> exists e, In e evs /\ ev_claim_path e = c.
Proof.
  intros c evs H. unfold has_claim in H. apply existsb_exists in H as [e [Hin He]].
  exists e. split; [exact Hin | apply ustr_eqb_eq; exact He].
Qed.

(** After [enforce_evidence_coverage], every non-null claimed field has
    a matching [claim_path] in the list. *)
Lemma enforce_covers : forall {dt} (d : ArticleDraft dt) evs d' w,
  enforce_evidence_coverage dt d evs = (d', w) ->
  (d_title dt d' <> None -> has_claim CLAIM_TITLE evs = true) /\
  (d_author_hint dt d' <> None -> has_claim CLAIM_AUTHOR evs = true) /\
  (d_published_at dt d' <> None -> has_claim CLAIM_PUBLISHED evs = true).
Proof.
  intros dt d evs d' w H. unfold enforce_evidence_coverage in H.
  destruct (d_title dt d) eqn:Et;
    [destruct (has_claim CLAIM_TITLE evs) eqn:Ht|];
  destruct (d_author_hint dt d) eqn:Ea;
    try (destruct (has_claim CLAIM_AUTHOR evs) eqn:Ha);
  destruct (d_published_at dt d) eqn:Ep;
    try (destruct (has_claim CLAIM_PUBLISHED evs) eqn:Hp);
  injection H as <- _; simpl; repeat split; intros Hn; congruence.
Qed.

(** [extract] returns the evidence list it built together with the
    draft passed through [enforce_evidence_coverage] over that list. *)
Lemma extract_shape : forall dt fromiso iso st parsed run d evs,
  extract dt fromiso iso st parsed run = Some (d, evs) ->
  exists d0 w, enforce_evidence_coverage dt d0 evs = (d, w).
Proof.
  intros dt fromiso iso st parsed run d evs H.
  unfold extract in H. cbv zeta in H.
  repeat match type of H with
         | (match ?M with _ => _ end) = _ => destruct M eqn:?
         end;
  try discriminate.
  injection H as <- <-. eauto.
Qed.

End ExtractFacts.

Module ExtractClaims.
Import UText Extract ExtractFacts.
Local Open Scope list_scope.

(** C3: for every parsed input and run id, each non-null field among
    title, author_hint and published_at of the draft returned by
    [ArticleExtractStage.extract] has an evidence item in the returned
    list whose [claim_path] is the field's JSON Pointer. *)
Theorem extract_evidence_coverage :
  forall dt fromiso iso st parsed run d evs,
  extract dt fromiso iso st parsed run = Some (d, evs) ->
  (d_title dt d <> None -> exists e, In e evs /\ ev_claim_path e = CLAIM_TITLE) /\
  (d_author_hint dt d <> None -> exists e, In e evs /\ ev_claim_path e = CLAIM_AUTHOR) /\
  (d_published_at dt d <> None -> exists e, In e evs /\ ev_claim_path e = CLAIM_PUBLISHED).
Proof.
  intros dt fromiso iso st parsed run d evs H.
  destruct (extract_shape _ _ _ _ _ _ _ _ H) as [d0 [w Hd]].
  destruct (enforce_covers d0 evs d w Hd) as [Ht [Ha Hp]].
  repeat split; intros Hn; apply has_claim_In; auto.
Qed.

(** A sample page: og:title, author and published-time meta tags, some text. *)
Definition sample_parsed : Parsed ustr :=
  mkParsed ustr (u "https://example.com/post") (Some (u "Body text here"))
    None None [] None
    [(u "og:title", u "Hello World"); (u "author", u "Jane Doe and John Roe");
     (u "article:published_time", u "2024-01-02T03:04:05Z")]
    [] None.

Lemma extract_evidence_coverage_witness :
  exists d evs,
    extract ustr (fun s => Some s) (fun s => s) (default_stage (u "rss:test")) sample_parsed (u "run-1")
      = Some (d, evs) /\
    (d_title ustr d <> None -> exists e, In e evs /\ ev_claim_path e = CLAIM_TITLE) /\
    (d_author_hint ustr d <> None -> exists e, In e evs /\ ev_claim_path e = CLAIM_AUTHOR) /\
    (d_published_at ustr d <> None -> exists e, In e evs /\ ev_claim_path e = CLAIM_PUBLISHED).
Proof.
  eexists. eexists. split.
  - vm_compute. reflexivity.
  - apply (extract_evidence_coverage ustr (fun s => Some s) (fun s => s)
             (default_stage (u "rss:test")) sample_parsed (u "run-1")).
    vm_compute. reflexivity.
Defined.

(** A page whose readable text is one 2000-character word and whose
    og:title is one 1000-character word. *)
Definition long_word_parsed : Parsed ustr :=
  mkParsed ustr (u "https://example.com/long") (Some (repeat 120%N 2000))
    None None [] None [(u "og:title", repeat 120%N 1000)] [] None.

(** C8 (evaluation at the failing input): the default stage (caps 1500
    and 800) returns a 1501-character snippet and an 801-character
    evidence text. *)
Theorem extract_long_word_lengths :
  match extract ustr (fun s => Some s) (fun s => s) (default_stage (u "rss:test"))
          long_word_parsed (u "run-1") with
  | Some (d, evs) =>
      option_map (@length N) (d_snippet ustr d) = Some 1501 /\
      map (fun e => length (ev_extracted_text e)) evs = [801]
  | None => False
  end.
Proof. vm_compute. split; reflexivity. Qed.

End ExtractClaims.

Module UrlClaims.
Import UrlNorm.

(** C6 (evaluation at the failing input): [http://a:443/] keeps its
    port because 443 is not the default port of [http], but the result
    is an [https] URL, whose default port 443 the second call drops. *)
Theorem canonicalize_url_not_idempotent_port_443 :
  canonicalize_url "http://a:443/" = Some "https://a:443/" /\
  canonicalize_url "https://a:443/" = Some "https://a/".
Proof. split; vm_compute; reflexivity. Qed.

(** A bracketed IPv6 host loses its brackets, and the second call
    raises [ValueError] on the port text. *)
Lemma canonicalize_url_ipv6_second_call_raises :
  canonicalize_url "http://[::1]/" = Some "https://::1/" /\
  canonicalize_url "https://::1/" = None.
Proof. split; vm_compute; reflexivity. Qed.

End UrlClaims.

(* ===================================================================== *)
(** ** [fetcher/http.py]: [fetch_url] *)

Module Fetch.
Import UrlLib.

Inductive FetchErrorCode :=
| TIMEOUT | SECURITY_BLOCKED | FETCH_ERROR | BLOCKED_BY_ROBOTS | BODY_TOO_LARGE | REDIRECT_LIMIT.

(** Resolved addresses, as integers of 32 or 128 bits. *)
Inductive ip := IPv4 (a : N) | IPv6 (a : N).

Record network := mkNet { net_v6 : bool; net_base : N; net_prefix : N }.

(** [ip_obj in ip_network(cidr, strict=False)]: same family and same
    leading [prefix] bits. *)
Definition in_network (x : ip) (n : network) : bool :=
  match x with
  | IPv4 a => negb (net_v6 n) && N.eqb (N.shiftr a (32 - net_prefix n)) (N.shiftr (net_base n) (32 - net_prefix n))
  | IPv6 a => net_v6 n && N.eqb (N.shiftr a (128 - net_prefix n)) (N.shiftr (net_base n) (128 - net_prefix n))
  end.

Definition v4 (a b c d : N) : N := (((a * 256 + b) * 256 + c) * 256 + d)%N.
Definition v6_hi (h : N) : N := N.shiftl h 112.

(** [ComplianceConfig.BLOCKED_IP_RANGES] *)
Definition BLOCKED_IP_RANGES : list network :=
  [ mkNet false (v4 127 0 0 1) 8; mkNet false (v4 10 0 0 0) 8; mkNet false (v4 172 16 0 0) 12;
    mkNet false (v4 192 168 0 0) 16; mkNet false (v4 169 254 0 0) 16;
    mkNet false (v4 169 254 169 254) 32; mkNet false (v4 224 0 0 0) 4;
    mkNet false (v4 255 255 255 255) 32; mkNet false (v4 0 0 0 0) 8;
    mkNet true 1 128; mkNet true (v6_hi 65152) 10; mkNet true (v6_hi 64512) 7;
    mkNet true (v6_hi 65280) 8 ].

(** [_is_blocked_ip] *)
Definition is_blocked_ip (x : ip) : bool := existsb (in_network x) BLOCKED_IP_RANGES.

(** [_validate_url_scheme]; [None] is the [ValueError] of [urlparse]. *)
Definition scheme_allowed (sr : SplitResult) : bool :=
  existsb (String.eqb (Py.lower (scheme sr))) ["http"; "https"].

Definition validate_url_scheme (url : string) : option bool :=
  match urlsplit url with
  | None => None
  | Some sr => Some (scheme_allowed sr)
  end.

(** [ComplianceConfig.MAX_BODY_BYTES_BY_TYPE] and the default. *)
Definition MAX_BODY_BYTES_BY_TYPE : list (string * N) :=
  [("text/html", 5000000); ("application/xml", 5000000); ("text/xml", 5000000);
   ("application/atom+xml", 5000000); ("application/rss+xml", 5000000);
   ("application/json", 2000000); ("text/plain", 2000000);
   ("application/pdf", 0); ("application/x-pdf", 0)]%N.

Definition MAX_BODY_BYTES_DEFAULT : N := 500000.
Definition MAX_REDIRECTS : nat := 5.

Fixpoint assoc_str {V} (d : list (string * V)) (k : string) : option V :=
  match d with
  | [] => None
  | (k', v) :: r => if String.eqb k k' then Some v else assoc_str r k
  end.

(** [_content_limit_for_response] *)
Definition content_limit_for_response (ct : option string) : N :=
  match ct with
  | None | Some EmptyString => MAX_BODY_BYTES_DEFAULT
  | Some c =>
      let '(pre, _, _) := Py.partition ";" c in
      match assoc_str MAX_BODY_BYTES_BY_TYPE (Py.lower (Py.strip pre)) with
      | Some n => n
      | None => MAX_BODY_BYTES_DEFAULT
      end
  end.

(** Exceptions that reach [fetch_url] from the libraries it calls:
    [requests.Timeout], any other [requests.RequestException],
    [ValueError], and anything else. *)
Inductive Exc := ExTimeout | ExRequest | ExValue | ExOther.

(** A response of [session.get(..., allow_redirects=False, stream=True)]:
    status, [Location] and [Content-Type] headers, the chunks
    [iter_content] yields, and the exception it raises after them, if any. *)
Record Response := mkResp {
  status_code : N;
  location : option string;
  content_type : option string;
  chunks : list string;
  chunks_error : option Exc
}.

Inductive GetResult := GetOk (r : Response) | GetRaise (e : Exc).

Record RobotsDecision := mkDecision { rd_allowed : bool; rd_blocked_by_robots : bool }.

Record FetchedDoc := mkDoc {
  fd_status_code : N;
  fd_final_url : string;
  fd_body_bytes : option string;
  fd_body_sha256 : option string
}.

Record FetchLog := mkLog {
  fl_url : string;
  fl_status_code : option N;
  fl_bytes_received : option nat;
  fl_error_code : option FetchErrorCode;
  fl_run_id : string
}.

(** What [fetch_url] does: return a pair, or raise. *)
Inductive FetchOutcome :=
| FReturn (doc : option FetchedDoc) (log : FetchLog)
| FRaise (e : Exc).

(** Exceptions inside the [try] of [fetch_url]. *)
Inductive TryExc := TRedirectLimit | TBodyLimit | TPy (e : Exc).

Section WithEnvironment.
(** [socket.getaddrinfo] (an unresolvable host gives no address). *)
Variable resolve : string -> list ip.
(** [urljoin]; [None] is its [ValueError]. *)
Variable urljoin : string -> string -> option string.
(** The HTTP session: the response to the [n]-th request of this fetch. *)
Variable session_get : nat -> string -> GetResult.
(** [RobotsTxtChecker.evaluate], when a checker is configured. *)
Variable robots : option (string -> RobotsDecision).
Variable sha256 : string -> string.

(** [_read_body_with_limit] *)
Fixpoint read_chunks (cs : list string) (total max_bytes : N) (acc : string)
  : TryExc + string :=
  match cs with
  | [] => inr acc
  | c :: r =>
      if String.eqb c "" then read_chunks r total max_bytes acc
      else
        let total' := (total + N.of_nat (String.length c))%N in
        if N.ltb max_bytes total' then inl TBodyLimit
        else read_chunks r total' max_bytes (acc ++ c)
  end.

(** Total length of the chunks of a body. *)
Definition chunks_total (cs : list string) : N :=
  fold_right (fun c n => (N.of_nat (String.length c) + n)%N) 0%N cs.

Definition read_body_with_limit (resp : Response) (max_bytes : N) : TryExc + string :=
  if N.eqb max_bytes 0 then inl TBodyLimit
  else match read_chunks (chunks resp) 0%N max_bytes "" with
       | inl e => inl e
       | inr body => match chunks_error resp with
                     | Some e => inl (TPy e)
                     | None => inr body
                     end
       end.

Definition location_truthy (r : Response) : option string :=
  match location r with
  | Some (String _ _ as l) => Some l
  | _ => None
  end.

(** [_follow_redirects]: hops [hop .. max_redirects], [fuel] bounding
    the [range]. *)
Fixpoint follow_redirects_from (fuel hop max_redirects : nat) (current : string)
  : TryExc + (Response * string) :=
  match fuel with
  | O => inl TRedirectLimit
  | S fuel' =>
      match session_get hop current with
      | GetRaise e => inl (TPy e)
      | GetOk resp =>
          match (N.leb 300 (status_code resp) && N.ltb (status_code resp) 400)%bool,
                location_truthy resp with
          | true, Some loc =>
              if Nat.leb max_redirects hop then inl TRedirectLimit
              else
                match urljoin current loc with
                | None => inl (TPy ExValue)
                | Some next_url =>
                    match validate_url_scheme next_url with
                    | None => inl (TPy ExValue)
                    | Some false => inl TRedirectLimit
                    | Some true =>
                        let host := match urlsplit next_url with
                                    | Some sr => match hostname sr with Some h => h | None => "" end
                                    | None => "" end in
                        if existsb is_blocked_ip (resolve host) then inl TRedirectLimit
                        else follow_redirects_from fuel' (S hop) max_redirects next_url
                    end
                end
          | _, _ => inr (resp, current)
          end
      end
  end.

Definition follow_redirects (url : string) (max_redirects : nat) :=
  follow_redirects_from (S max_redirects) 0 max_redirects url.

(** The body of the [try] in [fetch_url]. *)
Definition fetch_try (url run_id : string) : TryExc + (FetchedDoc * FetchLog) :=
  match follow_redirects url MAX_REDIRECTS with
  | inl e => inl e
  | inr (resp, final_url) =>
      if N.eqb (status_code resp) 304 then
        inr (mkDoc 304 final_url None None, mkLog url (Some 304%N) (Some 0) None run_id)
      else
        match read_body_with_limit resp (content_limit_for_response (content_type resp)) with
        | inl e => inl e
        | inr body =>
            let body_hash := if String.eqb body "" then None else Some (sha256 body) in
            inr (mkDoc (status_code resp) final_url (Some body) body_hash,
                 mkLog url (Some (status_code resp)) (Some (String.length body)) None run_id)
        end
  end.

(** [not decision.allowed and decision.error_code == BLOCKED_BY_ROBOTS],
    when a robots checker is configured. *)
Definition robots_blocks (url : string) : bool :=
  match robots with
  | Some evaluate => let d := evaluate url in
                     negb (rd_allowed d) && rd_blocked_by_robots d
  | None => false
  end.

Definition error_log (url run_id : string) (c : FetchErrorCode) : FetchLog :=
  mkLog url None None (Some c) run_id.

(** [fetch_url(url, run_id, robots_checker, politeness, session)]; the
    politeness slot only delays the request. *)
Definition fetch_url (url run_id : string) : FetchOutcome :=
  match validate_url_scheme url with
  | None => FRaise ExValue
  | Some false => FReturn None (error_log url run_id SECURITY_BLOCKED)
  | Some true =>
      match urlsplit url with
      | None => FRaise ExValue
      | Some parsed =>
          match hostname parsed with
          | None => FReturn None (error_log url run_id FETCH_ERROR)
          | Some host =>
              if existsb is_blocked_ip (resolve host)
              then FReturn None (error_log url run_id SECURITY_BLOCKED)
              else
                if robots_blocks url then FReturn None (error_log url run_id BLOCKED_BY_ROBOTS)
                else
                  match fetch_try url run_id with
                  | inr (doc, log) => FReturn (Some doc) log
                  | inl TRedirectLimit => FReturn None (error_log url run_id REDIRECT_LIMIT)
                  | inl TBodyLimit => FReturn None (error_log url run_id BODY_TOO_LARGE)
                  | inl (TPy ExTimeout) => FReturn None (error_log url run_id TIMEOUT)
                  | inl (TPy ExRequest) => FReturn None (error_log url run_id FETCH_ERROR)
                  | inl (TPy e) => FRaise e
                  end
          end
      end
  end.

End WithEnvironment.

End Fetch.

(* ===================================================================== *)
(** ** [core/pipeline.py]: [Pipeline.run] *)

Module Pipeline.
Local Open Scope list_scope.

Inductive RunStatus := RUNNING | COMPLETED | FAILED | CANCELLED.

Record RunLog := mkRunLog {
  rl_id : string;
  rl_source_id : string;
  rl_status : RunStatus;
  rl_error_message : option string;
  rl_ended : bool;
  fetched_count : nat;
  new_articles_count : nat;
  updated_articles_count : nat;
  error_count : nat
}.

(** A stage call returns a value or raises an exception (its message). *)
Inductive Res (A : Type) := Ok (a : A) | Err (msg : string).
Arguments Ok {A} a.
Arguments Err {A} msg.

Definition set_status (rl : RunLog) (s : RunStatus) (m : option string) : RunLog :=
  mkRunLog (rl_id rl) (rl_source_id rl) s m true (fetched_count rl)
    (new_articles_count rl) (updated_articles_count rl) (error_count rl).

Definition incr_fetched (rl : RunLog) : RunLog :=
  mkRunLog (rl_id rl) (rl_source_id rl) (rl_status rl) (rl_error_message rl) (rl_ended rl)
    (S (fetched_count rl)) (new_articles_count rl) (updated_articles_count rl) (error_count rl).

Definition incr_error (rl : RunLog) : RunLog :=
  mkRunLog (rl_id rl) (rl_source_id rl) (rl_status rl) (rl_error_message rl) (rl_ended rl)
    (fetched_count rl) (new_articles_count rl) (updated_articles_count rl) (S (error_count rl)).

Definition add_store_counts (rl : RunLog) (created updated : bool) : RunLog :=
  mkRunLog (rl_id rl) (rl_source_id rl) (rl_status rl) (rl_error_message rl) (rl_ended rl)
    (fetched_count rl)
    (if created then S (new_articles_count rl) else new_articles_count rl)
    (if updated then S (updated_articles_count rl) else updated_articles_count rl)
    (error_count rl).

Section WithStages.
Variables URL Doc Log ParsedT Draft Evs : Type.
(** [bool(fetch_log.error_code)] *)
Variable log_error : Log -> bool.
Variable discover : string -> string -> Res (list URL).
Variable fetch : URL -> string -> Res (option Doc * Log).
Variable parse : Doc -> string -> Res ParsedT.
Variable extract : ParsedT -> string -> Res (Draft * Evs).
Variable store : Draft -> Evs -> string -> Res (bool * bool).
Variable export : string -> Res nat.
(** The run store's [create_run_log], [save_fetch_log] and
    [update_run_log] (always [Ok] when no store is configured). *)
Variable create_run_log : RunLog -> Res unit.
Variable save_fetch_log : Log -> Res unit.
Variable update_run_log : RunLog -> Res unit.

(** The stage calls the orchestrator makes, in order. *)
Inductive Event :=
| EvFetch (u : URL)
| EvParse (d : Doc)
| EvExtract (p : ParsedT)
| EvStore (d : Draft)
| EvExport (path : string).

(** One iteration of the per-URL loop, with its [try/except]. *)
Definition process_url (run_id : string) (dry_run : bool)
  (acc : RunLog * list Event) (url : URL) : RunLog * list Event :=
  let '(rl, tr) := acc in
  let tr1 := tr ++ [EvFetch url] in
  match fetch url run_id with
  | Err _ => (incr_error rl, tr1)
  | Ok (fetched_doc, fetch_log) =>
      let rl1 := incr_fetched rl in
      match save_fetch_log fetch_log with
      | Err _ => (incr_error rl1, tr1)
      | Ok _ =>
          match log_error fetch_log, fetched_doc with
          | false, Some d =>
              let tr2 := tr1 ++ [EvParse d] in
              match parse d run_id with
              | Err _ => (incr_error rl1, tr2)
              | Ok p =>
                  let tr3 := tr2 ++ [EvExtract p] in
                  match extract p run_id with
                  | Err _ => (incr_error rl1, tr3)
                  | Ok (draft, evs) =>
                      if dry_run then (rl1, tr3)
                      else
                        let tr4 := tr3 ++ [EvStore draft] in
                        match store draft evs run_id with
                        | Err _ => (incr_error rl1, tr4)
                        | Ok (created, updated) => (add_store_counts rl1 created updated, tr4)
                        end
                  end
              end
          | _, _ => (incr_error rl1, tr1)
          end
      end
  end.

(** The outer [except] handler followed by the final [_persist_run_end]. *)
Definition fail_run (rl : RunLog) (msg : string) (tr : list Event)
  : option (RunLog * list Event) :=
  let rl' := set_status rl FAILED (Some msg) in
  match update_run_log rl' with
  | Ok _ => Some (rl', tr)
  | Err _ => None
  end.

(** [Pipeline.run(seed, source_id, run_id, dry_run)]; [None] when it raises. *)
Definition run (seed source_id run_id : string) (dry_run : bool)
  : option (RunLog * list Event) :=
  let rl0 := mkRunLog run_id source_id RUNNING None false 0 0 0 0 in
  match create_run_log rl0 with
  | Err _ => None
  | Ok _ =>
      match discover seed run_id with
      | Err m => fail_run rl0 m []
      | Ok [] =>
          let rl1 := set_status rl0 COMPLETED (Some "No URLs discovered") in
          match update_run_log rl1 with
          | Ok _ => Some (rl1, [])
          | Err m => fail_run rl1 m []
          end
      | Ok urls =>
          let '(rl2, tr) := fold_left (process_url run_id dry_run) urls (rl0, []) in
          let finish (rl : RunLog) (tr : list Event) :=
            let rl4 := set_status rl COMPLETED (rl_error_message rl) in
            match update_run_log rl4 with
            | Ok _ => Some (rl4, tr)
            | Err _ => None
            end in
          if dry_run then finish rl2 tr
          else
            let path := String.append "export_" (String.append run_id ".jsonl") in
            let tr' := tr ++ [EvExport path] in
            match export path with
            | Err m =>
                let rl3 := set_status rl2 FAILED (Some (String.append "Export failed: " m)) in
                match update_run_log rl3 with
                | Ok _ => Some (rl3, tr')
                | Err m' => fail_run rl3 m' tr'
                end
            | Ok _ => finish rl2 tr'
            end
      end
  end.

End WithStages.

Arguments EvFetch {URL Doc ParsedT Draft} u.
Arguments EvParse {URL Doc ParsedT Draft} d.
Arguments EvExtract {URL Doc ParsedT Draft} p.
Arguments EvStore {URL Doc ParsedT Draft} d.
Arguments EvExport {URL Doc ParsedT Draft} path.
Arguments process_url {URL Doc Log ParsedT Draft Evs}.
Arguments fail_run {URL Doc ParsedT Draft}.
Arguments run {URL Doc Log ParsedT Draft Evs}.

End Pipeline.

(* --------------------------------------------------------------------- *)
(** *** The CLI wiring: [HttpFetchStage] as the pipeline's fetch stage *)

Module Wiring.
Import Fetch Pipeline.

(** [bool(fetch_log.error_code)] for a [FetchLog]. *)
Definition log_error (l : FetchLog) : bool :=
  match fl_error_code l with Some _ => true | None => false end.

(** [HttpFetchStage.fetch]: [fetch_url]'s pair, or the exception it raised. *)
Definition http_fetch_stage resolve urljoin session_get robots sha256
    (url run_id : string) : Res (option FetchedDoc * FetchLog) :=
  match fetch_url resolve urljoin session_get robots sha256 url run_id with
  | FReturn d l => Ok (d, l)
  | FRaise _ => Err "exception"
  end.

End Wiring.

(* ===================================================================== *)
(** ** Storage: [SQLiteRunStore.upsert_article] and [rollback_run]
    ([src/storage/sqlite.py]) *)

(** Tables are lists of rows in insertion order. Columns no claim reads
    (timestamps, the version row's own uuid, [latency_ms], ...) are left
    out. The versioned article fields (title, author_hint, published_at,
    snippet) are an abstract type [Fields], and the evidence columns that
    snapshots carry unchanged (type, source_url, text, confidence,
    metadata, ...) an abstract type [Rest]. The migration that declares
    the tables' keys is not part of the sources, so key constraints are
    not modelled. *)
Module Storage.

Section WithEnv.
Variables Fields Rest : Type.
(** [quality.urlnorm.canonicalize_url]; [None] when it raises. *)
Variable canonicalize_url : string -> option string.
(** [_hash_article_fields]: SHA-256 of the canonical JSON of the fields. *)
Variable hash_article_fields : Fields -> string.
(** The [uuid4()] drawn for the [i]-th restored evidence item of an
    article whose snapshot item has an empty id. *)
Variable uuid4 : string -> nat -> string.

Record Evidence := mkEvidence {
  e_id : string;
  e_article_id : string;
  e_claim_path : string;
  e_rest : Rest;
  e_run_id : string
}.

Record Article := mkArticle {
  a_id : string;
  a_canonical_url : string;
  a_source_id : string;
  a_fields : Fields;
  a_version : nat
}.

(** A [versions] row; [v_evidence_snapshot] is the list
    [_serialize_evidence_snapshot] wrote (it keeps every column but
    [article_id]). *)
Record Version := mkVersion {
  v_article_id : string;
  v_version : nat;
  v_content_hash : string;
  v_fields : Fields;
  v_evidence_snapshot : list Evidence;
  v_run_id : string
}.

Record ArticleDraft := mkDraft {
  d_canonical_url : string;
  d_source_id : string;
  d_fields : Fields
}.

(** A [fetch_log] or [merge_decisions] row: its id and [run_id]. *)
Record RunRow := mkRunRow { rr_id : string; rr_run_id : string }.

Record DB := mkDB {
  articles : list Article;
  evidence : list Evidence;
  versions : list Version;
  fetch_log : list RunRow;
  merge_decisions : list RunRow;
  run_log : list (string * string)   (* id, status *)
}.

Definition empty_db : DB := mkDB [] [] [] [] [] [].

(** [item.model_copy(update={"article_id": ..., "run_id": ...})] *)
Definition set_article_run (aid run_id : string) (e : Evidence) : Evidence :=
  mkEvidence (e_id e) aid (e_claim_path e) (e_rest e) run_id.

(** [SELECT ... FROM articles WHERE canonical_url = ? AND source_id = ?]
    with [fetchone()]. *)
Definition find_article (url source_id : string) (arts : list Article) : option Article :=
  find (fun a => String.eqb (a_canonical_url a) url && String.eqb (a_source_id a) source_id) arts.

(** [SELECT ... FROM versions WHERE article_id = ? ORDER BY version DESC
    LIMIT 1]: a row of the article with the largest version. *)
Fixpoint latest_version (aid : string) (vs : list Version) : option Version :=
  match vs with
  | [] => None
  | w :: r =>
      let rest := latest_version aid r in
      if String.eqb (v_article_id w) aid then
        match rest with
        | None => Some w
        | Some b => if Nat.leb (v_version w) (v_version b) then Some b else Some w
        end
      else rest
  end.

(** [DELETE FROM evidence WHERE article_id = ?] followed by the inserts. *)
Definition replace_evidence (aid : string) (fresh : list Evidence) (evs : list Evidence)
  : list Evidence :=
  filter (fun e => negb (String.eqb (e_article_id e) aid)) evs ++ fresh.

(** [_load_article]; [None] is its [ValueError]. *)
Definition load_article (db : DB) (aid : string) : option (Article * list Evidence) :=
  match find (fun a => String.eqb (a_id a) aid) (articles db) with
  | None => None
  | Some a => Some (a, filter (fun e => String.eqb (e_article_id e) aid) (evidence db))
  end.

(** The [existing_row is None] branch: version 1 of a new article. *)
Definition insert_new_article (db : DB) (aid url : string) (draft : ArticleDraft)
    (evidence_list : list Evidence) (run_id h : string) : DB :=
  let persisted := map (set_article_run aid run_id) evidence_list in
  mkDB (articles db ++ [mkArticle aid url (d_source_id draft) (d_fields draft) 1])
       (replace_evidence aid persisted (evidence db))
       (versions db ++ [mkVersion aid 1 h (d_fields draft) persisted run_id])
       (fetch_log db) (merge_decisions db) (run_log db).

(** The [latest_hash != content_hash] branch: version [current + 1]. *)
Definition update_article (db : DB) (a : Article) (draft : ArticleDraft)
    (evidence_list : list Evidence) (run_id h : string) : DB :=
  let aid := a_id a in
  let version := S (a_version a) in
  let persisted := map (set_article_run aid run_id) evidence_list in
  mkDB (map (fun b => if String.eqb (a_id b) aid
                      then mkArticle (a_id b) (a_canonical_url b) (a_source_id b)
                             (d_fields draft) version
                      else b) (articles db))
       (replace_evidence aid persisted (evidence db))
       (versions db ++ [mkVersion aid version h (d_fields draft) persisted run_id])
       (fetch_log db) (merge_decisions db) (run_log db).

(** [latest_hash != content_hash] is false. *)
Definition same_hash (latest : option Version) (h : string) : bool :=
  match latest with Some v => String.eqb (v_content_hash v) h | None => false end.

(** [upsert_article(draft, evidence_list, run_id)]: the new state and
    [(article, created, updated)], or [None] when it raises (the
    transaction is then not committed). [new_id] is the [uuid4()] a new
    article gets. *)
Definition upsert_article (draft : ArticleDraft) (evidence_list : list Evidence)
    (run_id new_id : string) (db : DB)
  : option (DB * (Article * list Evidence * bool * bool)) :=
  match canonicalize_url (d_canonical_url draft) with
  | None => None
  | Some url =>
      let h := hash_article_fields (d_fields draft) in
      match find_article url (d_source_id draft) (articles db) with
      | None =>
          let db' := insert_new_article db new_id url draft evidence_list run_id h in
          option_map (fun r => (db', (r, true, false))) (load_article db' new_id)
      | Some a =>
          if same_hash (latest_version (a_id a) (versions db)) h then
            option_map (fun r => (db, (r, false, false))) (load_article db (a_id a))
          else
            let db' := update_article db a draft evidence_list run_id h in
            option_map (fun r => (db', (r, false, true))) (load_article db' (a_id a))
      end
  end.

(** One item of [_deserialize_evidence_snapshot(raw, article_id)]. *)
Definition restore_item (aid : string) (i : nat) (e : Evidence) : Evidence :=
  mkEvidence (if String.eqb (e_id e) "" then uuid4 aid i else e_id e) aid
    (e_claim_path e) (e_rest e)
    (if String.eqb (e_run_id e) "" then "snapshot" else e_run_id e).

Fixpoint restore_from (aid : string) (i : nat) (l : list Evidence) : list Evidence :=
  match l with
  | [] => []
  | e :: r => restore_item aid i e :: restore_from aid (S i) r
  end.

Definition deserialize_evidence_snapshot (snapshot : list Evidence) (aid : string)
  : list Evidence :=
  restore_from aid 0 snapshot.

(** [UPDATE articles SET title = ?, ..., version = ? WHERE id = ?] *)
Definition restore_article (aid : string) (v : Version) (a : Article) : Article :=
  if String.eqb (a_id a) aid
  then mkArticle (a_id a) (a_canonical_url a) (a_source_id a) (v_fields v) (v_version v)
  else a.

(** One iteration of the [for article_id in affected_article_ids] loop. *)
Definition rollback_article (vs : list Version) (acc : list Article * list Evidence)
    (aid : string) : list Article * list Evidence :=
  match latest_version aid vs with
  | None =>
      (filter (fun a => negb (String.eqb (a_id a) aid)) (fst acc),
       filter (fun e => negb (String.eqb (e_article_id e) aid)) (snd acc))
  | Some v =>
      (map (restore_article aid v) (fst acc),
       replace_evidence aid (deserialize_evidence_snapshot (v_evidence_snapshot v) aid)
         (snd acc))
  end.

(** [SELECT DISTINCT article_id FROM versions WHERE run_id = ?] *)
Definition affected_article_ids (run_id : string) (vs : list Version) : list string :=
  nodup string_dec (map v_article_id (filter (fun v => String.eqb (v_run_id v) run_id) vs)).

Definition keep_run (run_id : string) (r : RunRow) : bool :=
  negb (String.eqb (rr_run_id r) run_id).

(** [rollback_run(run_id)] (the summary counts are left out). *)
Definition rollback_run (run_id : string) (db : DB) : DB :=
  let fl := filter (keep_run run_id) (fetch_log db) in
  let evs := filter (fun e => negb (String.eqb (e_run_id e) run_id)) (evidence db) in
  let affected := affected_article_ids run_id (versions db) in
  let vs := filter (fun v => negb (String.eqb (v_run_id v) run_id)) (versions db) in
  let md := filter (keep_run run_id) (merge_decisions db) in
  let '(arts, evs') := fold_left (rollback_article vs) affected (articles db, evs) in
  let rl := map (fun p => if String.eqb (fst p) run_id then (fst p, "CANCELLED") else p)
                (run_log db) in
  mkDB arts evs' vs fl md rl.

(** The other writes of the store to the tables above. *)
Definition create_run_log (id : string) (db : DB) : DB :=
  mkDB (articles db) (evidence db) (versions db) (fetch_log db) (merge_decisions db)
       (run_log db ++ [(id, "RUNNING")]).

Definition save_fetch_log (r : RunRow) (db : DB) : DB :=
  mkDB (articles db) (evidence db) (versions db) (fetch_log db ++ [r]) (merge_decisions db)
       (run_log db).

Definition save_merge_decision (r : RunRow) (db : DB) : DB :=
  mkDB (articles db) (evidence db) (versions db) (fetch_log db) (merge_decisions db ++ [r])
       (run_log db).

(** A [uuid4()] for a new article collides with no stored article id. *)
Definition fresh_id (aid : string) (db : DB) : bool :=
  negb (existsb (fun a => String.eqb (a_id a) aid) (articles db)) &&
  negb (existsb (fun v => String.eqb (v_article_id v) aid) (versions db)).

(** The states the store reaches from an empty database. *)
Inductive reachable : DB -> Prop :=
| reach_empty : reachable empty_db
| reach_upsert : forall db draft evs run_id nid db' res,
    reachable db -> fresh_id nid db = true ->
    upsert_article draft evs run_id nid db = Some (db', res) -> reachable db'
| reach_rollback : forall db run_id, reachable db -> reachable (rollback_run run_id db)
| reach_run_log : forall db id, reachable db -> reachable (create_run_log id db)
| reach_fetch_log : forall db r, reachable db -> reachable (save_fetch_log r db)
| reach_merge : forall db r, reachable db -> reachable (save_merge_decision r db).

(** The same, without [rollback_run]. *)
Inductive reachable_upserts : DB -> Prop :=
| reachu_empty : reachable_upserts empty_db
| reachu_upsert : forall db draft evs run_id nid db' res,
    reachable_upserts db -> fresh_id nid db = true ->
    upsert_article draft evs run_id nid db = Some (db', res) -> reachable_upserts db'
| reachu_run_log : forall db id, reachable_upserts db -> reachable_upserts (create_run_log id db)
| reachu_fetch_log : forall db r, reachable_upserts db -> reachable_upserts (save_fetch_log r db)
| reachu_merge : forall db r, reachable_upserts db -> reachable_upserts (save_merge_decision r db).

(** The version rows of one article, in insertion order. *)
Definition versions_of (aid : string) (vs : list Version) : list Version :=
  filter (fun v => String.eqb (v_article_id v) aid) vs.

End WithEnv.

Arguments e_id {Rest}. Arguments e_article_id {Rest}. Arguments e_claim_path {Rest}.
Arguments e_rest {Rest}. Arguments e_run_id {Rest}.
Arguments a_id {Fields}. Arguments a_canonical_url {Fields}. Arguments a_source_id {Fields}.
Arguments a_fields {Fields}. Arguments a_version {Fields}.
Arguments v_article_id {Fields Rest}. Arguments v_version {Fields Rest}.
Arguments v_content_hash {Fields Rest}. Arguments v_fields {Fields Rest}.
Arguments v_evidence_snapshot {Fields Rest}. Arguments v_run_id {Fields Rest}.
Arguments d_canonical_url {Fields}. Arguments d_source_id {Fields}. Arguments d_fields {Fields}.
Arguments articles {Fields Rest}. Arguments evidence {Fields Rest}. Arguments versions {Fields Rest}.
Arguments fetch_log {Fields Rest}. Arguments merge_decisions {Fields Rest}.
Arguments run_log {Fields Rest}.
Arguments mkEvidence {Rest}.
Arguments mkArticle {Fields}.
Arguments mkVersion {Fields Rest}.
Arguments mkDraft {Fields}.
Arguments mkDB {Fields Rest}.
Arguments empty_db {Fields Rest}.
Arguments find_article {Fields}.
Arguments latest_version {Fields Rest}.
Arguments versions_of {Fields Rest}.
Arguments load_article {Fields Rest}.
Arguments fresh_id {Fields Rest}.
Arguments create_run_log {Fields Rest}.
Arguments save_fetch_log {Fields Rest}.
Arguments save_merge_decision {Fields Rest}.
Arguments upsert_article {Fields Rest}.
Arguments insert_new_article {Fields Rest}.
Arguments update_article {Fields Rest}.
Arguments rollback_run {Fields Rest}.
Arguments rollback_article {Fields Rest}.
Arguments deserialize_evidence_snapshot {Rest}.
Arguments reachable {Fields Rest}.
Arguments reachable_upserts {Fields Rest}.

End Storage.

(* --------------------------------------------------------------------- *)
(** *** Fetcher: lemmas and claims *)

Module FetchClaims.
Import UrlLib Fetch.

Section Env.
Variable resolve : string -> list ip.
Variable urljoin : string -> string -> option string.
Variable session_get : nat -> string -> GetResult.
Variable robots : option (string -> RobotsDecision).
Variable sha256 : string -> string.

Lemma fetch_try_log_ok : forall url run doc log,
  fetch_try resolve urljoin session_get sha256 url run = inr (doc, log) ->
  fl_error_code log = None.
Proof.
  intros url run doc log H. unfold fetch_try in H.
  destruct (follow_redirects resolve urljoin session_get url MAX_REDIRECTS)
    as [e|[resp final]]; [discriminate|].
  destruct (N.eqb (status_code resp) 304).
  - injection H as _ <-. reflexivity.
  - destruct (read_body_with_limit resp _) as [e|body]; [discriminate|].
    injection H as _ <-. reflexivity.
Qed.

Lemma read_chunks_fits : forall cs total max acc,
  (total + chunks_total cs <= max)%N ->
  exists body, read_chunks cs total max acc = inr body.
Proof.
  induction cs as [|c cs IH]; intros total max acc Hle; simpl in *.
  - eauto.
  - destruct (String.eqb c "").
    + apply IH. lia.
    + destruct (N.ltb max (total + N.of_nat (String.length c))) eqn:Hlt.
      * apply N.ltb_lt in Hlt. lia.
      * apply IH. lia.
Qed.

End Env.

(** C5 (the condition the code implements): [fetch_url] returns
    [SECURITY_BLOCKED] exactly when the URL parses and either its scheme
    is not http(s), or its host is non-empty and some resolved address
    is in the blocked ranges; an http(s) URL with an empty host returns
    [FETCH_ERROR]. *)
Theorem fetch_url_security_blocked_iff :
  forall resolve urljoin session_get robots sha256 url run_id,
  ((exists doc log,
      fetch_url resolve urljoin session_get robots sha256 url run_id = FReturn doc log /\
      fl_error_code log = Some SECURITY_BLOCKED) <->
   (exists sr, urlsplit url = Some sr /\
      (scheme_allowed sr = false \/
       exists h, hostname sr = Some h /\ existsb is_blocked_ip (resolve h) = true))) /\
  (forall sr, urlsplit url = Some sr -> scheme_allowed sr = true -> hostname sr = None ->
      fetch_url resolve urljoin session_get robots sha256 url run_id
      = FReturn None (error_log url run_id FETCH_ERROR)).
Proof.
  intros resolve urljoin session_get robots sha256 url run_id.
  unfold fetch_url, validate_url_scheme.
  destruct (urlsplit url) as [sr|] eqn:Hs.
  2:{ split; [split|].
      - intros [doc [log [H _]]]. discriminate.
      - intros [sr [H _]]. discriminate.
      - intros sr H. discriminate. }
  destruct (scheme_allowed sr) eqn:Hsch.
  2:{ split; [split|].
      - intros _. exists sr. auto.
      - intros _. do 2 eexists. split; reflexivity.
      - intros sr' H. injection H as <-. congruence. }
  destruct (hostname sr) as [h|] eqn:Hh.
  2:{ split; [split|].
      - intros [doc [log [H Hc]]]. injection H as <- <-. discriminate.
      - intros [sr' [H [Hf | [h [Hh' _]]]]]; injection H as <-; congruence.
      - intros sr' H _ _. reflexivity. }
  split; [|intros sr' H; injection H as <-; congruence].
  destruct (existsb is_blocked_ip (resolve h)) eqn:Hb.
  { split.
    - intros _. exists sr. split; [reflexivity|]. right. eauto.
    - intros _. do 2 eexists. split; reflexivity. }
  split.
  - intros [doc [log [H Hc]]]. exfalso.
    destruct (robots_blocks robots url).
    + injection H as <- <-. discriminate.
    + destruct (fetch_try resolve urljoin session_get sha256 url run_id)
        as [[| |[]]|[d l]] eqn:Ht;
        try (injection H as <- <-; discriminate); try discriminate.
      injection H as <- <-. rewrite (fetch_try_log_ok _ _ _ _ _ _ _ _ Ht) in Hc. discriminate.
  - intros [sr' [H [Hf | [h' [Hh' Hb']]]]]; injection H as <-; [congruence|].
    rewrite Hh in Hh'. injection Hh' as <-. congruence.
Qed.

(** C4 (refuted): [fetch_url] raises [ValueError] instead of returning a
    typed error when the URL has an unbalanced [[] in its netloc, whatever
    the environment; it also raises when a redirect points to such a URL. *)
Theorem fetch_url_raises_on_invalid_ipv6_url :
  (forall resolve urljoin session_get robots sha256 run_id,
      fetch_url resolve urljoin session_get robots sha256 "http://[::1/" run_id
      = FRaise ExValue) /\
  fetch_url (fun _ => [IPv4 (v4 93 184 216 34)]) (fun _ loc => Some loc)
    (fun hop _ => match hop with
                  | O => GetOk (mkResp 301 (Some "http://[::1/") None [] None)
                  | _ => GetRaise ExRequest
                  end)
    None (fun s => s) "http://example.com/" "run-1"
  = FRaise ExValue.
Proof.
  split.
  - intros. reflexivity.
  - vm_compute. reflexivity.
Qed.

(** A response whose status is outside 300..399
    (404, 500, ...), whose body streams without a transport error and
    fits a non-zero content-type cap, and whose URL passes the scheme,
    host, IP and robots checks, is returned as a [FetchedDoc] with that
    status and a [FetchLog] whose [error_code] is [None]. *)
Lemma fetch_url_non_redirect_ok :
  forall resolve urljoin session_get robots sha256 url run_id sr h resp,
  urlsplit url = Some sr -> scheme_allowed sr = true -> hostname sr = Some h ->
  existsb is_blocked_ip (resolve h) = false ->
  robots_blocks robots url = false ->
  session_get 0 url = GetOk resp ->
  ~ (300 <= status_code resp < 400)%N ->
  (0 < content_limit_for_response (content_type resp))%N ->
  (chunks_total (chunks resp) <= content_limit_for_response (content_type resp))%N ->
  chunks_error resp = None ->
  exists doc log,
    fetch_url resolve urljoin session_get robots sha256 url run_id = FReturn (Some doc) log /\
    fd_status_code doc = status_code resp /\
    fl_status_code log = Some (status_code resp) /\
    fl_error_code log = None.
Proof.
  intros resolve urljoin session_get robots sha256 url run_id sr h resp
    Hs Hsch Hh Hb Hr Hg Hst Hlim Hfit Herr.
  unfold fetch_url, validate_url_scheme. rewrite Hs, Hsch, Hh, Hb, Hr.
  unfold fetch_try, follow_redirects. simpl follow_redirects_from. rewrite Hg.
  assert (H3 : (N.leb 300 (status_code resp) && N.ltb (status_code resp) 400)%bool = false).
  { destruct (N.leb_spec 300 (status_code resp)); destruct (N.ltb_spec (status_code resp) 400);
      simpl; auto; lia. }
  rewrite H3.
  assert (H4 : N.eqb (status_code resp) 304 = false).
  { apply N.eqb_neq. intro E. apply Hst. rewrite E. lia. }
  rewrite H4.
  unfold read_body_with_limit.
  assert (H0 : N.eqb (content_limit_for_response (content_type resp)) 0 = false).
  { apply N.eqb_neq. lia. }
  rewrite H0.
  destruct (read_chunks_fits (chunks resp) 0 (content_limit_for_response (content_type resp)) ""
              ltac:(lia)) as [body Hbody].
  rewrite Hbody, Herr.
  do 2 eexists. split; [reflexivity|]. simpl. auto.
Qed.

End FetchClaims.

(* --------------------------------------------------------------------- *)
(** *** Orchestrator: lemmas and claims *)

Module PipelineFacts.
Import Pipeline.
Local Open Scope list_scope.

Section Stages.
Variables URL Doc Log ParsedT Draft Evs : Type.
Variable log_error : Log -> bool.
Variable discover : string -> string -> Res (list URL).
Variable fetch : URL -> string -> Res (option Doc * Log).
Variable parse : Doc -> string -> Res ParsedT.
Variable extract : ParsedT -> string -> Res (Draft * Evs).
Variable store : Draft -> Evs -> string -> Res (bool * bool).
Variable export : string -> Res nat.
Variable create_run_log : RunLog -> Res unit.
Variable save_fetch_log : Log -> Res unit.
Variable update_run_log : RunLog -> Res unit.

Let step run_id dry_run :=
  process_url log_error fetch parse extract store save_fetch_log run_id dry_run.

Lemma process_url_extends : forall run_id dry_run acc u,
  exists s, snd (step run_id dry_run acc u) = snd acc ++ s.
Proof.
  intros run_id dry_run [rl tr] u. unfold step, process_url.
  destruct (fetch u run_id) as [[d l]|m].
  2:{ eexists. reflexivity. }
  destruct (save_fetch_log l); [|eexists; reflexivity].
  destruct (log_error l), d as [d|]; try (eexists; reflexivity).
  destruct (parse d run_id) as [p|]; [|exists [EvFetch u; EvParse d]; simpl; rewrite <- app_assoc; reflexivity].
  destruct (extract p run_id) as [[dr evs]|];
    [|exists [EvFetch u; EvParse d; EvExtract p]; simpl; rewrite <- !app_assoc; reflexivity].
  destruct dry_run.
  { exists [EvFetch u; EvParse d; EvExtract p]; simpl; rewrite <- !app_assoc; reflexivity. }
  exists [EvFetch u; EvParse d; EvExtract p; EvStore dr].
  destruct (store dr evs run_id) as [[c up]|]; simpl; rewrite <- !app_assoc; reflexivity.
Qed.

Lemma fold_extends : forall run_id dry_run urls acc,
  exists s, snd (fold_left (step run_id dry_run) urls acc) = snd acc ++ s.
Proof.
  intros run_id dry_run urls. induction urls as [|u us IH]; intros acc; simpl.
  - exists []. rewrite app_nil_r. reflexivity.
  - destruct (IH (step run_id dry_run acc u)) as [s1 H1].
    destruct (process_url_extends run_id dry_run acc u) as [s2 H2].
    exists (s2 ++ s1). rewrite H1, H2, app_assoc. reflexivity.
Qed.

Lemma fold_keeps_event : forall run_id dry_run urls u x acc,
  In u urls ->
  (forall acc', In x (snd (step run_id dry_run acc' u))) ->
  In x (snd (fold_left (step run_id dry_run) urls acc)).
Proof.
  intros run_id dry_run urls u x. induction urls as [|v vs IH]; intros acc Hin Hx.
  - destruct Hin.
  - simpl. destruct Hin as [<- | Hin].
    + destruct (fold_extends run_id dry_run vs (step run_id dry_run acc v)) as [s Hs].
      rewrite Hs. apply in_or_app. left. apply Hx.
    + apply IH; assumption.
Qed.

Lemma run_extends_fold : forall seed source_id run_id dry_run urls rl tr,
  discover seed run_id = Ok urls -> urls <> [] ->
  run log_error discover fetch parse extract store export create_run_log
    save_fetch_log update_run_log seed source_id run_id dry_run = Some (rl, tr) ->
  exists acc s, tr = snd (fold_left (step run_id dry_run) urls acc) ++ s.
Proof.
  intros seed source_id run_id dry_run urls rl tr Hd Hne H.
  unfold run in H. destruct (create_run_log _); [|discriminate].
  rewrite Hd in H. destruct urls as [|u us]; [contradiction|].
  cbv beta iota zeta in H. fold (step run_id dry_run) in H.
  destruct (fold_left (step run_id dry_run) (u :: us) _) as [rl2 tr2] eqn:Hf.
  exists (mkRunLog run_id source_id RUNNING None false 0 0 0 0, []).
  rewrite Hf. simpl.
  destruct dry_run.
  - destruct (update_run_log _); [|discriminate]. injection H as _ <-.
    exists []. rewrite app_nil_r. reflexivity.
  - exists [EvExport (String.append "export_" (String.append run_id ".jsonl"))].
    destruct (export _).
    + destruct (update_run_log _); [|discriminate]. injection H as _ <-. reflexivity.
    + destruct (update_run_log _).
      * injection H as _ <-. reflexivity.
      * unfold fail_run in H. destruct (update_run_log _); [|discriminate].
        injection H as _ <-. reflexivity.
Qed.

End Stages.

End PipelineFacts.

Module PipelineClaims.
Import Pipeline PipelineFacts.
Local Open Scope list_scope.

(** Stages over [unit] that always succeed, with a given discovery. *)
Definition unit_run (urls : list unit) (dry_run : bool) :=
  run (URL:=unit) (Doc:=unit) (Log:=unit) (ParsedT:=unit) (Draft:=unit) (Evs:=unit)
    (fun _ => false) (fun _ _ => Ok urls) (fun _ _ => Ok (Some tt, tt))
    (fun _ _ => Ok tt) (fun _ _ => Ok (tt, tt)) (fun _ _ _ => Ok (true, false))
    (fun _ => Ok 0) (fun _ => Ok tt) (fun _ => Ok tt) (fun _ => Ok tt)
    "https://example.com/feed.xml" "src-1" "run-1" dry_run.

(** C9 (counterexample): a non-dry run whose discovery yields no URL ends
    [COMPLETED] with message "No URLs discovered" and an empty stage trace:
    the export stage is never called. *)
Lemma run_no_urls_completes_without_export :
  exists rl, unit_run [] false = Some (rl, []) /\
    rl_status rl = COMPLETED /\ rl_error_message rl = Some "No URLs discovered".
Proof.
  eexists. split; [reflexivity|]. split; reflexivity.
Qed.

(** C9 (as the code behaves): a non-dry run that ends [COMPLETED] called
    [export("export_<run_id>.jsonl")], which returned normally, unless its
    discovery yielded no URL, in which case the message is
    "No URLs discovered" and no stage after discovery ran. *)
Theorem run_completed_exported_or_no_urls :
  forall URL Doc Log ParsedT Draft Evs (log_error : Log -> bool)
    (discover : string -> string -> Res (list URL))
    (fetch : URL -> string -> Res (option Doc * Log))
    (parse : Doc -> string -> Res ParsedT) (extract : ParsedT -> string -> Res (Draft * Evs))
    (store : Draft -> Evs -> string -> Res (bool * bool)) (export : string -> Res nat)
    create_run_log save_fetch_log update_run_log seed source_id run_id rl tr,
  run log_error discover fetch parse extract store export create_run_log save_fetch_log
    update_run_log seed source_id run_id false = Some (rl, tr) ->
  rl_status rl = COMPLETED ->
  (let path := String.append "export_" (String.append run_id ".jsonl") in
   (exists n, export path = Ok n) /\ In (EvExport path) tr) \/
  (discover seed run_id = Ok [] /\ rl_error_message rl = Some "No URLs discovered" /\ tr = []).
Proof.
  intros URL Doc Log ParsedT Draft Evs log_error discover fetch parse extract store export
    create_run_log save_fetch_log update_run_log seed source_id run_id rl tr H Hc.
  unfold run in H. destruct (create_run_log _); [|discriminate].
  destruct (discover seed run_id) as [[|u us]|m] eqn:Hd.
  - right. destruct (update_run_log _).
    + injection H as <- <-. auto.
    + unfold fail_run in H. destruct (update_run_log _); [|discriminate].
      injection H as <- <-. discriminate.
  - left. cbv beta iota zeta in H.
    destruct (fold_left _ (u :: us) _) as [rl2 tr2].
    destruct (export _) as [n|m] eqn:He.
    + destruct (update_run_log _); [|discriminate]. injection H as _ <-.
      split; [eauto|]. apply in_or_app. right. left. reflexivity.
    + exfalso. destruct (update_run_log _).
      * injection H as <- _. discriminate.
      * unfold fail_run in H. destruct (update_run_log _); [|discriminate].
        injection H as <- _. discriminate.
  - unfold fail_run in H. destruct (update_run_log _); [|discriminate].
    injection H as <- _. discriminate.
Qed.

Lemma run_completed_exported_or_no_urls_witness :
  exists rl tr, unit_run [tt] false = Some (rl, tr) /\ rl_status rl = COMPLETED /\
  ((let path := String.append "export_" (String.append "run-1" ".jsonl") in
    (exists n, (fun _ : string => @Ok nat 0) path = Ok n) /\ In (EvExport path) tr) \/
   ((fun _ _ : string => @Ok (list unit) [tt]) "https://example.com/feed.xml" "run-1" = Ok [] /\
    rl_error_message rl = Some "No URLs discovered" /\ tr = [])).
Proof.
  do 2 eexists. split; [vm_compute; reflexivity|]. split; [reflexivity|].
  apply (run_completed_exported_or_no_urls unit unit unit unit unit unit
           (fun _ => false) (fun _ _ => Ok [tt]) (fun _ _ => Ok (Some tt, tt))
           (fun _ _ => Ok tt) (fun _ _ => Ok (tt, tt)) (fun _ _ _ => Ok (true, false))
           (fun _ => Ok 0) (fun _ => Ok tt) (fun _ => Ok tt) (fun _ => Ok tt)
           "https://example.com/feed.xml" "src-1" "run-1");
    vm_compute; reflexivity.
Defined.

End PipelineClaims.

Module FetchPipelineClaims.
Import UrlLib Fetch Pipeline PipelineFacts Wiring FetchClaims.
Local Open Scope list_scope.

(** C10: a response with a status outside 300..399 (404, 500, ...) whose
    body streams without a transport error and fits its non-zero
    content-type cap, for a URL that passes the scheme, host, IP and robots
    checks, is a success: [fetch_url] returns a [FetchedDoc] carrying that
    status and a [FetchLog] with no [error_code]. With [HttpFetchStage] as
    the fetch stage and the fetch log saved, the orchestrator passes the
    document to the parse stage, then to extract and store, counting no
    error when those succeed; in [Pipeline.run] the document reaches the
    parse stage whenever its URL is discovered. *)
Theorem fetch_http_error_status_is_success :
  forall resolve urljoin session_get robots sha256 url run_id sr h resp,
  urlsplit url = Some sr -> scheme_allowed sr = true -> hostname sr = Some h ->
  existsb is_blocked_ip (resolve h) = false ->
  robots_blocks robots url = false ->
  session_get 0 url = GetOk resp ->
  ~ (300 <= status_code resp < 400)%N ->
  (0 < content_limit_for_response (content_type resp))%N ->
  (chunks_total (chunks resp) <= content_limit_for_response (content_type resp))%N ->
  chunks_error resp = None ->
  exists doc log,
    fetch_url resolve urljoin session_get robots sha256 url run_id = FReturn (Some doc) log /\
    fd_status_code doc = status_code resp /\ fl_error_code log = None /\
    forall ParsedT Draft Evs (parse : FetchedDoc -> string -> Res ParsedT)
      (extract : ParsedT -> string -> Res (Draft * Evs))
      (store : Draft -> Evs -> string -> Res (bool * bool)) save_fetch_log,
    save_fetch_log log = Ok tt ->
    (forall dry_run rl tr,
       let r := process_url log_error
                  (http_fetch_stage resolve urljoin session_get robots sha256)
                  parse extract store save_fetch_log run_id dry_run (rl, tr) url in
       In (EvParse doc) (snd r) /\
       fetched_count (fst r) = S (fetched_count rl) /\
       forall p d evs created updated,
         parse doc run_id = Ok p -> extract p run_id = Ok (d, evs) ->
         store d evs run_id = Ok (created, updated) -> dry_run = false ->
         In (EvExtract p) (snd r) /\ In (EvStore d) (snd r) /\
         error_count (fst r) = error_count rl) /\
    (forall discover (export : string -> Res nat) create_run_log update_run_log
            seed source_id dry_run urls rl tr,
       discover seed run_id = Ok urls -> In url urls ->
       run log_error discover (http_fetch_stage resolve urljoin session_get robots sha256)
         parse extract store export create_run_log save_fetch_log update_run_log
         seed source_id run_id dry_run = Some (rl, tr) ->
       In (EvParse doc) tr).
Proof.
  intros resolve urljoin session_get robots sha256 url run_id sr h resp
    Hs Hsch Hh Hb Hr Hg Hst Hlim Hfit Herr.
  destruct (fetch_url_non_redirect_ok resolve urljoin session_get robots sha256 url run_id
              sr h resp Hs Hsch Hh Hb Hr Hg Hst Hlim Hfit Herr)
    as (doc & log & Hf & Hcode & _ & He).
  exists doc, log. split; [exact Hf|]. split; [exact Hcode|]. split; [exact He|].
  intros ParsedT Draft Evs parse extract store save_fetch_log Hsave.
  assert (Hfe : http_fetch_stage resolve urljoin session_get robots sha256 url run_id
                = Ok (Some doc, log)).
  { unfold http_fetch_stage. rewrite Hf. reflexivity. }
  assert (Hle : log_error log = false).
  { unfold log_error. rewrite He. reflexivity. }
  assert (Hstep : forall dry_run rl tr,
    let r := process_url log_error
               (http_fetch_stage resolve urljoin session_get robots sha256)
               parse extract store save_fetch_log run_id dry_run (rl, tr) url in
    In (EvParse doc) (snd r) /\
    fetched_count (fst r) = S (fetched_count rl) /\
    forall p d evs created updated,
      parse doc run_id = Ok p -> extract p run_id = Ok (d, evs) ->
      store d evs run_id = Ok (created, updated) -> dry_run = false ->
      In (EvExtract p) (snd r) /\ In (EvStore d) (snd r) /\
      error_count (fst r) = error_count rl).
  { intros dry_run rl tr r. subst r. unfold process_url.
    rewrite Hfe, Hsave, Hle.
    split; [|split].
    - destruct (parse doc run_id) as [p|]; [|simpl; rewrite !in_app_iff; simpl; tauto].
      destruct (extract p run_id) as [[d evs]|]; [|simpl; rewrite !in_app_iff; simpl; tauto].
      destruct dry_run; [simpl; rewrite !in_app_iff; simpl; tauto|].
      destruct (store d evs run_id) as [[c u]|]; simpl; rewrite !in_app_iff; simpl; tauto.
    - destruct (parse doc run_id) as [p|]; [|reflexivity].
      destruct (extract p run_id) as [[d evs]|]; [|reflexivity].
      destruct dry_run; [reflexivity|].
      destruct (store d evs run_id) as [[c u]|]; reflexivity.
    - intros p d evs created updated Hp Hx Hst' ->.
      rewrite Hp, Hx, Hst'. simpl. rewrite !in_app_iff. simpl.
      split; [tauto|]. split; [tauto|].
      destruct created, updated; reflexivity. }
  split; [exact Hstep|].
  intros discover export create_run_log update_run_log seed source_id dry_run urls rl tr
    Hd Hin Hrun.
  destruct (run_extends_fold string FetchedDoc FetchLog ParsedT Draft Evs log_error discover
              (http_fetch_stage resolve urljoin session_get robots sha256)
              parse extract store export create_run_log save_fetch_log update_run_log
              seed source_id run_id dry_run urls rl tr Hd)
    as (acc & s & ->).
  { intros ->. destruct Hin. }
  { exact Hrun. }
  apply in_or_app. left.
  apply (fold_keeps_event _ _ _ _ _ _ _ _ _ _ _ _ run_id dry_run urls url); [exact Hin|].
  intros [rl' tr']. apply (Hstep dry_run rl' tr').
Qed.

End FetchPipelineClaims.

(* --------------------------------------------------------------------- *)
(** *** Fetcher: concrete runs *)

Module FetchSamples.
Import UrlLib Fetch Pipeline Wiring FetchClaims FetchPipelineClaims.

(** A public host, no redirect, and a 404 page of 9 bytes. *)
Definition public_resolve (_ : string) : list ip := [IPv4 (v4 93 184 216 34)].
Definition id_urljoin (_ loc : string) : option string := Some loc.
Definition not_found_resp : Response :=
  mkResp 404 None (Some "text/html; charset=utf-8") ["not found"] None.
Definition not_found_session (_ : nat) (_ : string) : GetResult := GetOk not_found_resp.

(** C5 (counterexample): an http URL with an empty host is refused with
    [FETCH_ERROR], not [SECURITY_BLOCKED]. *)
Lemma fetch_url_empty_host_is_fetch_error :
  fetch_url public_resolve id_urljoin not_found_session None (fun s => s)
    "http:///path" "run-1"
  = FReturn None (error_log "http:///path" "run-1" FETCH_ERROR).
Proof. vm_compute. reflexivity. Qed.

Definition loopback_resolve (_ : string) : list ip := [IPv4 (v4 127 0 0 1)].

Lemma fetch_url_security_blocked_iff_witness :
  exists doc log,
    fetch_url loopback_resolve id_urljoin not_found_session None (fun s => s)
      "http://127.0.0.1/admin" "run-1" = FReturn doc log /\
    fl_error_code log = Some SECURITY_BLOCKED.
Proof.
  destruct (fetch_url_security_blocked_iff loopback_resolve id_urljoin
              not_found_session None (fun s => s) "http://127.0.0.1/admin" "run-1")
    as [Hiff _].
  apply Hiff. exists (mkSplit "http" "127.0.0.1" "/admin" "" "").
  split; [vm_compute; reflexivity|]. right. exists "127.0.0.1".
  split; vm_compute; reflexivity.
Defined.

Lemma fetch_http_error_status_is_success_witness :
  exists doc log,
    fetch_url public_resolve id_urljoin not_found_session None (fun s => s)
      "https://example.com/missing" "run-1" = FReturn (Some doc) log /\
    fd_status_code doc = 404%N /\ fl_error_code log = None /\
    forall ParsedT Draft Evs (parse : FetchedDoc -> string -> Res ParsedT)
      (extract : ParsedT -> string -> Res (Draft * Evs))
      (store : Draft -> Evs -> string -> Res (bool * bool)) save_fetch_log,
    save_fetch_log log = Ok tt ->
    (forall dry_run rl tr,
       let r := process_url log_error
                  (http_fetch_stage public_resolve id_urljoin not_found_session None (fun s => s))
                  parse extract store save_fetch_log "run-1" dry_run (rl, tr)
                  "https://example.com/missing" in
       In (EvParse doc) (snd r) /\
       fetched_count (fst r) = S (fetched_count rl) /\
       forall p d evs created updated,
         parse doc "run-1" = Ok p -> extract p "run-1" = Ok (d, evs) ->
         store d evs "run-1" = Ok (created, updated) -> dry_run = false ->
         In (EvExtract p) (snd r) /\ In (EvStore d) (snd r) /\
         error_count (fst r) = error_count rl) /\
    (forall discover (export : string -> Res nat) create_run_log update_run_log
            seed source_id dry_run urls rl tr,
       discover seed "run-1" = Ok urls -> In "https://example.com/missing" urls ->
       run log_error discover
         (http_fetch_stage public_resolve id_urljoin not_found_session None (fun s => s))
         parse extract store export create_run_log save_fetch_log update_run_log
         seed source_id "run-1" dry_run = Some (rl, tr) ->
       In (EvParse doc) tr).
Proof.
  apply (fetch_http_error_status_is_success public_resolve id_urljoin not_found_session
           None (fun s => s) "https://example.com/missing" "run-1"
           (mkSplit "https" "example.com" "/missing" "" "") "example.com" not_found_resp).
  - vm_compute. reflexivity.
  - vm_compute. reflexivity.
  - vm_compute. reflexivity.
  - vm_compute. reflexivity.
  - reflexivity.
  - reflexivity.
  - simpl. lia.
  - apply N.ltb_lt. vm_compute. reflexivity.
  - apply N.leb_le. vm_compute. reflexivity.
  - reflexivity.
Defined.

End FetchSamples.

(* --------------------------------------------------------------------- *)
(** *** Storage: lemmas *)

Module StorageFacts.
Import Storage.
Local Open Scope list_scope.

Section Lemmas.
Variables Fields Rest : Type.
Variable canonicalize_url : string -> option string.
Variable hash_article_fields : Fields -> string.
Variable uuid4 : string -> nat -> string.

Local Notation Version := (Version Fields Rest).
Local Notation Article := (Article Fields).
Local Notation Evidence := (Evidence Rest).
Local Notation DB := (DB Fields Rest).
Local Notation upsert := (upsert_article canonicalize_url hash_article_fields).
Local Notation rollback := (rollback_run uuid4).

Lemma latest_version_spec : forall aid (vs : list Version) v,
  latest_version aid vs = Some v ->
  In v vs /\ v_article_id v = aid /\
  forall w, In w vs -> v_article_id w = aid -> v_version w <= v_version v.
Proof.
  intros aid vs. induction vs as [|w r IH]; intros v H; simpl in H; [discriminate|].
  destruct (String.eqb (v_article_id w) aid) eqn:Ew.
  - apply String.eqb_eq in Ew.
    destruct (latest_version aid r) as [b|] eqn:Er.
    + destruct (IH b eq_refl) as (Hb & Hba & Hmax).
      destruct (Nat.leb (v_version w) (v_version b)) eqn:Hle; injection H as <-.
      * apply Nat.leb_le in Hle. split; [right; exact Hb|]. split; [exact Hba|].
        intros x [<- | Hx] Hxa; [exact Hle | exact (Hmax x Hx Hxa)].
      * apply Nat.leb_gt in Hle. split; [left; reflexivity|]. split; [exact Ew|].
        intros x [<- | Hx] Hxa; [lia | specialize (Hmax x Hx Hxa); lia].
    + injection H as <-. split; [left; reflexivity|]. split; [exact Ew|].
      intros x [<- | Hx] Hxa; [lia|].
      exfalso. clear IH. induction r as [|y r' IHr]; [destruct Hx|].
      simpl in Er. destruct (String.eqb (v_article_id y) aid) eqn:Ey.
      * destruct (latest_version aid r'); [destruct (Nat.leb _ _)|]; discriminate.
      * destruct Hx as [<- | Hx]; [apply String.eqb_neq in Ey; contradiction|].
        exact (IHr Er Hx).
  - destruct (IH v H) as (Hv & Hva & Hmax). split; [right; exact Hv|]. split; [exact Hva|].
    intros x [<- | Hx] Hxa; [apply String.eqb_neq in Ew; contradiction|].
    exact (Hmax x Hx Hxa).
Qed.

Lemma latest_version_none : forall aid (vs : list Version),
  latest_version aid vs = None <-> forall w, In w vs -> v_article_id w <> aid.
Proof.
  intros aid vs. induction vs as [|w r IH]; simpl.
  - split; [intros _ w []|reflexivity].
  - destruct (String.eqb (v_article_id w) aid) eqn:Ew.
    + apply String.eqb_eq in Ew. split.
      * destruct (latest_version aid r); [destruct (Nat.leb _ _)|]; discriminate.
      * intros H. exfalso. exact (H w (or_introl eq_refl) Ew).
    + apply String.eqb_neq in Ew. rewrite IH. split.
      * intros H x [<- | Hx]; [exact Ew | exact (H x Hx)].
      * intros H x Hx. exact (H x (or_intror Hx)).
Qed.

Lemma latest_version_some : forall aid (vs : list Version) w,
  In w vs -> v_article_id w = aid -> exists v, latest_version aid vs = Some v.
Proof.
  intros aid vs w Hw Hwa. destruct (latest_version aid vs) eqn:E; [eauto|].
  exfalso. apply latest_version_none with (w := w) in E; auto.
Qed.

Lemma latest_version_app_other : forall aid (vs : list Version) v,
  v_article_id v <> aid -> latest_version aid (vs ++ [v]) = latest_version aid vs.
Proof.
  intros aid vs v Hv. induction vs as [|w r IH]; simpl.
  - apply String.eqb_neq in Hv. rewrite Hv. reflexivity.
  - rewrite IH. reflexivity.
Qed.

Lemma latest_version_app_top : forall aid (vs : list Version) v,
  v_article_id v = aid ->
  (forall w, In w vs -> v_article_id w = aid -> v_version w < v_version v) ->
  latest_version aid (vs ++ [v]) = Some v.
Proof.
  intros aid vs v Hv. induction vs as [|w r IH]; intros Hlt; simpl.
  - rewrite Hv, String.eqb_refl. reflexivity.
  - rewrite IH by (intros x Hx; apply Hlt; right; exact Hx).
    destruct (String.eqb (v_article_id w) aid) eqn:Ew; [|reflexivity].
    apply String.eqb_eq in Ew. specialize (Hlt w (or_introl eq_refl) Ew).
    replace (Nat.leb (v_version w) (v_version v)) with true; [reflexivity|].
    symmetry. apply Nat.leb_le. lia.
Qed.

Definition inb (x : string) (l : list string) : bool := existsb (String.eqb x) l.

Lemma inb_In : forall x l, inb x l = true <-> In x l.
Proof.
  intros x l. unfold inb. rewrite existsb_exists. split.
  - intros [y [Hy E]]. apply String.eqb_eq in E. subst. exact Hy.
  - intros H. exists x. split; [exact H | apply String.eqb_refl].
Qed.

Lemma filter_all : forall A (p : A -> bool) l,
  (forall x, In x l -> p x = true) -> filter p l = l.
Proof.
  intros A p l H. induction l as [|x r IH]; simpl; [reflexivity|].
  rewrite (H x (or_introl eq_refl)), IH; [reflexivity|].
  intros y Hy. apply H. right. exact Hy.
Qed.

Lemma filter_all_false_nil : forall A (p : A -> bool) l,
  (forall x, In x l -> p x = false) -> filter p l = [].
Proof.
  intros A p l H. induction l as [|x r IH]; simpl; [reflexivity|].
  rewrite (H x (or_introl eq_refl)). apply IH. intros y Hy. apply H. right. exact Hy.
Qed.

Lemma filter_filter_and : forall A (p q : A -> bool) l,
  filter p (filter q l) = filter (fun x => q x && p x) l.
Proof.
  intros A p q l. induction l as [|x r IH]; simpl; [reflexivity|].
  destruct (q x); simpl; [destruct (p x)|]; simpl; rewrite ?IH; reflexivity.
Qed.

Lemma flat_map_flat_map : forall A B C (f : A -> list B) (g : B -> list C) l,
  flat_map g (flat_map f l) = flat_map (fun x => flat_map g (f x)) l.
Proof.
  intros A B C f g l. induction l as [|x r IH]; simpl; [reflexivity|].
  rewrite flat_map_app, IH. reflexivity.
Qed.

Lemma filter_as_flat_map : forall A (p : A -> bool) l,
  filter p l = flat_map (fun x => if p x then [x] else []) l.
Proof.
  intros A p l. induction l as [|x r IH]; simpl; [reflexivity|].
  rewrite IH. destruct (p x); reflexivity.
Qed.

Lemma map_as_flat_map : forall A B (f : A -> B) l,
  map f l = flat_map (fun x => [f x]) l.
Proof.
  intros A B f l. induction l as [|x r IH]; simpl; [reflexivity|]. rewrite IH. reflexivity.
Qed.

Lemma restore_from_article : forall aid i (l : list Evidence) e,
  In e (restore_from Rest uuid4 aid i l) -> e_article_id e = aid.
Proof.
  intros aid i l. revert i. induction l as [|x r IH]; intros i e H; simpl in H; [destruct H|].
  destruct H as [<- | H]; [reflexivity | exact (IH _ _ H)].
Qed.

(** Where each article row ends after the loop of [rollback_run]. *)
Definition final_article (vs : list Version) (affected : list string) (a : Article)
  : list Article :=
  if inb (a_id a) affected then
    match latest_version (a_id a) vs with
    | None => []
    | Some v => [restore_article Fields Rest (a_id a) v a]
    end
  else [a].

(** The evidence the loop restores for one article. *)
Definition restored_evidence (vs : list Version) (aid : string) : list Evidence :=
  match latest_version aid vs with
  | None => []
  | Some v => deserialize_evidence_snapshot uuid4 (v_evidence_snapshot v) aid
  end.

Lemma rollback_fold_articles : forall vs affected arts (evs : list Evidence),
  NoDup affected ->
  fst (fold_left (rollback_article uuid4 vs) affected (arts, evs))
  = flat_map (final_article vs affected) arts.
Proof.
  intros vs affected. induction affected as [|aid rest IH]; intros arts evs Hnd; simpl.
  - unfold final_article. simpl. induction arts as [|a r IHa]; simpl; [reflexivity|].
    rewrite <- IHa. reflexivity.
  - inversion Hnd as [|? ? Hnin Hnd']; subst.
    destruct (rollback_article uuid4 vs (arts, evs) aid) as [arts1 evs1] eqn:E.
    rewrite (IH arts1 evs1 Hnd').
    assert (Harts1 : arts1 = flat_map (fun a =>
              if String.eqb (a_id a) aid then
                match latest_version aid vs with
                | None => [] | Some v => [restore_article Fields Rest aid v a] end
              else [a]) arts).
    { unfold rollback_article in E. simpl in E.
      destruct (latest_version aid vs) as [v|] eqn:Hl; injection E as <- _.
      - rewrite map_as_flat_map. apply flat_map_ext. intros a.
        unfold restore_article. destruct (String.eqb (a_id a) aid); reflexivity.
      - rewrite filter_as_flat_map. apply flat_map_ext. intros a.
        destruct (String.eqb (a_id a) aid); reflexivity. }
    rewrite Harts1, flat_map_flat_map. apply flat_map_ext. intros a.
    unfold final_article. simpl.
    destruct (String.eqb (a_id a) aid) eqn:Ea.
    + apply String.eqb_eq in Ea. subst aid. simpl.
      assert (Hr : inb (a_id a) rest = false).
      { destruct (inb (a_id a) rest) eqn:Hi; [|reflexivity].
        apply inb_In in Hi. contradiction. }
      destruct (latest_version (a_id a) vs) as [v|]; simpl; [|reflexivity].
      unfold restore_article. rewrite String.eqb_refl. simpl. rewrite Hr. reflexivity.
    + simpl. rewrite app_nil_r. reflexivity.
Qed.

Lemma rollback_fold_evidence : forall vs affected (arts : list Article) evs,
  NoDup affected ->
  snd (fold_left (rollback_article uuid4 vs) affected (arts, evs))
  = filter (fun e => negb (inb (e_article_id e) affected)) evs
    ++ flat_map (restored_evidence vs) affected.
Proof.
  intros vs affected. induction affected as [|aid rest IH]; intros arts evs Hnd; simpl.
  - rewrite filter_all; [symmetry; apply app_nil_r|]. reflexivity.
  - inversion Hnd as [|? ? Hnin Hnd']; subst.
    destruct (rollback_article uuid4 vs (arts, evs) aid) as [arts1 evs1] eqn:E.
    rewrite (IH arts1 evs1 Hnd').
    assert (Hevs1 : evs1 = filter (fun e => negb (String.eqb (e_article_id e) aid)) evs
                           ++ restored_evidence vs aid).
    { unfold rollback_article in E. simpl in E. unfold restored_evidence.
      destruct (latest_version aid vs) as [v|]; injection E as _ <-; [reflexivity|].
      symmetry. apply app_nil_r. }
    subst evs1. rewrite filter_app, app_assoc. f_equal. f_equal.
    + rewrite filter_filter_and. apply filter_ext. intros e.
      rewrite String.eqb_sym. destruct (String.eqb aid (e_article_id e)); reflexivity.
    + apply filter_all. intros e He. unfold restored_evidence in He.
      destruct (latest_version aid vs); [|destruct He].
      apply restore_from_article in He. rewrite He.
      destruct (inb aid rest) eqn:Hi; [|reflexivity].
      apply inb_In in Hi. contradiction.
Qed.

Lemma affected_In : forall R (vs : list Version) aid,
  In aid (affected_article_ids Fields Rest R vs) <->
  exists w, In w vs /\ v_article_id w = aid /\ v_run_id w = R.
Proof.
  intros R vs aid. unfold affected_article_ids. rewrite nodup_In, in_map_iff. split.
  - intros [w [<- Hw]]. apply filter_In in Hw. destruct Hw as [Hw E].
    apply String.eqb_eq in E. eauto.
  - intros [w [Hw [<- E]]]. exists w. split; [reflexivity|].
    apply filter_In. split; [exact Hw|]. apply String.eqb_eq. exact E.
Qed.

Lemma rollback_run_tables : forall R (db : DB),
  let vs' := filter (fun v => negb (String.eqb (v_run_id v) R)) (versions db) in
  let affected := affected_article_ids Fields Rest R (versions db) in
  articles (rollback R db) = flat_map (final_article vs' affected) (articles db) /\
  evidence (rollback R db)
    = filter (fun e => negb (inb (e_article_id e) affected))
        (filter (fun e => negb (String.eqb (e_run_id e) R)) (evidence db))
      ++ flat_map (restored_evidence vs') affected /\
  versions (rollback R db) = vs' /\
  fetch_log (rollback R db) = filter (keep_run R) (fetch_log db) /\
  merge_decisions (rollback R db) = filter (keep_run R) (merge_decisions db).
Proof.
  intros R db vs' affected. unfold rollback_run.
  fold vs' affected.
  pose proof (rollback_fold_articles vs' affected (articles db)
                (filter (fun e => negb (String.eqb (e_run_id e) R)) (evidence db))
                (NoDup_nodup _ _)) as Ha.
  pose proof (rollback_fold_evidence vs' affected (articles db)
                (filter (fun e => negb (String.eqb (e_run_id e) R)) (evidence db))
                (NoDup_nodup _ _)) as He.
  destruct (fold_left _ affected _) as [arts evs]. simpl in *.
  repeat split; assumption.
Qed.

Lemma find_article_spec : forall url src (arts : list Article) a,
  find_article url src arts = Some a ->
  In a arts /\ a_canonical_url a = url /\ a_source_id a = src.
Proof.
  intros url src arts a H. apply find_some in H. destruct H as [Hin E].
  apply andb_prop in E. destruct E as [E1 E2].
  apply String.eqb_eq in E1. apply String.eqb_eq in E2. auto.
Qed.

Lemma fresh_id_spec : forall nid (db : DB),
  fresh_id nid db = true ->
  (forall a, In a (articles db) -> a_id a <> nid) /\
  (forall v, In v (versions db) -> v_article_id v <> nid).
Proof.
  intros nid db H. unfold fresh_id in H. apply andb_prop in H. destruct H as [H1 H2].
  apply negb_true_iff in H1. apply negb_true_iff in H2. split.
  - intros a Ha E. assert (existsb (fun a => String.eqb (a_id a) nid) (articles db) = true)
      by (apply existsb_exists; exists a; split; [exact Ha | apply String.eqb_eq; exact E]).
    congruence.
  - intros v Hv E. assert (existsb (fun v => String.eqb (v_article_id v) nid) (versions db) = true)
      by (apply existsb_exists; exists v; split; [exact Hv | apply String.eqb_eq; exact E]).
    congruence.
Qed.

Lemma upsert_cases : forall (db : DB) d evs run_id nid db' res,
  upsert d evs run_id nid db = Some (db', res) ->
  let h := hash_article_fields (d_fields d) in
  exists url, canonicalize_url (d_canonical_url d) = Some url /\
  ((find_article url (d_source_id d) (articles db) = None /\
    db' = insert_new_article db nid url d evs run_id h) \/
   (exists a, find_article url (d_source_id d) (articles db) = Some a /\
    same_hash Fields Rest (latest_version (a_id a) (versions db)) h = true /\ db' = db) \/
   (exists a, find_article url (d_source_id d) (articles db) = Some a /\
    same_hash Fields Rest (latest_version (a_id a) (versions db)) h = false /\
    db' = update_article db a d evs run_id h)).
Proof.
  intros db d evs run_id nid db' res H h. unfold upsert_article in H.
  destruct (canonicalize_url (d_canonical_url d)) as [url|]; [|discriminate].
  exists url. split; [reflexivity|]. fold h in H.
  destruct (find_article url (d_source_id d) (articles db)) as [a|].
  - destruct (same_hash Fields Rest (latest_version (a_id a) (versions db)) h) eqn:Hs.
    + destruct (load_article db (a_id a)); [|discriminate]. injection H as <- _.
      right. left. eauto.
    + destruct (load_article _ (a_id a)); [|discriminate]. injection H as <- _.
      right. right. eauto.
  - destruct (load_article _ nid); [|discriminate]. injection H as <- _. left. auto.
Qed.

(** Version rows: numbered from 1, increasing in insertion order per
    article, and the article row holds the largest number. *)
Definition versions_ok (db : DB) : Prop :=
  (forall v, In v (versions db) -> 1 <= v_version v) /\
  (forall aid, ForallOrdPairs lt (map v_version (versions_of aid (versions db)))) /\
  (forall a, In a (articles db) ->
     (exists v, In v (versions db) /\ v_article_id v = a_id a /\ v_version v = a_version a) /\
     (forall v, In v (versions db) -> v_article_id v = a_id a -> v_version v <= a_version a)).

(** A version's evidence snapshot carries the run id of the version row. *)
Definition snapshots_ok (db : DB) : Prop :=
  forall v, In v (versions db) -> forall e, In e (v_evidence_snapshot v) -> e_run_id e = v_run_id v.

Lemma FOP_app_single : forall (l : list nat) x,
  ForallOrdPairs lt l -> Forall (fun y => y < x) l -> ForallOrdPairs lt (l ++ [x]).
Proof.
  induction l as [|y r IH]; intros x H Hf; simpl.
  - repeat constructor.
  - inversion H as [|? ? Hy Hr]; subst. inversion Hf as [|? ? Hyx Hrx]; subst.
    constructor.
    + apply Forall_app. split; [exact Hy|]. repeat constructor. exact Hyx.
    + apply IH; assumption.
Qed.

Lemma FOP_map_filter : forall B (f : B -> nat) (p : B -> bool) l,
  ForallOrdPairs lt (map f l) -> ForallOrdPairs lt (map f (filter p l)).
Proof.
  intros B f p l. induction l as [|x r IH]; intros H; simpl; [constructor|].
  inversion H as [|? ? Hx Hr]; subst.
  destruct (p x); simpl; [|apply IH; exact Hr].
  constructor; [|apply IH; exact Hr].
  rewrite Forall_forall in *. intros y Hy. apply in_map_iff in Hy.
  destruct Hy as [z [<- Hz]]. apply filter_In in Hz. apply Hx. apply in_map. apply Hz.
Qed.

Lemma versions_of_app : forall aid (vs : list Version) r,
  versions_of aid (vs ++ [r])
  = versions_of aid vs ++ (if String.eqb (v_article_id r) aid then [r] else []).
Proof.
  intros aid vs r. unfold versions_of. rewrite filter_app. reflexivity.
Qed.

Lemma versions_of_In : forall aid (vs : list Version) v,
  In v (versions_of aid vs) <-> In v vs /\ v_article_id v = aid.
Proof.
  intros aid vs v. unfold versions_of. rewrite filter_In, String.eqb_eq. reflexivity.
Qed.

Lemma versions_ok_insert : forall (db : DB) nid url d evs run_id h,
  versions_ok db -> fresh_id nid db = true ->
  versions_ok (insert_new_article db nid url d evs run_id h).
Proof.
  intros db nid url d evs run_id h [Hpos [Hinc Hmax]] Hf.
  destruct (fresh_id_spec nid db Hf) as [Hfa Hfv].
  unfold versions_ok, insert_new_article; simpl. split; [|split].
  - intros v Hv. apply in_app_or in Hv. destruct Hv as [Hv | [<- | []]]; [auto | simpl; lia].
  - intros aid. rewrite versions_of_app. simpl.
    destruct (String.eqb nid aid) eqn:E; [|rewrite app_nil_r; apply Hinc].
    apply String.eqb_eq in E. subst aid.
    replace (versions_of nid (versions db)) with (@nil Version).
    + simpl. repeat constructor.
    + symmetry. apply filter_all_false_nil.
      intros v Hv. apply Bool.not_true_iff_false. rewrite String.eqb_eq. apply Hfv. exact Hv.
  - intros a Ha. apply in_app_or in Ha. destruct Ha as [Ha | [<- | []]].
    + destruct (Hmax a Ha) as [[w [Hw [Hwa Hwv]]] Hle]. split.
      * exists w. split; [apply in_or_app; left; exact Hw|]. auto.
      * intros v Hv Hva. apply in_app_or in Hv. destruct Hv as [Hv | [<- | []]].
        -- exact (Hle v Hv Hva).
        -- simpl in Hva. exfalso. apply (Hfa a Ha). symmetry. exact Hva.
    + simpl. split.
      * eexists. split; [apply in_or_app; right; left; reflexivity|]. simpl. auto.
      * intros v Hv Hva. apply in_app_or in Hv. destruct Hv as [Hv | [<- | []]].
        -- exfalso. exact (Hfv v Hv Hva).
        -- simpl. lia.
Qed.

Lemma versions_ok_update : forall (db : DB) a d evs run_id h,
  versions_ok db -> In a (articles db) ->
  versions_ok (update_article db a d evs run_id h).
Proof.
  intros db a d evs run_id h [Hpos [Hinc Hmax]] Ha.
  destruct (Hmax a Ha) as [_ Hle0].
  unfold versions_ok, update_article; simpl. split; [|split].
  - intros v Hv. apply in_app_or in Hv. destruct Hv as [Hv | [<- | []]]; [auto | simpl; lia].
  - intros aid. rewrite versions_of_app. simpl.
    destruct (String.eqb (a_id a) aid) eqn:E; [|rewrite app_nil_r; apply Hinc].
    apply String.eqb_eq in E. subst aid. rewrite map_app. simpl.
    apply FOP_app_single; [apply Hinc|].
    apply Forall_forall. intros n Hn. apply in_map_iff in Hn.
    destruct Hn as [v [<- Hv]]. apply versions_of_In in Hv. destruct Hv as [Hv Hva].
    specialize (Hle0 v Hv Hva). lia.
  - intros a' Ha'. apply in_map_iff in Ha'. destruct Ha' as [b [<- Hb]].
    destruct (String.eqb (a_id b) (a_id a)) eqn:E.
    + apply String.eqb_eq in E. simpl. split.
      * eexists. split; [apply in_or_app; right; left; reflexivity|]. simpl. auto.
      * intros v Hv Hva. apply in_app_or in Hv. destruct Hv as [Hv | [<- | []]].
        -- rewrite E in Hva. specialize (Hle0 v Hv Hva). lia.
        -- simpl. lia.
    + destruct (Hmax b Hb) as [[w [Hw [Hwa Hwv]]] Hle]. split.
      * exists w. split; [apply in_or_app; left; exact Hw|]. auto.
      * intros v Hv Hva. apply in_app_or in Hv. destruct Hv as [Hv | [<- | []]].
        -- exact (Hle v Hv Hva).
        -- simpl in Hva. apply String.eqb_neq in E. exfalso. apply E. symmetry. exact Hva.
Qed.

Lemma versions_ok_rollback : forall R (db : DB), versions_ok db -> versions_ok (rollback R db).
Proof.
  intros R db [Hpos [Hinc Hmax]].
  destruct (rollback_run_tables R db) as (Ha & _ & Hv & _).
  unfold versions_ok. rewrite Ha, Hv. split; [|split].
  - intros v Hv'. apply filter_In in Hv'. apply Hpos. apply Hv'.
  - intros aid. unfold versions_of. rewrite filter_filter_and.
    rewrite (filter_ext _ (fun v => String.eqb (v_article_id v) aid &&
                                    negb (String.eqb (v_run_id v) R)))
      by (intros v; apply andb_comm).
    rewrite <- filter_filter_and. apply FOP_map_filter. apply Hinc.
  - intros a' Ha'. apply in_flat_map in Ha'. destruct Ha' as [b [Hb Ha']].
    unfold final_article in Ha'.
    destruct (inb (a_id b) _) eqn:Hi.
    + destruct (latest_version (a_id b) _) as [v|] eqn:Hl; [|destruct Ha'].
      destruct Ha' as [<- | []].
      destruct (latest_version_spec _ _ _ Hl) as (Hv1 & Hva & Hvmax).
      unfold restore_article. rewrite String.eqb_refl. simpl. split.
      * exists v. auto.
      * exact Hvmax.
    + destruct Ha' as [<- | []].
      destruct (Hmax b Hb) as [[w [Hw [Hwa Hwv]]] Hle]. split.
      * exists w. split; [|auto]. apply filter_In. split; [exact Hw|].
        apply negb_true_iff. apply String.eqb_neq. intros E.
        assert (inb (a_id b) (affected_article_ids Fields Rest R (versions db)) = true)
          by (apply inb_In, affected_In; exists w; auto).
        congruence.
      * intros v Hv2 Hva. apply filter_In in Hv2. exact (Hle v (proj1 Hv2) Hva).
Qed.

Lemma snapshots_ok_rollback : forall R (db : DB), snapshots_ok db -> snapshots_ok (rollback R db).
Proof.
  intros R db H. destruct (rollback_run_tables R db) as (_ & _ & Hv & _).
  unfold snapshots_ok. rewrite Hv. intros v Hv'. apply filter_In in Hv'. apply H. apply Hv'.
Qed.

Lemma snapshots_ok_upsert : forall (db : DB) d evs run_id nid db' res,
  snapshots_ok db -> upsert d evs run_id nid db = Some (db', res) -> snapshots_ok db'.
Proof.
  intros db d evs run_id nid db' res H Hu.
  destruct (upsert_cases db d evs run_id nid db' res Hu)
    as (url & _ & [[_ ->] | [(a & _ & _ & ->) | (a & _ & _ & ->)]]);
    [| exact H |];
    unfold snapshots_ok; simpl; intros v Hv e He;
    (apply in_app_or in Hv; destruct Hv as [Hv | [<- | []]]; [exact (H v Hv e He)|]);
    simpl in *; apply in_map_iff in He; destruct He as [x [<- _]]; reflexivity.
Qed.

Lemma versions_ok_upsert : forall (db : DB) d evs run_id nid db' res,
  versions_ok db -> fresh_id nid db = true ->
  upsert d evs run_id nid db = Some (db', res) -> versions_ok db'.
Proof.
  intros db d evs run_id nid db' res H Hf Hu.
  destruct (upsert_cases db d evs run_id nid db' res Hu)
    as (url & _ & [[_ ->] | [(a & _ & _ & ->) | (a & Hfa & _ & ->)]]).
  - apply versions_ok_insert; assumption.
  - exact H.
  - apply versions_ok_update; [exact H|]. apply (find_article_spec _ _ _ _ Hfa).
Qed.

Lemma reachable_invariants : forall db : DB,
  reachable canonicalize_url hash_article_fields uuid4 db -> versions_ok db /\ snapshots_ok db.
Proof.
  intros db H. induction H as [| db d evs run_id nid db' res H [IH1 IH2] Hf Hu
                              | db R H [IH1 IH2] | db id H [IH1 IH2] | db r H [IH1 IH2]
                              | db r H [IH1 IH2]].
  - split; [split; [intros v []|split]; [intros aid; constructor | intros a []] | intros v []].
  - split; [exact (versions_ok_upsert _ _ _ _ _ _ _ IH1 Hf Hu)
           | exact (snapshots_ok_upsert _ _ _ _ _ _ _ IH2 Hu)].
  - split; [apply versions_ok_rollback | apply snapshots_ok_rollback]; assumption.
  - split; assumption.
  - split; assumption.
  - split; assumption.
Qed.

(** Under upserts alone, an article's version rows are numbered [1..N],
    [N] being the article row's version. *)
Definition versions_contiguous (db : DB) : Prop :=
  forall a, In a (articles db) ->
    map v_version (versions_of (a_id a) (versions db)) = seq 1 (a_version a).

Lemma seq_1_inj : forall n m, seq 1 n = seq 1 m -> n = m.
Proof. intros n m H. apply (f_equal (@length nat)) in H. rewrite !length_seq in H. exact H. Qed.

Lemma versions_contiguous_insert : forall (db : DB) nid url d evs run_id h,
  versions_contiguous db -> fresh_id nid db = true ->
  versions_contiguous (insert_new_article db nid url d evs run_id h).
Proof.
  intros db nid url d evs run_id h H Hf.
  destruct (fresh_id_spec nid db Hf) as [Hfa Hfv].
  unfold versions_contiguous, insert_new_article; simpl.
  intros a Ha. rewrite versions_of_app. simpl.
  apply in_app_or in Ha. destruct Ha as [Ha | [<- | []]].
  - assert (E : String.eqb nid (a_id a) = false)
      by (apply String.eqb_neq; intros E; apply (Hfa a Ha); symmetry; exact E).
    rewrite E, app_nil_r. apply H. exact Ha.
  - simpl. rewrite String.eqb_refl.
    replace (versions_of nid (versions db)) with (@nil Version); [reflexivity|].
    symmetry. apply filter_all_false_nil.
    intros v Hv. apply Bool.not_true_iff_false. rewrite String.eqb_eq. apply Hfv. exact Hv.
Qed.

Lemma versions_contiguous_update : forall (db : DB) a d evs run_id h,
  versions_contiguous db -> In a (articles db) ->
  versions_contiguous (update_article db a d evs run_id h).
Proof.
  intros db a d evs run_id h H Ha.
  unfold versions_contiguous, update_article; simpl.
  intros a' Ha'. apply in_map_iff in Ha'. destruct Ha' as [b [<- Hb]].
  destruct (String.eqb (a_id b) (a_id a)) eqn:E; simpl.
  - rewrite versions_of_app. simpl. apply String.eqb_eq in E. rewrite E, String.eqb_refl.
    rewrite map_app, (H a Ha). simpl.
    change (1 :: seq 2 (a_version a)) with (seq 1 (S (a_version a))).
    rewrite seq_S. reflexivity.
  - rewrite versions_of_app. simpl. rewrite String.eqb_sym, E, app_nil_r. apply H. exact Hb.
Qed.

Lemma reachable_upserts_invariants : forall db : DB,
  reachable_upserts canonicalize_url hash_article_fields db ->
  versions_ok db /\ versions_contiguous db.
Proof.
  intros db H. induction H as [| db d evs run_id nid db' res H [IH1 IH2] Hf Hu
                              | db id H [IH1 IH2] | db r H [IH1 IH2] | db r H [IH1 IH2]].
  - split; [split; [intros v []|split]; [intros aid; constructor | intros a []] | intros a []].
  - split; [exact (versions_ok_upsert _ _ _ _ _ _ _ IH1 Hf Hu)|].
    destruct (upsert_cases db d evs run_id nid db' res Hu)
      as (url & _ & [[_ ->] | [(a & _ & _ & ->) | (a & Hfa & _ & ->)]]).
    + apply versions_contiguous_insert; assumption.
    + exact IH2.
    + apply versions_contiguous_update; [exact IH2|]. apply (find_article_spec _ _ _ _ Hfa).
  - split; assumption.
  - split; assumption.
  - split; assumption.
Qed.

Lemma find_article_map : forall url src (f : Article -> Article) (arts : list Article) a,
  (forall b, a_canonical_url (f b) = a_canonical_url b) ->
  (forall b, a_source_id (f b) = a_source_id b) ->
  find_article url src arts = Some a -> find_article url src (map f arts) = Some (f a).
Proof.
  intros url src f arts a Hu Hs. unfold find_article.
  induction arts as [|b r IH]; simpl; [discriminate|].
  rewrite Hu, Hs. destruct (String.eqb (a_canonical_url b) url && String.eqb (a_source_id b) src).
  - intros E. injection E as <-. reflexivity.
  - exact IH.
Qed.

Lemma find_article_app_none : forall url src (arts : list Article) a,
  find_article url src arts = None ->
  a_canonical_url a = url -> a_source_id a = src ->
  find_article url src (arts ++ [a]) = Some a.
Proof.
  intros url src arts a. unfold find_article.
  induction arts as [|b r IH]; simpl; intros Hn Hu Hs.
  - rewrite Hu, Hs, !String.eqb_refl. reflexivity.
  - destruct (String.eqb (a_canonical_url b) url && String.eqb (a_source_id b) src);
      [discriminate|]. apply IH; assumption.
Qed.

Lemma load_article_some : forall (db : DB) a,
  In a (articles db) -> exists r, load_article db (a_id a) = Some r.
Proof.
  intros db a Ha. unfold load_article.
  destruct (find (fun b => String.eqb (a_id b) (a_id a)) (articles db)) eqn:E; [eauto|].
  exfalso. apply (find_none _ _ E) in Ha. rewrite String.eqb_refl in Ha. discriminate.
Qed.

Lemma flat_map_single : forall A B (f : A -> list B) (l : list A) x,
  NoDup l -> In x l -> (forall y, In y l -> y <> x -> f y = []) -> flat_map f l = f x.
Proof.
  intros A B f l x Hnd. induction Hnd as [|y r Hn Hnd IH]; intros Hx Hf; [destruct Hx|].
  simpl. destruct Hx as [<- | Hx].
  - assert (Hr : flat_map f r = []).
    { clear IH Hnd. induction r as [|z r' IHr]; [reflexivity|]. simpl.
      rewrite Hf; [|right; left; reflexivity|intros E; subst; apply Hn; left; reflexivity].
      apply IHr; [intros Hin; apply Hn; right; exact Hin|].
      intros w Hw. apply Hf. destruct Hw as [<- | Hw]; [left; reflexivity|right; right; exact Hw]. }
    rewrite Hr. apply app_nil_r.
  - rewrite Hf; [|left; reflexivity|intros E; subst; contradiction].
    simpl. apply IH; [exact Hx|]. intros z Hz. apply Hf. right. exact Hz.
Qed.

Lemma restore_from_In : forall aid i (l : list Evidence) e,
  In e (restore_from Rest uuid4 aid i l) -> exists j x, In x l /\ e = restore_item Rest uuid4 aid j x.
Proof.
  intros aid i l. revert i. induction l as [|x r IH]; intros i e H; simpl in H; [destruct H|].
  destruct H as [<- | H].
  - exists i, x. split; [left|]; reflexivity.
  - destruct (IH _ _ H) as (j & y & Hy & ->). exists j, y. split; [right; exact Hy|reflexivity].
Qed.

Lemma filter_flat_map : forall A B (p : B -> bool) (f : A -> list B) l,
  filter p (flat_map f l) = flat_map (fun x => filter p (f x)) l.
Proof.
  intros A B p f l. induction l as [|x r IH]; simpl; [reflexivity|].
  rewrite filter_app, IH. reflexivity.
Qed.

Lemma restore_article_fields : forall aid v (a : Article),
  a_id (restore_article Fields Rest aid v a) = a_id a /\
  a_canonical_url (restore_article Fields Rest aid v a) = a_canonical_url a /\
  a_source_id (restore_article Fields Rest aid v a) = a_source_id a.
Proof. intros aid v a. unfold restore_article. destruct (String.eqb (a_id a) aid); auto. Qed.

Lemma final_article_In : forall vs affected (a b : Article),
  In a (final_article vs affected b) ->
  (inb (a_id b) affected = true /\ exists v, latest_version (a_id b) vs = Some v /\
     a = restore_article Fields Rest (a_id b) v b) \/
  (inb (a_id b) affected = false /\ a = b).
Proof.
  intros vs affected a b H. unfold final_article in H.
  destruct (inb (a_id b) affected); [left | right].
  - split; [reflexivity|]. destruct (latest_version (a_id b) vs) as [v|]; [|destruct H].
    destruct H as [<- | []]. eauto.
  - destruct H as [<- | []]. auto.
Qed.

End Lemmas.

End StorageFacts.

(* --------------------------------------------------------------------- *)
(** *** Storage: claims *)

Module StorageClaims.
Import Storage StorageFacts.
Local Open Scope list_scope.

Section Claims.
Variables Fields Rest : Type.
Variable canonicalize_url : string -> option string.
Variable hash_article_fields : Fields -> string.
Variable uuid4 : string -> nat -> string.

Local Notation Version := (Version Fields Rest).
Local Notation Article := (Article Fields).
Local Notation Evidence := (Evidence Rest).
Local Notation DB := (DB Fields Rest).
Local Notation upsert := (upsert_article canonicalize_url hash_article_fields).
Local Notation rollback := (rollback_run uuid4).

(** C1 (corrected). After [rollback_run R] on a reachable state: no
    [fetch_log], [merge_decisions] or [versions] row has run id [R]; an
    evidence row with run id [R] can remain, but only when [R] is
    ["snapshot"] (a restored snapshot item whose run id was empty gets the
    run id ["snapshot"]); an article all of whose version rows are by [R]
    is deleted with all its evidence; every other article with a version
    row by [R] is kept, and takes its fields and version from its newest
    remaining version row, and its evidence set becomes exactly that row's
    deserialized snapshot. *)
Theorem rollback_run_restores : forall R (db : DB),
  reachable canonicalize_url hash_article_fields uuid4 db ->
  let db' := rollback R db in
  (forall r, In r (fetch_log db') -> rr_run_id r <> R) /\
  (forall r, In r (merge_decisions db') -> rr_run_id r <> R) /\
  (forall v, In v (versions db') -> v_run_id v <> R) /\
  (forall e, In e (evidence db') -> e_run_id e = R -> R = "snapshot") /\
  (forall aid,
     (exists w, In w (versions db) /\ v_article_id w = aid /\ v_run_id w = R) ->
     (forall w, In w (versions db) -> v_article_id w = aid -> v_run_id w = R) ->
     (forall a, In a (articles db') -> a_id a <> aid) /\
     (forall e, In e (evidence db') -> e_article_id e <> aid)) /\
  (forall a, In a (articles db) ->
     (exists w, In w (versions db) /\ v_article_id w = a_id a /\ v_run_id w = R) ->
     (exists w, In w (versions db') /\ v_article_id w = a_id a) ->
     exists a', In a' (articles db') /\ a_id a' = a_id a /\
       a_canonical_url a' = a_canonical_url a /\ a_source_id a' = a_source_id a) /\
  (forall a', In a' (articles db') ->
     (exists w, In w (versions db) /\ v_article_id w = a_id a' /\ v_run_id w = R) ->
     exists v, latest_version (a_id a') (versions db') = Some v /\
       a_fields a' = v_fields v /\ a_version a' = v_version v /\
       filter (fun e => String.eqb (e_article_id e) (a_id a')) (evidence db')
       = deserialize_evidence_snapshot uuid4 (v_evidence_snapshot v) (a_id a')).
Proof.
  intros R db Hr db'.
  destruct (reachable_invariants _ _ _ _ _ db Hr) as [_ Hsnap].
  destruct (rollback_run_tables _ _ uuid4 R db) as (Ha & He & Hv & Hf & Hm).
  fold db' in Ha, He, Hv, Hf, Hm.
  set (vs' := filter (fun v => negb (String.eqb (v_run_id v) R)) (versions db)) in *.
  set (aff := affected_article_ids Fields Rest R (versions db)) in *.
  assert (Hvs' : forall v, In v vs' -> In v (versions db) /\ v_run_id v <> R).
  { intros v Hv'. apply filter_In in Hv'. destruct Hv' as [Hin E].
    apply negb_true_iff, String.eqb_neq in E. auto. }
  assert (Hnd : NoDup aff) by apply NoDup_nodup.
  split; [|split; [|split; [|split; [|split; [|split]]]]].
  - (* fetch_log *)
    intros r Hin. rewrite Hf in Hin. apply filter_In in Hin. destruct Hin as [_ E].
    unfold keep_run in E. apply negb_true_iff, String.eqb_neq in E. exact E.
  - (* merge_decisions *)
    intros r Hin. rewrite Hm in Hin. apply filter_In in Hin. destruct Hin as [_ E].
    unfold keep_run in E. apply negb_true_iff, String.eqb_neq in E. exact E.
  - (* versions *)
    intros v Hin. rewrite Hv in Hin. apply Hvs'. exact Hin.
  - (* evidence *)
    intros e Hin ER. rewrite He in Hin. apply in_app_or in Hin. destruct Hin as [Hin | Hin].
    + apply filter_In in Hin. destruct Hin as [Hin _]. apply filter_In in Hin.
      destruct Hin as [_ E]. apply negb_true_iff, String.eqb_neq in E. contradiction.
    + apply in_flat_map in Hin. destruct Hin as [aid [_ Hin]].
      unfold restored_evidence in Hin.
      destruct (latest_version aid vs') as [v|] eqn:Hl; [|destruct Hin].
      destruct (latest_version_spec _ _ _ _ _ Hl) as (Hvin & _ & _).
      destruct (Hvs' v Hvin) as [Hvdb Hvr].
      apply restore_from_In in Hin. destruct Hin as (j & x & Hx & ->).
      pose proof (Hsnap v Hvdb x Hx) as Hxr. simpl in ER.
      destruct (String.eqb (e_run_id x) "") eqn:Ex.
      * symmetry. exact ER.
      * rewrite Hxr in ER. contradiction.
  - (* articles written only by R *)
    intros aid Hex Hall.
    assert (Haff : In aid aff) by (apply affected_In; exact Hex).
    assert (Hnone : latest_version aid vs' = None).
    { apply latest_version_none. intros w Hw Ew. destruct (Hvs' w Hw) as [Hw' Hr'].
      apply Hr'. apply Hall; assumption. }
    split.
    + intros a Hin. rewrite Ha in Hin. apply in_flat_map in Hin. destruct Hin as [b [_ Hin]].
      apply final_article_In in Hin.
      destruct Hin as [[_ [v [Hl ->]]] | [Hi ->]].
      * rewrite (proj1 (restore_article_fields _ _ _ _ _)). intros E.
        rewrite E, Hnone in Hl. discriminate.
      * intros E. rewrite E in Hi. apply inb_In in Haff. congruence.
    + intros e Hin. rewrite He in Hin. apply in_app_or in Hin. destruct Hin as [Hin | Hin].
      * apply filter_In in Hin. destruct Hin as [_ Hi]. apply negb_true_iff in Hi.
        intros E. rewrite E in Hi. apply inb_In in Haff. congruence.
      * apply in_flat_map in Hin. destruct Hin as [aid' [_ Hin]].
        unfold restored_evidence in Hin.
        destruct (latest_version aid' vs') as [v|] eqn:Hl; [|destruct Hin].
        intros E. apply restore_from_article in Hin. subst aid'. congruence.
  - (* other affected articles are kept *)
    intros a Hin Hex [w [Hw Ew]].
    rewrite Hv in Hw.
    destruct (latest_version_some _ _ _ _ _ Hw Ew) as [v Hl].
    assert (Haff : inb (a_id a) aff = true) by (apply inb_In, affected_In; exact Hex).
    exists (restore_article Fields Rest (a_id a) v a).
    destruct (restore_article_fields _ _ (a_id a) v a) as (E1 & E2 & E3).
    split; [|auto]. rewrite Ha. apply in_flat_map. exists a. split; [exact Hin|].
    unfold final_article. rewrite Haff, Hl. left. reflexivity.
  - (* restored content *)
    intros a' Hin Hex. rewrite Ha in Hin. apply in_flat_map in Hin. destruct Hin as [b [_ Hin]].
    apply final_article_In in Hin.
    destruct Hin as [[Hi [v [Hl ->]]] | [Hi ->]].
    + destruct (restore_article_fields _ _ (a_id b) v b) as (E1 & _ & _).
      rewrite E1. exists v. rewrite Hv. split; [exact Hl|].
      split; [unfold restore_article; rewrite String.eqb_refl; reflexivity|].
      split; [unfold restore_article; rewrite String.eqb_refl; reflexivity|].
      rewrite He, filter_app.
      rewrite (filter_all_false_nil _ _
                 (filter (fun e => negb (inb (e_article_id e) aff)) _)).
      2:{ intros e He'. apply filter_In in He'. destruct He' as [_ Hn].
          apply negb_true_iff in Hn. apply Bool.not_true_iff_false.
          rewrite String.eqb_eq. intros E. rewrite E in Hn. congruence. }
      simpl. rewrite filter_flat_map.
      rewrite (flat_map_single _ _ _ aff (a_id b) Hnd).
      * unfold restored_evidence. rewrite Hl. apply filter_all.
        intros e He'. apply restore_from_article in He'. rewrite He'. apply String.eqb_refl.
      * apply inb_In. exact Hi.
      * intros y _ Hy. apply filter_all_false_nil. intros e He'.
        unfold restored_evidence in He'.
        destruct (latest_version y vs'); [|destruct He'].
        apply restore_from_article in He'. rewrite He'. apply String.eqb_neq. exact Hy.
    + exfalso. assert (inb (a_id b) aff = true) by (apply inb_In, affected_In; exact Hex).
      congruence.
Qed.

(** C2. [upsert_article] does nothing on unchanged content: when the
    draft's article exists and its content hash equals the hash of the
    article's newest version row, the call returns [created = false],
    [updated = false], the stored article, and leaves the database
    unchanged. In particular, on a reachable state, upserting the same
    draft again right after an upsert (with any evidence list and run id)
    changes nothing and adds no version. *)
Theorem upsert_article_unchanged_is_noop :
  (forall (db : DB) d evs run_id nid url a,
     canonicalize_url (d_canonical_url d) = Some url ->
     find_article url (d_source_id d) (articles db) = Some a ->
     same_hash Fields Rest (latest_version (a_id a) (versions db))
       (hash_article_fields (d_fields d)) = true ->
     exists art evs',
       upsert d evs run_id nid db = Some (db, ((art, evs'), false, false)) /\ a_id art = a_id a) /\
  (forall (db : DB) d evs run_id nid db1 res evs2 run_id2 nid2,
     reachable canonicalize_url hash_article_fields uuid4 db ->
     fresh_id nid db = true ->
     upsert d evs run_id nid db = Some (db1, res) ->
     exists art evs',
       upsert d evs2 run_id2 nid2 db1 = Some (db1, ((art, evs'), false, false))).
Proof.
  assert (Hnoop : forall (db : DB) d evs run_id nid url a,
     canonicalize_url (d_canonical_url d) = Some url ->
     find_article url (d_source_id d) (articles db) = Some a ->
     same_hash Fields Rest (latest_version (a_id a) (versions db))
       (hash_article_fields (d_fields d)) = true ->
     exists art evs',
       upsert d evs run_id nid db = Some (db, ((art, evs'), false, false)) /\ a_id art = a_id a).
  { intros db d evs run_id nid url a Hc Hf Hs.
    unfold upsert_article. rewrite Hc, Hf, Hs.
    destruct (find_article_spec _ _ _ _ _ Hf) as [Ha _].
    unfold load_article.
    destruct (find (fun b => String.eqb (a_id b) (a_id a)) (articles db)) as [b|] eqn:E.
    - apply find_some in E. destruct E as [_ E]. apply String.eqb_eq in E.
      eexists b, _. split; [reflexivity | exact E].
    - exfalso. apply (find_none _ _ E) in Ha. rewrite String.eqb_refl in Ha. discriminate. }
  split; [exact Hnoop|].
  intros db d evs run_id nid db1 res evs2 run_id2 nid2 Hr Hfresh Hu.
  destruct (reachable_invariants _ _ _ _ _ db Hr) as [[_ [_ Hmax]] _].
  destruct (fresh_id_spec _ _ _ _ Hfresh) as [_ Hfv].
  pose proof Hu as Hu'.
  apply upsert_cases in Hu'.
  destruct Hu' as (url & Hc & [[Hf ->] | [(a & Hf & Hs & ->) | (a & Hf & Hs & ->)]]).
  - (* created *)
    set (h := hash_article_fields (d_fields d)).
    set (a := mkArticle nid url (d_source_id d) (d_fields d) 1 : Article).
    destruct (Hnoop (insert_new_article db nid url d evs run_id h) d evs2 run_id2 nid2 url a)
      as (art & evs' & E & _).
    + exact Hc.
    + apply find_article_app_none; [exact Hf | reflexivity | reflexivity].
    + unfold insert_new_article. simpl.
      rewrite latest_version_app_top; [simpl; apply String.eqb_refl | reflexivity|].
      intros w Hw Ew. exfalso. exact (Hfv w Hw Ew).
    + eauto.
  - (* nothing changed *)
    destruct (Hnoop db d evs2 run_id2 nid2 url a Hc Hf Hs) as (art & evs' & E & _). eauto.
  - (* updated *)
    set (h := hash_article_fields (d_fields d)).
    destruct (find_article_spec _ _ _ _ _ Hf) as [Ha _].
    destruct (Hmax a Ha) as [_ Hle].
    set (upd := fun b : Article => if String.eqb (a_id b) (a_id a)
                then mkArticle (a_id b) (a_canonical_url b) (a_source_id b)
                       (d_fields d) (S (a_version a))
                else b).
    destruct (Hnoop (update_article db a d evs run_id h) d evs2 run_id2 nid2 url (upd a))
      as (art & evs' & E & _).
    + exact Hc.
    + unfold update_article. simpl. fold upd.
      apply find_article_map; [| |exact Hf];
        intros b; unfold upd; destruct (String.eqb (a_id b) (a_id a)); reflexivity.
    + unfold update_article, upd. simpl. rewrite String.eqb_refl. simpl.
      rewrite latest_version_app_top; [simpl; apply String.eqb_refl | reflexivity|].
      intros w Hw Ew. simpl. specialize (Hle w Hw Ew). lia.
    + eauto.
Qed.

(** C7 (corrected). On every state reached by [upsert_article],
    [rollback_run] and the other writes: version numbers are at least 1,
    the version rows of each article are strictly increasing in insertion
    order, and the article row's version is the largest of its rows'
    numbers (and is one of them). Without [rollback_run] the rows of each
    stored article are numbered exactly [1..N] with [N] the article's
    version; [rollback_run] can leave gaps (see the sample below). *)
Theorem version_numbers_increasing : forall db : DB,
  (reachable canonicalize_url hash_article_fields uuid4 db ->
   (forall v, In v (versions db) -> 1 <= v_version v) /\
   (forall aid, ForallOrdPairs lt (map v_version (versions_of aid (versions db)))) /\
   (forall a, In a (articles db) ->
      (exists v, In v (versions db) /\ v_article_id v = a_id a /\ v_version v = a_version a) /\
      (forall v, In v (versions db) -> v_article_id v = a_id a -> v_version v <= a_version a))) /\
  (reachable_upserts canonicalize_url hash_article_fields db ->
   forall a, In a (articles db) ->
     map v_version (versions_of (a_id a) (versions db)) = seq 1 (a_version a)).
Proof.
  intros db. split.
  - intros Hr. exact (proj1 (reachable_invariants _ _ _ _ _ db Hr)).
  - intros Hr. exact (proj2 (reachable_upserts_invariants _ _ _ _ db Hr)).
Qed.

End Claims.

End StorageClaims.

(* --------------------------------------------------------------------- *)
(** *** Storage: samples

    The store with string fields (the title), no further evidence columns,
    [canonicalize_url] the identity, the title as its own hash, and a
    constant [uuid4]. *)

Module StorageSamples.
Import Storage StorageClaims.
Local Open Scope list_scope.

Definition s_canon (s : string) : option string := Some s.
Definition s_hash (f : string) : string := f.
Definition s_uuid (_ : string) (_ : nat) : string := "uuid".

Definition s_draft (title : string) : ArticleDraft string :=
  mkDraft "https://example.com/a" "src-1" title.

Definition s_evidence : list (Evidence unit) :=
  [mkEvidence "ev-1" "__draft_article__" "/title" tt ""].

(** One [upsert_article] of the sample draft with the given title. *)
Definition s_step (title run_id nid : string) (db : DB string unit) : DB string unit :=
  match upsert_article s_canon s_hash (s_draft title) s_evidence run_id nid db with
  | Some (db', _) => db'
  | None => db
  end.

Lemma s_step_reachable : forall title run_id nid db,
  reachable s_canon s_hash s_uuid db -> fresh_id nid db = true ->
  reachable s_canon s_hash s_uuid (s_step title run_id nid db).
Proof.
  intros title run_id nid db H Hf. unfold s_step.
  destruct (upsert_article s_canon s_hash (s_draft title) s_evidence run_id nid db)
    as [[db' res]|] eqn:E; [|exact H].
  eapply reach_upsert; eassumption.
Qed.

(** Run [""] stores title v1, run ["snapshot"] changes it to v2. *)
Definition c1_db : DB string unit :=
  s_step "v2" "snapshot" "a2" (s_step "v1" "" "a1" empty_db).

Lemma c1_db_reachable : reachable s_canon s_hash s_uuid c1_db.
Proof.
  apply s_step_reachable; [apply s_step_reachable; [constructor | reflexivity]|].
  vm_compute. reflexivity.
Qed.

(** Run ["r1"] stores title v1, run ["r2"] changes it to v2. *)
Definition c7_db : DB string unit :=
  s_step "v2" "r2" "a2" (s_step "v1" "r1" "a1" empty_db).

Lemma c7_db_reachable : reachable s_canon s_hash s_uuid c7_db.
Proof.
  apply s_step_reachable; [apply s_step_reachable; [constructor | reflexivity]|].
  vm_compute. reflexivity.
Qed.

Lemma c7_db_reachable_upserts : reachable_upserts s_canon s_hash c7_db.
Proof.
  unfold c7_db, s_step.
  destruct (upsert_article s_canon s_hash (s_draft "v1") s_evidence "r1" "a1" empty_db)
    as [[db1 r1]|] eqn:E1; [|discriminate E1].
  assert (H1 : reachable_upserts s_canon s_hash db1)
    by (eapply reachu_upsert; [constructor | reflexivity | exact E1]).
  injection E1 as <- _.
  destruct (upsert_article s_canon s_hash (s_draft "v2") s_evidence "r2" "a2" _)
    as [[db2 r2]|] eqn:E2; [|discriminate E2].
  eapply reachu_upsert; [exact H1 | | exact E2]. vm_compute. reflexivity.
Qed.

(** C1: rolling back run ["snapshot"] leaves an evidence row with run id
    ["snapshot"]: the evidence restored from version 1, written by run
    [""], gets the run id ["snapshot"]. *)
Lemma rollback_run_leaves_evidence_of_run :
  reachable s_canon s_hash s_uuid c1_db /\
  evidence (rollback_run s_uuid "snapshot" c1_db)
  = [mkEvidence "ev-1" "a1" "/title" tt "snapshot"].
Proof. split; [exact c1_db_reachable | vm_compute; reflexivity]. Qed.

Lemma rollback_run_restores_witness :
  exists v, latest_version "a1" (versions (rollback_run s_uuid "snapshot" c1_db)) = Some v /\
    v_fields v = "v1" /\ v_version v = 1 /\
    filter (fun e => String.eqb (e_article_id e) "a1")
      (evidence (rollback_run s_uuid "snapshot" c1_db))
    = deserialize_evidence_snapshot s_uuid (v_evidence_snapshot v) "a1".
Proof.
  destruct (rollback_run_restores string unit s_canon s_hash s_uuid "snapshot" c1_db
              c1_db_reachable) as (_ & _ & _ & _ & _ & _ & H).
  destruct (H (mkArticle "a1" "https://example.com/a" "src-1" "v1" 1)) as (v & Hl & Hf & Hv & He).
  - vm_compute. left. reflexivity.
  - exists (mkVersion "a1" 2 "v2" "v2"
              [mkEvidence "ev-1" "a1" "/title" tt "snapshot"] "snapshot").
    split; [vm_compute; right; left; reflexivity | split; reflexivity].
  - exists v. simpl in Hl, Hf, Hv, He. split; [exact Hl|].
    split; [symmetry; exact Hf|]. split; [symmetry; exact Hv | exact He].
Defined.

Lemma upsert_article_unchanged_is_noop_witness :
  exists db1 res,
    upsert_article s_canon s_hash (s_draft "v1") s_evidence "r1" "a1" empty_db
    = Some (db1, res) /\
    exists art evs',
      upsert_article s_canon s_hash (s_draft "v1") [] "r2" "a9" db1
      = Some (db1, ((art, evs'), false, false)).
Proof.
  destruct (upsert_article_unchanged_is_noop string unit s_canon s_hash s_uuid) as [_ H2].
  eexists. eexists. split; [reflexivity|].
  eapply (H2 empty_db (s_draft "v1") s_evidence "r1" "a1");
    [constructor | reflexivity | reflexivity].
Defined.

(** C7: after rolling back run ["r1"], article a1 has version 2 and its
    only version row is numbered 2. *)
Lemma version_rows_gap_after_rollback :
  reachable s_canon s_hash s_uuid (rollback_run s_uuid "r1" c7_db) /\
  In (mkArticle "a1" "https://example.com/a" "src-1" "v2" 2)
    (articles (rollback_run s_uuid "r1" c7_db)) /\
  map v_version (versions_of "a1" (versions (rollback_run s_uuid "r1" c7_db))) = [2].
Proof.
  split; [apply reach_rollback; exact c7_db_reachable|].
  split; [vm_compute; left; reflexivity | vm_compute; reflexivity].
Qed.

Lemma version_numbers_increasing_witness :
  map v_version (versions_of "a1" (versions c7_db)) = seq 1 2 /\
  In (mkArticle "a1" "https://example.com/a" "src-1" "v2" 2) (articles c7_db).
Proof.
  assert (Ha : In (mkArticle "a1" "https://example.com/a" "src-1" "v2" 2) (articles c7_db))
    by (vm_compute; left; reflexivity).
  split; [|exact Ha].
  exact (proj2 (version_numbers_increasing string unit s_canon s_hash s_uuid c7_db)
           c7_db_reachable_upserts _ Ha).
Defined.

End StorageSamples.

(* --------------------------------------------------------------------- *)
(** *** Pipeline: the per-URL loop and the final run log *)

Module PipelineExtras.
Import Pipeline.
Local Open Scope list_scope.

Section Stages.
Variables URL Doc Log ParsedT Draft Evs : Type.
Variable log_error : Log -> bool.
Variable discover : string -> string -> Res (list URL).
Variable fetch : URL -> string -> Res (option Doc * Log).
Variable parse : Doc -> string -> Res ParsedT.
Variable extract : ParsedT -> string -> Res (Draft * Evs).
Variable store : Draft -> Evs -> string -> Res (bool * bool).
Variable export : string -> Res nat.
Variable create_run_log : RunLog -> Res unit.
Variable save_fetch_log : Log -> Res unit.
Variable update_run_log : RunLog -> Res unit.

Local Notation Event := (Event URL Doc ParsedT Draft).
Local Notation step run_id dry_run :=
  (process_url log_error fetch parse extract store save_fetch_log run_id dry_run).
Local Notation run_ :=
  (run log_error discover fetch parse extract store export create_run_log
     save_fetch_log update_run_log).


(** The calls that write: [store.store] and [export.export]. *)
Definition is_write (ev : Event) : bool :=
  match ev with EvStore _ | EvExport _ => true | _ => false end.

(** How one loop over [n] URLs changes the run log: the identity and
    status fields are untouched, each URL adds one to [fetched_count] or
    to [error_count] or to both, and an article is counted as new or
    updated only for a URL that was fetched. *)
Definition loop_rel (n : nat) (rl rl' : RunLog) : Prop :=
  rl_id rl' = rl_id rl /\ rl_source_id rl' = rl_source_id rl /\
  rl_status rl' = rl_status rl /\ rl_error_message rl' = rl_error_message rl /\
  rl_ended rl' = rl_ended rl /\
  fetched_count rl <= fetched_count rl' <= fetched_count rl + n /\
  error_count rl <= error_count rl' <= error_count rl + n /\
  fetched_count rl + error_count rl + n <= fetched_count rl' + error_count rl' /\
  new_articles_count rl' + fetched_count rl <= new_articles_count rl + fetched_count rl' /\
  updated_articles_count rl' + fetched_count rl
    <= updated_articles_count rl + fetched_count rl'.

Lemma loop_rel_trans : forall n m rl1 rl2 rl3,
  loop_rel n rl1 rl2 -> loop_rel m rl2 rl3 -> loop_rel (n + m) rl1 rl3.
Proof.
  unfold loop_rel. intros n m rl1 rl2 rl3 H1 H2.
  destruct H1 as (E1 & E2 & E3 & E4 & E5 & H1). destruct H2 as (F1 & F2 & F3 & F4 & F5 & H2).
  rewrite F1, F2, F3, F4, F5. repeat split; auto; lia.
Qed.

Lemma process_url_rel : forall run_id dry_run acc u,
  loop_rel 1 (fst acc) (fst (step run_id dry_run acc u)).
Proof.
  intros run_id dry_run [rl tr] u. unfold process_url, loop_rel.
  destruct (fetch u run_id) as [[d l]|m]; simpl; [|repeat split; lia].
  destruct (save_fetch_log l); simpl; [|repeat split; lia].
  destruct (log_error l), d as [d|]; simpl; try (repeat split; lia).
  destruct (parse d run_id) as [p|]; simpl; [|repeat split; lia].
  destruct (extract p run_id) as [[dr evs]|]; simpl; [|repeat split; lia].
  destruct dry_run; simpl; [repeat split; lia|].
  destruct (store dr evs run_id) as [[c up]|]; simpl; [|repeat split; lia].
  destruct c, up; simpl; repeat split; lia.
Qed.

Lemma fold_rel : forall run_id dry_run urls acc,
  loop_rel (length urls) (fst acc) (fst (fold_left (fun a u => step run_id dry_run a u) urls acc)).
Proof.
  intros run_id dry_run urls. induction urls as [|u us IH]; intros acc; simpl.
  - unfold loop_rel. repeat split; lia.
  - change (S (length us)) with (1 + length us).
    eapply loop_rel_trans; [apply process_url_rel | apply IH].
Qed.




Lemma process_url_dry : forall run_id acc u,
  (forall ev, In ev (snd acc) -> is_write ev = false) ->
  forall ev, In ev (snd (step run_id true acc u)) -> is_write ev = false.
Proof.
  intros run_id [rl tr] u H. unfold process_url.
  destruct (fetch u run_id) as [[d l]|m]; simpl;
    [|intros ev Hev; apply in_app_or in Hev; destruct Hev as [Hev | [<- | []]]; auto].
  destruct (save_fetch_log l); simpl;
    [|intros ev Hev; apply in_app_or in Hev; destruct Hev as [Hev | [<- | []]]; auto].
  destruct (log_error l), d as [d|]; simpl;
    try (intros ev Hev; apply in_app_or in Hev; destruct Hev as [Hev | [<- | []]]; auto; fail).
  destruct (parse d run_id) as [p|]; simpl;
    [|intros ev Hev; rewrite <- app_assoc in Hev; apply in_app_or in Hev;
      destruct Hev as [Hev | [<- | [<- | []]]]; auto].
  destruct (extract p run_id) as [[dr evs]|]; simpl;
    intros ev Hev; rewrite <- !app_assoc in Hev; apply in_app_or in Hev;
    destruct Hev as [Hev | [<- | [<- | [<- | []]]]]; auto.
Qed.

Lemma fold_dry : forall run_id urls acc,
  (forall ev, In ev (snd acc) -> is_write ev = false) ->
  forall ev, In ev (snd (fold_left (fun a u => step run_id true a u) urls acc)) ->
  is_write ev = false.
Proof.
  intros run_id urls. induction urls as [|u us IH]; intros acc H; simpl; [exact H|].
  apply IH. apply process_url_dry. exact H.
Qed.

Lemma process_url_dry_counts : forall run_id acc u,
  new_articles_count (fst (step run_id true acc u)) = new_articles_count (fst acc) /\
  updated_articles_count (fst (step run_id true acc u)) = updated_articles_count (fst acc).
Proof.
  intros run_id [rl tr] u. unfold process_url.
  destruct (fetch u run_id) as [[d l]|m]; simpl; [|auto].
  destruct (save_fetch_log l); simpl; [|auto].
  destruct (log_error l), d as [d|]; simpl; auto.
  destruct (parse d run_id) as [p|]; simpl; [|auto].
  destruct (extract p run_id) as [[dr evs]|]; simpl; auto.
Qed.

Lemma fold_dry_counts : forall run_id urls acc,
  new_articles_count (fst (fold_left (fun a u => step run_id true a u) urls acc))
    = new_articles_count (fst acc) /\
  updated_articles_count (fst (fold_left (fun a u => step run_id true a u) urls acc))
    = updated_articles_count (fst acc).
Proof.
  intros run_id urls. induction urls as [|u us IH]; intros acc; simpl; [auto|].
  destruct (IH (step run_id true acc u)) as [E1 E2].
  destruct (process_url_dry_counts run_id acc u) as [F1 F2].
  rewrite E1, E2, F1, F2. auto.
Qed.

(** The outcomes of [run]: the three exits of the [try], the [except]
    handler, and the final [_persist_run_end]. *)
Lemma run_cases : forall seed source_id run_id dry_run rl tr,
  run_ seed source_id run_id dry_run = Some (rl, tr) ->
  let rl0 := mkRunLog run_id source_id RUNNING None false 0 0 0 0 in
  (exists m, discover seed run_id = Err m /\ rl = set_status rl0 FAILED (Some m) /\ tr = []) \/
  (discover seed run_id = Ok [] /\ tr = [] /\
   (rl = set_status rl0 COMPLETED (Some "No URLs discovered") \/
    exists m, rl = set_status (set_status rl0 COMPLETED (Some "No URLs discovered"))
                     FAILED (Some m))) \/
  (exists urls rl2 tr2, discover seed run_id = Ok urls /\ urls <> [] /\
   fold_left (fun a u => step run_id dry_run a u) urls (rl0, []) = (rl2, tr2) /\
   ((dry_run = true /\ tr = tr2 /\ rl = set_status rl2 COMPLETED (rl_error_message rl2)) \/
    (dry_run = false /\
     tr = tr2 ++ [EvExport (String.append "export_" (String.append run_id ".jsonl"))] /\
     (rl = set_status rl2 COMPLETED (rl_error_message rl2) \/
      (exists m, rl = set_status rl2 FAILED (Some m)) \/
      (exists m m', rl = set_status (set_status rl2 FAILED (Some m)) FAILED (Some m')))))).
Proof.
  intros seed source_id run_id dry_run rl tr H rl0.
  unfold run in H. fold rl0 in H. destruct (create_run_log rl0); [|discriminate].
  destruct (discover seed run_id) as [[|u us]|m] eqn:Hd.
  - right. left. split; [reflexivity|].
    destruct (update_run_log _).
    + injection H as <- <-. auto.
    + unfold fail_run in H. destruct (update_run_log _); [|discriminate].
      injection H as <- <-. eauto.
  - right. right. cbv beta iota zeta in H.
    destruct (fold_left _ (u :: us) _) as [rl2 tr2] eqn:Hf.
    exists (u :: us), rl2, tr2. split; [reflexivity|]. split; [discriminate|].
    split; [exact Hf|].
    destruct dry_run.
    + left. destruct (update_run_log _); [|discriminate]. injection H as <- <-. auto.
    + right. split; [reflexivity|].
      destruct (export _) as [n|m].
      * destruct (update_run_log _); [|discriminate]. injection H as <- <-. auto.
      * destruct (update_run_log _).
        -- injection H as <- <-. split; [reflexivity|]. eauto.
        -- unfold fail_run in H. destruct (update_run_log _); [|discriminate].
           injection H as <- <-. split; [reflexivity|]. eauto.
  - left. unfold fail_run in H. destruct (update_run_log _); [|discriminate].
    injection H as <- <-. eauto.
Qed.


(** The counts of the returned run log: every discovered URL is
    counted as fetched or as an error (or both, when the fetch stage
    returned and a later step failed), and new or updated articles are
    counted only among fetched URLs. *)
Theorem run_counts_bounds : forall seed source_id run_id dry_run urls rl tr,
  discover seed run_id = Ok urls ->
  run log_error discover fetch parse extract store export create_run_log
    save_fetch_log update_run_log seed source_id run_id dry_run = Some (rl, tr) ->
  fetched_count rl <= length urls /\ error_count rl <= length urls /\
  length urls <= fetched_count rl + error_count rl /\
  new_articles_count rl <= fetched_count rl /\ updated_articles_count rl <= fetched_count rl.
Proof.
  intros seed source_id run_id dry_run urls rl tr Hd H.
  apply run_cases in H.
  destruct H as [(m & E & _) | [(E & _ & Hr) | (urls' & rl2 & tr2 & E & _ & Hf & Hc)]];
    rewrite Hd in E; try discriminate.
  - injection E as E; subst. simpl.
    destruct Hr as [-> | [m ->]]; simpl; lia.
  - injection E as E; subst urls'.
    pose proof (fold_rel run_id dry_run urls
                  (mkRunLog run_id source_id RUNNING None false 0 0 0 0, [])) as Hr.
    rewrite Hf in Hr. simpl in Hr. unfold loop_rel in Hr. simpl in Hr.
    destruct Hr as (_ & _ & _ & _ & _ & H1 & H2 & H3 & H4 & H5).
    destruct Hc as [(_ & _ & ->) | (_ & _ & [-> | [[m ->] | (m & m' & ->)]])];
      simpl; lia.
Qed.

(** A dry run calls neither the store stage nor the export stage, and
    reports no new or updated article. *)
Theorem run_dry_run_writes_nothing : forall seed source_id run_id rl tr,
  run_ seed source_id run_id true = Some (rl, tr) ->
  (forall ev, In ev tr -> is_write ev = false) /\
  new_articles_count rl = 0 /\ updated_articles_count rl = 0.
Proof.
  intros seed source_id run_id rl tr H.
  apply run_cases in H.
  destruct H as [(m & _ & -> & ->) | [(_ & -> & [-> | [m ->]]) | (urls & rl2 & tr2 & _ & _ & Hf & Hc)]];
    try (simpl; split; [intros ev []| auto]).
  pose proof (fold_dry run_id urls (mkRunLog run_id source_id RUNNING None false 0 0 0 0, []))
    as Hw.
  pose proof (fold_dry_counts run_id urls (mkRunLog run_id source_id RUNNING None false 0 0 0 0, []))
    as Hn.
  rewrite Hf in Hw, Hn. simpl in Hw, Hn.
  destruct Hc as [(_ & -> & ->) | (E & _)]; [|discriminate].
  simpl. split; [apply Hw; intros ev []|exact Hn].
Qed.

(** The returned run log carries the run's id and source id, is ended,
    and is [COMPLETED], or [FAILED] with an error message. *)
Theorem run_final_status : forall seed source_id run_id dry_run rl tr,
  run log_error discover fetch parse extract store export create_run_log
    save_fetch_log update_run_log seed source_id run_id dry_run = Some (rl, tr) ->
  rl_id rl = run_id /\ rl_source_id rl = source_id /\ rl_ended rl = true /\
  (rl_status rl = COMPLETED \/ (rl_status rl = FAILED /\ rl_error_message rl <> None)).
Proof.
  intros seed source_id run_id dry_run rl tr H.
  apply run_cases in H.
  destruct H as [(m & _ & -> & _) | [(_ & _ & [-> | [m ->]]) | (urls & rl2 & tr2 & _ & _ & Hf & Hc)]];
    try (simpl; repeat split; auto;
         solve [left; reflexivity | right; split; [reflexivity | discriminate]]).
  pose proof (fold_rel run_id dry_run urls
                (mkRunLog run_id source_id RUNNING None false 0 0 0 0, [])) as Hr.
  rewrite Hf in Hr. simpl in Hr. unfold loop_rel in Hr. simpl in Hr.
  destruct Hr as (E1 & E2 & _).
  destruct Hc as [(_ & _ & ->) | (_ & _ & [-> | [[m ->] | (m & m' & ->)]])];
    simpl; repeat split; auto;
    solve [left; reflexivity | right; split; [reflexivity | discriminate]].
Qed.


End Stages.

End PipelineExtras.

Module PipelineSamples.
Import Pipeline PipelineExtras.
Local Open Scope list_scope.

(** Three discovered URLs; the fetch of the second raises, the others
    are stored as new articles. *)
Definition ps_discover (_ _ : string) : Res (list nat) := Ok [1; 2; 3].
Definition ps_fetch (u : nat) (_ : string) : Res (option unit * unit) :=
  if Nat.eqb u 2 then Err "timeout" else Ok (Some tt, tt).
Definition ps_parse (_ : unit) (_ : string) : Res unit := Ok tt.
Definition ps_extract (_ : unit) (_ : string) : Res (unit * unit) := Ok (tt, tt).
Definition ps_store (_ _ : unit) (_ : string) : Res (bool * bool) := Ok (true, false).
Definition ps_export (_ : string) : Res nat := Ok 2.
Definition ps_ok {A} (_ : A) : Res unit := Ok tt.

Definition ps_run (dry_run : bool) :=
  run (fun _ : unit => false) ps_discover ps_fetch ps_parse ps_extract ps_store ps_export
    ps_ok ps_ok ps_ok "https://example.com/feed.xml" "src-1" "run-1" dry_run.


Lemma run_counts_bounds_witness :
  exists rl tr, ps_run false = Some (rl, tr) /\
  fetched_count rl <= 3 /\ error_count rl <= 3 /\ 3 <= fetched_count rl + error_count rl /\
  new_articles_count rl <= fetched_count rl /\ updated_articles_count rl <= fetched_count rl.
Proof.
  destruct (ps_run false) as [[rl tr]|] eqn:E; [|vm_compute in E; discriminate E].
  exists rl, tr. split; [reflexivity|].
  exact (run_counts_bounds nat unit unit unit unit unit (fun _ => false) ps_discover
           ps_fetch ps_parse ps_extract ps_store ps_export ps_ok ps_ok ps_ok
           "https://example.com/feed.xml" "src-1" "run-1" false [1; 2; 3] rl tr eq_refl E).
Defined.

Lemma run_dry_run_writes_nothing_witness :
  exists rl tr, ps_run true = Some (rl, tr) /\
  (forall ev, In ev tr -> is_write nat unit unit unit ev = false) /\
  new_articles_count rl = 0 /\ updated_articles_count rl = 0.
Proof.
  destruct (ps_run true) as [[rl tr]|] eqn:E; [|vm_compute in E; discriminate E].
  exists rl, tr. split; [reflexivity|].
  exact (run_dry_run_writes_nothing nat unit unit unit unit unit (fun _ => false) ps_discover
           ps_fetch ps_parse ps_extract ps_store ps_export ps_ok ps_ok ps_ok
           "https://example.com/feed.xml" "src-1" "run-1" rl tr E).
Defined.

Lemma run_final_status_witness :
  exists rl tr, ps_run false = Some (rl, tr) /\
  rl_id rl = "run-1" /\ rl_source_id rl = "src-1" /\ rl_ended rl = true /\
  (rl_status rl = COMPLETED \/ (rl_status rl = FAILED /\ rl_error_message rl <> None)).
Proof.
  destruct (ps_run false) as [[rl tr]|] eqn:E; [|vm_compute in E; discriminate E].
  exists rl, tr. split; [reflexivity|].
  exact (run_final_status nat unit unit unit unit unit (fun _ => false) ps_discover
           ps_fetch ps_parse ps_extract ps_store ps_export ps_ok ps_ok ps_ok
           "https://example.com/feed.xml" "src-1" "run-1" false rl tr E).
Defined.



End PipelineSamples.

Module FetchExtras.
Import UrlLib Fetch.
Local Open Scope list_scope.

Lemma v4_div_pow2 : forall a b c d k q r,
  (b < 256)%N -> (c < 256)%N -> (d < 256)%N -> (r < 2 ^ k)%N ->
  v4 a b c d = (q * 2 ^ k + r)%N -> N.shiftr (v4 a b c d) k = q.
Proof.
  intros a b c d k q r Hb Hc Hd Hr E. rewrite N.shiftr_div_pow2, E.
  symmetry. apply (N.div_unique _ _ _ r); [exact Hr | lia].
Qed.

(** [_is_blocked_ip] on IPv4 addresses, range by range: an address
    [a.b.c.d] is refused exactly when it is in 0/8, 10/8, 127/8,
    169.254/16, 172.16/12, 192.168/16 or 224/4, or is 255.255.255.255. *)
Theorem is_blocked_ipv4_iff : forall a b c d,
  (a < 256)%N -> (b < 256)%N -> (c < 256)%N -> (d < 256)%N ->
  is_blocked_ip (IPv4 (v4 a b c d)) = true <->
  (a = 0 \/ a = 10 \/ a = 127 \/ (a = 169 /\ b = 254) \/ (a = 172 /\ 16 <= b <= 31) \/
   (a = 192 /\ b = 168) \/ (224 <= a <= 239) \/ (a = 255 /\ b = 255 /\ c = 255 /\ d = 255))%N.
Proof.
  intros a b c d Ha Hb Hc Hd.
  assert (E24 : N.shiftr (v4 a b c d) 24 = a)
    by (apply (v4_div_pow2 a b c d 24 a (b * 65536 + c * 256 + d)); [lia..|unfold v4; lia]).
  assert (E16 : N.shiftr (v4 a b c d) 16 = (a * 256 + b)%N)
    by (apply (v4_div_pow2 a b c d 16 _ (c * 256 + d)); [lia..|unfold v4; lia]).
  assert (E0 : N.shiftr (v4 a b c d) 0 = v4 a b c d) by reflexivity.
  pose proof (N.div_mod b 16 ltac:(lia)) as Bm. pose proof (N.mod_lt b 16 ltac:(lia)) as Bl.
  pose proof (N.div_mod a 16 ltac:(lia)) as Am. pose proof (N.mod_lt a 16 ltac:(lia)) as Al.
  assert (E20 : N.shiftr (v4 a b c d) 20 = (a * 16 + b / 16)%N)
    by (apply (v4_div_pow2 a b c d 20 _ ((b mod 16) * 65536 + c * 256 + d));
        [lia..|unfold v4; lia]).
  assert (E28 : N.shiftr (v4 a b c d) 28 = (a / 16)%N)
    by (apply (v4_div_pow2 a b c d 28 _ ((a mod 16) * 16777216 + b * 65536 + c * 256 + d));
        [lia..|unfold v4; lia]).
  unfold is_blocked_ip, BLOCKED_IP_RANGES. cbn [existsb in_network net_v6 net_base net_prefix].
  replace (32 - 8)%N with 24%N by reflexivity. replace (32 - 12)%N with 20%N by reflexivity.
  replace (32 - 16)%N with 16%N by reflexivity. replace (32 - 32)%N with 0%N by reflexivity.
  replace (32 - 4)%N with 28%N by reflexivity.
  rewrite E24, E20, E16, E0, E28. vm_compute N.shiftr. cbn [negb andb orb].
  unfold v4. revert Bm Bl Am Al.
  generalize (b / 16)%N (b mod 16)%N (a / 16)%N (a mod 16)%N.
  intros bq br aq ar Bm Bl Am Al.
  rewrite orb_false_r, !orb_true_iff, !N.eqb_eq. lia.
Qed.

Lemma str_app_nil_r : forall s : string, (s ++ "")%string = s.
Proof. induction s as [|c s IH]; simpl; [reflexivity | rewrite IH; reflexivity]. Qed.

Lemma str_app_assoc : forall a b c : string, (a ++ (b ++ c))%string = ((a ++ b) ++ c)%string.
Proof. induction a as [|x a IH]; intros b c; simpl; [reflexivity | rewrite IH; reflexivity]. Qed.

Lemma str_length_app : forall a b : string, String.length (a ++ b) = String.length a + String.length b.
Proof. induction a as [|x a IH]; intros b; simpl; [reflexivity | rewrite IH; reflexivity]. Qed.

(** [b"".join(chunks)] one chunk at a time. *)
Lemma concat_empty_cons : forall c cs, String.concat "" (c :: cs) = (c ++ String.concat "" cs)%string.
Proof. intros c [|d r]; simpl; [symmetry; apply str_app_nil_r | reflexivity]. Qed.

Lemma read_chunks_closed : forall cs total max_bytes acc,
  (total <= max_bytes)%N ->
  read_chunks cs total max_bytes acc =
  if N.ltb max_bytes (total + chunks_total cs) then inl TBodyLimit
  else inr (acc ++ String.concat "" cs)%string.
Proof.
  induction cs as [|c r IH]; intros total max_bytes acc Hle.
  - simpl. rewrite N.add_0_r, str_app_nil_r. destruct (N.ltb_spec max_bytes total); [lia|reflexivity].
  - rewrite concat_empty_cons. simpl.
    destruct (String.eqb_spec c "") as [->|Hc].
    + simpl. rewrite (IH total max_bytes acc Hle). reflexivity.
    + destruct (N.ltb_spec max_bytes (total + N.of_nat (String.length c))) as [Hlt|Hge].
      * destruct (N.ltb_spec max_bytes (total + (N.of_nat (String.length c) + chunks_total r)));
          [reflexivity | lia].
      * rewrite (IH _ max_bytes _ Hge), <- str_app_assoc, N.add_assoc. reflexivity.
Qed.

(** [_read_body_with_limit] in closed form: a limit of 0 refuses every
    body, even an empty one; otherwise the body is refused exactly when
    the total size of its chunks exceeds the limit (a body of exactly
    the limit is accepted), and an accepted body is the concatenation of
    the chunks, unless reading them ended with an exception, which
    propagates. *)
Theorem read_body_with_limit_closed : forall resp max_bytes,
  read_body_with_limit resp max_bytes =
  if (N.eqb max_bytes 0 || N.ltb max_bytes (chunks_total (chunks resp)))%bool
  then inl TBodyLimit
  else match chunks_error resp with
       | Some e => inl (TPy e)
       | None => inr (String.concat "" (chunks resp))
       end.
Proof.
  intros resp max_bytes. unfold read_body_with_limit.
  destruct (N.eqb max_bytes 0); [reflexivity|]. simpl.
  rewrite (read_chunks_closed (chunks resp) 0 max_bytes "" (N.le_0_l _)). simpl.
  destruct (N.ltb max_bytes (chunks_total (chunks resp))); reflexivity.
Qed.

(** [300 <= response.status_code < 400 and response.headers.get("location")] *)
Definition is_redirect (r : Response) : bool :=
  (N.leb 300 (status_code r) && N.ltb (status_code r) 400)%bool &&
  match location_truthy r with Some _ => true | None => false end.

Lemma follow_redirects_from_ext : forall resolve urljoin s1 s2 fuel hop m cur,
  (forall n u, hop <= n < hop + fuel -> s1 n u = s2 n u) ->
  follow_redirects_from resolve urljoin s1 fuel hop m cur
  = follow_redirects_from resolve urljoin s2 fuel hop m cur.
Proof.
  intros resolve urljoin s1 s2 fuel. induction fuel as [|fuel IH]; intros hop m cur H;
    simpl; [reflexivity|].
  rewrite (H hop cur) by lia.
  destruct (s2 hop cur) as [resp|e]; [|reflexivity].
  destruct (N.leb 300 (status_code resp) && N.ltb (status_code resp) 400)%bool,
    (location_truthy resp) as [loc|]; try reflexivity.
  destruct (Nat.leb m hop); [reflexivity|].
  destruct (urljoin cur loc) as [next|]; [|reflexivity].
  destruct (validate_url_scheme next) as [[|]|]; try reflexivity.
  destruct (existsb is_blocked_ip _); [reflexivity|].
  apply IH. intros n u Hn. apply H. lia.
Qed.

(** [fetch_url] sends at most [MAX_REDIRECTS + 1] requests: two
    sessions that answer the first six requests alike give the same
    outcome, whatever they would answer afterwards. *)
Theorem fetch_url_uses_at_most_six_requests :
  forall resolve urljoin s1 s2 robots sha256 url run_id,
  (forall n u, n <= MAX_REDIRECTS -> s1 n u = s2 n u) ->
  fetch_url resolve urljoin s1 robots sha256 url run_id
  = fetch_url resolve urljoin s2 robots sha256 url run_id.
Proof.
  intros resolve urljoin s1 s2 robots sha256 url run_id H.
  unfold fetch_url, fetch_try, follow_redirects.
  rewrite (follow_redirects_from_ext resolve urljoin s1 s2 (S MAX_REDIRECTS) 0 MAX_REDIRECTS url)
    by (intros n u Hn; apply H; lia).
  reflexivity.
Qed.

Lemma follow_all_redirects : forall resolve urljoin s fuel hop m cur,
  hop <= m ->
  (forall n u, hop <= n <= m -> exists r, s n u = GetOk r /\ is_redirect r = true) ->
  exists e, follow_redirects_from resolve urljoin s fuel hop m cur = inl e.
Proof.
  intros resolve urljoin s fuel. induction fuel as [|fuel IH]; intros hop m cur Hle H;
    simpl; [eauto|].
  destruct (H hop cur ltac:(lia)) as [r [Er Hr]]. rewrite Er.
  unfold is_redirect in Hr. apply andb_prop in Hr. destruct Hr as [Hs Hl].
  rewrite Hs. destruct (location_truthy r) as [loc|]; [|discriminate].
  destruct (Nat.leb_spec m hop); [eauto|].
  destruct (urljoin cur loc) as [next|]; [|eauto].
  destruct (validate_url_scheme next) as [[|]|]; try eauto.
  destruct (existsb is_blocked_ip _); [eauto|].
  apply IH; [lia|]. intros n u Hn. apply H. lia.
Qed.

(** When every response to the first six requests is a redirect with a
    [Location], [fetch_url] returns no document: it returns [None] with
    an error log (at the latest [REDIRECT_LIMIT] at the sixth response)
    or raises. *)
Theorem fetch_url_redirect_chain_no_document :
  forall resolve urljoin session_get robots sha256 url run_id,
  (forall n u, n <= MAX_REDIRECTS ->
     exists r, session_get n u = GetOk r /\ is_redirect r = true) ->
  (exists l, fetch_url resolve urljoin session_get robots sha256 url run_id = FReturn None l) \/
  (exists e, fetch_url resolve urljoin session_get robots sha256 url run_id = FRaise e).
Proof.
  intros resolve urljoin session_get robots sha256 url run_id H.
  destruct (follow_all_redirects resolve urljoin session_get (S MAX_REDIRECTS) 0 MAX_REDIRECTS
              url (Nat.le_0_l _) ltac:(intros n u Hn; apply H; lia)) as [e He].
  unfold fetch_url, fetch_try, follow_redirects. rewrite He.
  destruct (validate_url_scheme url) as [[|]|]; eauto.
  destruct (urlsplit url) as [sr|]; eauto.
  destruct (hostname sr); eauto.
  destruct (existsb is_blocked_ip _); eauto.
  destruct (robots_blocks robots url); eauto.
  destruct e as [| |[]]; eauto.
Qed.

(** The pair [fetch_url] returns: the log names the requested URL and
    the run, it has an error code exactly when no document is returned,
    and with a document it records the final response's status and the
    number of body bytes (0 for a 304). *)
Theorem fetch_url_log_consistent :
  forall resolve urljoin session_get robots sha256 url run_id doc log,
  fetch_url resolve urljoin session_get robots sha256 url run_id = FReturn doc log ->
  fl_url log = url /\ fl_run_id log = run_id /\
  (doc = None <-> fl_error_code log <> None) /\
  (forall d, doc = Some d ->
     fl_status_code log = Some (fd_status_code d) /\
     fl_bytes_received log = Some (match fd_body_bytes d with
                                   | Some b => String.length b | None => 0 end)).
Proof.
  intros resolve urljoin session_get robots sha256 url run_id doc log H.
  assert (Herr : forall c, doc = None -> log = error_log url run_id c ->
            fl_url log = url /\ fl_run_id log = run_id /\
            (doc = None <-> fl_error_code log <> None) /\
            (forall d, doc = Some d ->
               fl_status_code log = Some (fd_status_code d) /\
               fl_bytes_received log = Some (match fd_body_bytes d with
                                             | Some b => String.length b | None => 0 end))).
  { intros c -> ->. simpl. split; [reflexivity|]. split; [reflexivity|].
    split; [split; [intros _; discriminate | reflexivity]|]. intros d Hd; discriminate Hd. }
  unfold fetch_url in H.
  destruct (validate_url_scheme url) as [[|]|]; [|injection H as <- <-; eauto|discriminate].
  destruct (urlsplit url) as [sr|]; [|discriminate].
  destruct (hostname sr); [|injection H as <- <-; eauto].
  destruct (existsb is_blocked_ip _); [injection H as <- <-; eauto|].
  destruct (robots_blocks robots url); [injection H as <- <-; eauto|].
  destruct (fetch_try resolve urljoin session_get sha256 url run_id) as [e|[d l]] eqn:Ht.
  - destruct e as [| |[]]; try discriminate; injection H as <- <-; eauto.
  - injection H as <- <-. unfold fetch_try in Ht.
    destruct (follow_redirects _ _ _ url MAX_REDIRECTS) as [e|[resp final]]; [discriminate|].
    destruct (N.eqb (status_code resp) 304) eqn:E304.
    + injection Ht as <- <-. simpl. split; [reflexivity|]. split; [reflexivity|].
      split; [split; [discriminate | intros Hn; exfalso; apply Hn; reflexivity]|].
      intros d Hd. injection Hd as <-. split; reflexivity.
    + destruct (read_body_with_limit resp _) as [e|body]; [discriminate|].
      injection Ht as <- <-. simpl. split; [reflexivity|]. split; [reflexivity|].
      split; [split; [discriminate | intros Hn; exfalso; apply Hn; reflexivity]|].
      intros d Hd. injection Hd as <-. split; reflexivity.
Qed.

Lemma partition_no_sep : forall c s, Py.contains c s = false ->
  Py.partition c s = (s, false, ""%string) /\
  forall p, Py.partition c (s ++ String c p)%string = (s, true, p).
Proof.
  intros c s. induction s as [|d s IH]; intros H; simpl in *.
  - rewrite Ascii.eqb_refl. split; reflexivity.
  - apply orb_false_iff in H. destruct H as [Hd Hs]. rewrite Hd.
    destruct (IH Hs) as [E1 E2]. rewrite E1. split; [reflexivity|].
    intros p. rewrite E2. reflexivity.
Qed.

(** [_content_limit_for_response] reads only the media type before the
    first [;]: parameters such as [charset] never change the limit. *)
Theorem content_limit_ignores_parameters : forall ct p,
  Py.contains ";" ct = false ->
  content_limit_for_response (Some (ct ++ String ";" p)%string)
  = content_limit_for_response (Some ct).
Proof.
  intros ct p H. destruct (partition_no_sep ";" ct H) as [E1 E2].
  unfold content_limit_for_response. rewrite E2.
  destruct ct as [|a r].
  - reflexivity.
  - simpl in E1. simpl. rewrite E1. reflexivity.
Qed.

End FetchExtras.

Module FetchExtraSamples.
Import UrlLib Fetch FetchExtras.
Local Open Scope list_scope.

(** Every host resolves to a public address, [urljoin] takes the
    [Location] as it is, no robots checker, the body as its own hash. *)
Definition xs_resolve (_ : string) : list ip := [IPv4 (v4 93 184 216 34)].
Definition xs_urljoin (_ loc : string) : option string := Some loc.
Definition xs_sha (b : string) : string := b.

Definition xs_redirect : Response :=
  mkResp 302 (Some "https://example.com/next") (Some "text/html") [] None.
Definition xs_page : Response :=
  mkResp 200 None (Some "text/html; charset=utf-8") ["<html>"; ""; "</html>"] None.

(** A server that always redirects, and one that serves the page. *)
Definition xs_always_redirect (_ : nat) (_ : string) : GetResult := GetOk xs_redirect.
Definition xs_serve (_ : nat) (_ : string) : GetResult := GetOk xs_page.
(** Redirects six times, then would serve the page. *)
Definition xs_redirect_then_serve (n : nat) (_ : string) : GetResult :=
  if Nat.leb n 5 then GetOk xs_redirect else GetOk xs_page.

Lemma is_blocked_ipv4_iff_witness :
  is_blocked_ip (IPv4 (v4 100 64 0 1)) = false /\
  (is_blocked_ip (IPv4 (v4 100 64 0 1)) = true <->
   (100 = 0 \/ 100 = 10 \/ 100 = 127 \/ (100 = 169 /\ 64 = 254) \/ (100 = 172 /\ 16 <= 64 <= 31) \/
    (100 = 192 /\ 64 = 168) \/ (224 <= 100 <= 239) \/
    (100 = 255 /\ 64 = 255 /\ 0 = 255 /\ 1 = 255))%N).
Proof.
  split; [vm_compute; reflexivity|].
  apply (is_blocked_ipv4_iff 100 64 0 1); lia.
Defined.

Lemma fetch_url_uses_at_most_six_requests_witness :
  fetch_url xs_resolve xs_urljoin xs_always_redirect None xs_sha "https://example.com/" "run-1"
  = fetch_url xs_resolve xs_urljoin xs_redirect_then_serve None xs_sha "https://example.com/" "run-1".
Proof.
  apply fetch_url_uses_at_most_six_requests.
  intros n u Hn. unfold xs_always_redirect, xs_redirect_then_serve.
  apply Nat.leb_le in Hn. unfold MAX_REDIRECTS in Hn. rewrite Hn. reflexivity.
Defined.

Lemma fetch_url_redirect_chain_no_document_witness :
  fetch_url xs_resolve xs_urljoin xs_always_redirect None xs_sha "https://example.com/" "run-1"
  = FReturn None (error_log "https://example.com/" "run-1" REDIRECT_LIMIT) /\
  ((exists l, fetch_url xs_resolve xs_urljoin xs_always_redirect None xs_sha
                "https://example.com/" "run-1" = FReturn None l) \/
   (exists e, fetch_url xs_resolve xs_urljoin xs_always_redirect None xs_sha
                "https://example.com/" "run-1" = FRaise e)).
Proof.
  split; [vm_compute; reflexivity|].
  apply fetch_url_redirect_chain_no_document.
  intros n u _. exists xs_redirect. split; reflexivity.
Defined.

Lemma fetch_url_log_consistent_witness :
  exists doc log,
    fetch_url xs_resolve xs_urljoin xs_serve None xs_sha "https://example.com/" "run-1"
    = FReturn doc log /\
    fl_url log = "https://example.com/" /\ fl_run_id log = "run-1" /\
    (doc = None <-> fl_error_code log <> None) /\
    (forall d, doc = Some d ->
       fl_status_code log = Some (fd_status_code d) /\
       fl_bytes_received log = Some (match fd_body_bytes d with
                                     | Some b => String.length b | None => 0 end)).
Proof.
  destruct (fetch_url xs_resolve xs_urljoin xs_serve None xs_sha "https://example.com/" "run-1")
    as [doc log|e] eqn:E; [|vm_compute in E; discriminate E].
  exists doc, log. split; [reflexivity|].
  exact (fetch_url_log_consistent xs_resolve xs_urljoin xs_serve None xs_sha
           "https://example.com/" "run-1" doc log E).
Defined.

Lemma content_limit_ignores_parameters_witness :
  content_limit_for_response (Some "application/pdf; charset=binary") = 0%N /\
  content_limit_for_response (Some ("application/pdf" ++ String ";" " charset=binary")%string)
  = content_limit_for_response (Some "application/pdf").
Proof.
  split; [vm_compute; reflexivity|].
  apply content_limit_ignores_parameters. reflexivity.
Defined.

End FetchExtraSamples.

Module StorageExtras.
Import Storage StorageFacts.
Local Open Scope list_scope.

Section Extras.
Variables Fields Rest : Type.
Variable canonicalize_url : string -> option string.
Variable hash_article_fields : Fields -> string.
Variable uuid4 : string -> nat -> string.

Local Notation Version := (Version Fields Rest).
Local Notation Article := (Article Fields).
Local Notation Evidence := (Evidence Rest).
Local Notation DB := (DB Fields Rest).
Local Notation upsert := (upsert_article canonicalize_url hash_article_fields).
Local Notation rollback := (rollback_run uuid4).
Local Notation reach := (reachable canonicalize_url hash_article_fields uuid4).

(** The deduplication key of an article row. *)
Definition article_key (a : Article) : string * string := (a_canonical_url a, a_source_id a).

(** No two article rows share an id, nor a (canonical URL, source id)
    pair. *)
Definition articles_unique (db : DB) : Prop :=
  NoDup (map a_id (articles db)) /\ NoDup (map article_key (articles db)).

Lemma NoDup_map_app_single : forall A B (f : A -> B) l x,
  NoDup (map f l) -> (forall y, In y l -> f y <> f x) -> NoDup (map f (l ++ [x])).
Proof.
  intros A B f l x Hnd Hx. rewrite map_app. simpl.
  apply NoDup_app; [exact Hnd | repeat constructor; intros [] |].
  intros b Hb [<- | []]. apply in_map_iff in Hb. destruct Hb as [y [Hy Hin]].
  exact (Hx y Hin Hy).
Qed.

Lemma NoDup_map_flat_map : forall A B (f : A -> B) (g : A -> list A) l,
  (forall a b, In b (g a) -> f b = f a) ->
  (forall a, length (g a) <= 1) ->
  NoDup (map f l) -> NoDup (map f (flat_map g l)).
Proof.
  intros A B f g l Hf Hlen. induction l as [|a r IH]; intros Hnd; simpl; [constructor|].
  inversion Hnd as [|? ? Hn Hnd']; subst.
  rewrite map_app. specialize (Hlen a).
  destruct (g a) as [|b [|c t]] eqn:Eg; simpl in Hlen |- *; [apply IH; exact Hnd'| |lia].
  constructor; [|apply IH; exact Hnd'].
  rewrite (Hf a b) by (rewrite Eg; left; reflexivity).
  intros Hin. apply Hn. apply in_map_iff in Hin. destruct Hin as [c [Ec Hc]].
  apply in_flat_map in Hc. destruct Hc as [a' [Ha' Hc]].
  rewrite <- Ec, (Hf a' c Hc). apply in_map. exact Ha'.
Qed.

Lemma final_article_shape : forall vs affected (a b : Article),
  In b (final_article Fields Rest vs affected a) ->
  a_id b = a_id a /\ article_key b = article_key a.
Proof.
  intros vs affected a b H.
  destruct (final_article_In Fields Rest vs affected b a H) as [(_ & v & _ & ->) | (_ & ->)];
    [|auto].
  destruct (restore_article_fields Fields Rest (a_id a) v a) as (E1 & E2 & E3).
  unfold article_key. rewrite E1, E2, E3. auto.
Qed.

Lemma final_article_length : forall vs affected (a : Article),
  length (final_article Fields Rest vs affected a) <= 1.
Proof.
  intros vs affected a. unfold final_article.
  destruct (inb _ _); [destruct (latest_version _ _)|]; simpl; lia.
Qed.

Lemma articles_unique_rollback : forall R (db : DB),
  articles_unique db -> articles_unique (rollback R db).
Proof.
  intros R db [H1 H2]. destruct (rollback_run_tables Fields Rest uuid4 R db) as (Ha & _).
  unfold articles_unique. rewrite Ha. split; apply NoDup_map_flat_map;
    try apply final_article_length; try assumption;
    intros a b Hb; apply (final_article_shape _ _ _ _ Hb).
Qed.

Lemma map_update_ids : forall (g : Article -> Article) (arts : list Article),
  (forall b, a_id (g b) = a_id b /\ article_key (g b) = article_key b) ->
  map a_id (map g arts) = map a_id arts /\ map article_key (map g arts) = map article_key arts.
Proof.
  intros g arts Hg. rewrite !map_map. split; apply map_ext; intros b; apply Hg.
Qed.

Lemma articles_unique_upsert : forall (db : DB) d evs run_id nid db' res,
  articles_unique db -> fresh_id nid db = true ->
  upsert d evs run_id nid db = Some (db', res) -> articles_unique db'.
Proof.
  intros db d evs run_id nid db' res [H1 H2] Hf Hu.
  destruct (upsert_cases Fields Rest canonicalize_url hash_article_fields db d evs run_id nid db'
              res Hu) as (url & _ & [[Hn ->] | [(a & _ & _ & ->) | (a & _ & _ & ->)]]).
  - destruct (fresh_id_spec Fields Rest nid db Hf) as [Hfa _].
    unfold articles_unique, insert_new_article. simpl. split.
    + apply NoDup_map_app_single; [exact H1|]. intros y Hy. simpl. apply Hfa. exact Hy.
    + apply NoDup_map_app_single; [exact H2|]. intros y Hy. unfold article_key. simpl.
      intros E. injection E as Eu Es.
      apply (find_none _ _ Hn) in Hy. rewrite Eu, Es, !String.eqb_refl in Hy. discriminate.
  - split; assumption.
  - unfold articles_unique, update_article. simpl.
    destruct (map_update_ids (fun b => if String.eqb (a_id b) (a_id a)
              then mkArticle (a_id b) (a_canonical_url b) (a_source_id b) (d_fields d)
                     (S (a_version a)) else b) (articles db)) as [E1 E2].
    { intros b. destruct (String.eqb (a_id b) (a_id a)); auto. }
    rewrite E1, E2. split; assumption.
Qed.

(** In every reachable state, article ids are unique and no two
    articles share a canonical URL and source id: [upsert_article]
    deduplicates on that pair, and [rollback_run] only deletes or
    restores rows in place. *)
Theorem reachable_articles_unique : forall db : DB, reach db -> articles_unique db.
Proof.
  intros db H. induction H as [| db d evs run_id nid db' res H IH Hf Hu
                              | db R H IH | db id H IH | db r H IH | db r H IH].
  - split; constructor.
  - exact (articles_unique_upsert _ _ _ _ _ _ _ IH Hf Hu).
  - apply articles_unique_rollback. exact IH.
  - exact IH.
  - exact IH.
  - exact IH.
Qed.

Lemma find_id_unique : forall (arts : list Article) a,
  NoDup (map a_id arts) -> In a arts ->
  find (fun b => String.eqb (a_id b) (a_id a)) arts = Some a.
Proof.
  induction arts as [|b r IH]; intros a Hnd Ha; [destruct Ha|].
  simpl in Hnd. inversion Hnd as [|? ? Hn Hnd']; subst. simpl.
  destruct Ha as [<- | Ha]; [rewrite String.eqb_refl; reflexivity|].
  destruct (String.eqb_spec (a_id b) (a_id a)) as [E|E]; [|apply IH; assumption].
  exfalso. apply Hn. rewrite E. apply in_map. exact Ha.
Qed.

Lemma find_map_same_key : forall (g : Article -> Article) (p : Article -> bool) arts,
  (forall b, p (g b) = p b) -> find p (map g arts) = option_map g (find p arts).
Proof.
  intros g p arts Hp. induction arts as [|b r IH]; simpl; [reflexivity|].
  rewrite Hp. destruct (p b); [reflexivity | exact IH].
Qed.

Lemma load_replaced_evidence : forall aid run_id (evs old : list Evidence),
  filter (fun e => String.eqb (e_article_id e) aid)
    (replace_evidence Rest aid (map (set_article_run Rest aid run_id) evs) old)
  = map (set_article_run Rest aid run_id) evs.
Proof.
  intros aid run_id evs old. unfold replace_evidence. rewrite filter_app.
  rewrite filter_filter_and.
  rewrite (filter_all_false_nil _ _ old)
    by (intros e _; destruct (String.eqb (e_article_id e) aid); reflexivity).
  simpl. apply filter_all. intros e He. apply in_map_iff in He. destruct He as [x [<- _]].
  apply String.eqb_refl.
Qed.

Lemma find_app_none : forall A (p : A -> bool) l r,
  (forall y, In y l -> p y = false) -> find p (l ++ r) = find p r.
Proof.
  intros A p l r H. induction l as [|x t IH]; simpl; [reflexivity|].
  rewrite (H x (or_introl eq_refl)). apply IH. intros y Hy. apply H. right. exact Hy.
Qed.

(** The three outcomes of [upsert_article], with the row it returns. *)
Lemma upsert_outcome : forall (db : DB) d evs run_id nid db' art evs' created updated,
  NoDup (map a_id (articles db)) -> fresh_id nid db = true ->
  upsert d evs run_id nid db = Some (db', ((art, evs'), created, updated)) ->
  exists url, canonicalize_url (d_canonical_url d) = Some url /\
  ((created = true /\ updated = false /\
    find_article url (d_source_id d) (articles db) = None /\
    art = mkArticle nid url (d_source_id d) (d_fields d) 1 /\
    evs' = map (set_article_run Rest nid run_id) evs /\
    db' = insert_new_article db nid url d evs run_id (hash_article_fields (d_fields d))) \/
   (created = false /\ updated = false /\ db' = db /\
    find_article url (d_source_id d) (articles db) = Some art) \/
   (created = false /\ updated = true /\
    exists a, find_article url (d_source_id d) (articles db) = Some a /\
    same_hash Fields Rest (latest_version (a_id a) (versions db))
      (hash_article_fields (d_fields d)) = false /\
    art = mkArticle (a_id a) url (d_source_id d) (d_fields d) (S (a_version a)) /\
    evs' = map (set_article_run Rest (a_id a) run_id) evs /\
    db' = update_article db a d evs run_id (hash_article_fields (d_fields d)))).
Proof.
  intros db d evs run_id nid db' art evs' created updated Hid Hf Hu.
  unfold upsert_article in Hu.
  destruct (canonicalize_url (d_canonical_url d)) as [url|]; [|discriminate].
  exists url. split; [reflexivity|].
  destruct (find_article url (d_source_id d) (articles db)) as [a|] eqn:Hfa.
  - destruct (find_article_spec Fields url (d_source_id d) (articles db) a Hfa)
      as (Ha & Hu1 & Hs1).
    destruct (same_hash Fields Rest (latest_version (a_id a) (versions db)) _) eqn:Hh.
    + right. left. unfold load_article in Hu. rewrite (find_id_unique _ a Hid Ha) in Hu.
      simpl in Hu. injection Hu as <- <- <- <- <-. auto.
    + right. right. unfold load_article in Hu. unfold update_article in Hu. simpl in Hu.
      rewrite find_map_same_key in Hu
        by (intros b; destruct (String.eqb (a_id b) (a_id a)) eqn:Eb; simpl; rewrite ?Eb; reflexivity).
      rewrite (find_id_unique _ a Hid Ha) in Hu. simpl in Hu. rewrite String.eqb_refl in Hu.
      injection Hu as <- <- <- <- <-. split; [reflexivity|]. split; [reflexivity|].
      exists a. split; [reflexivity|]. split; [exact Hh|].
      rewrite Hu1, Hs1. split; [reflexivity|]. split; [|reflexivity].
      apply load_replaced_evidence.
  - left. destruct (fresh_id_spec Fields Rest nid db Hf) as [Hfa' _].
    unfold load_article, insert_new_article in Hu. simpl in Hu.
    rewrite find_app_none in Hu
      by (intros y Hy; apply String.eqb_neq; exact (Hfa' y Hy)).
    simpl in Hu. rewrite String.eqb_refl in Hu.
    injection Hu as <- <- <- <- <-. split; [reflexivity|]. split; [reflexivity|].
    split; [reflexivity|]. split; [reflexivity|]. split; [|reflexivity].
    apply load_replaced_evidence.
Qed.

Lemma NoDup_map_inj_on : forall A B (f : A -> B) l x y,
  NoDup (map f l) -> In x l -> In y l -> f x = f y -> x = y.
Proof.
  intros A B f l. induction l as [|z r IH]; intros x y Hnd Hx Hy E; [destruct Hx|].
  simpl in Hnd. inversion Hnd as [|? ? Hn Hnd']; subst.
  destruct Hx as [<- | Hx]; destruct Hy as [<- | Hy]; [reflexivity | | | exact (IH x y Hnd' Hx Hy E)].
  - exfalso. apply Hn. rewrite E. apply in_map. exact Hy.
  - exfalso. apply Hn. rewrite <- E. apply in_map. exact Hx.
Qed.

Lemma filter_replace_evidence_other : forall aid run_id (evs old : list Evidence),
  filter (fun e => negb (String.eqb (e_article_id e) aid))
    (replace_evidence Rest aid (map (set_article_run Rest aid run_id) evs) old)
  = filter (fun e => negb (String.eqb (e_article_id e) aid)) old.
Proof.
  intros aid run_id evs old. unfold replace_evidence. rewrite filter_app.
  rewrite filter_filter_and.
  rewrite (filter_all_false_nil _ _ (map _ evs)).
  - rewrite app_nil_r. apply filter_ext. intros e. destruct (negb _); reflexivity.
  - intros e He. apply in_map_iff in He. destruct He as [x [<- _]].
    simpl. rewrite String.eqb_refl. reflexivity.
Qed.

(** When [upsert_article] reports [created], the returned article is
    version 1 of a new row with the fresh id, the canonical URL and
    source id of the draft and its fields; no stored article had that
    URL and source id; the evidence is re-keyed to the new id and the
    run, and one version row holding it is appended. *)
Theorem upsert_article_created : forall (db : DB) d evs run_id nid db' art evs' updated,
  reach db -> fresh_id nid db = true ->
  upsert d evs run_id nid db = Some (db', ((art, evs'), true, updated)) ->
  updated = false /\
  canonicalize_url (d_canonical_url d) = Some (a_canonical_url art) /\
  art = mkArticle nid (a_canonical_url art) (d_source_id d) (d_fields d) 1 /\
  (forall a, In a (articles db) -> article_key a <> article_key art) /\
  articles db' = articles db ++ [art] /\
  evs' = map (set_article_run Rest nid run_id) evs /\
  versions db' = versions db ++
    [mkVersion nid 1 (hash_article_fields (d_fields d)) (d_fields d) evs' run_id].
Proof.
  intros db d evs run_id nid db' art evs' updated H Hf Hu.
  destruct (reachable_articles_unique db H) as [Hid _].
  destruct (upsert_outcome db d evs run_id nid db' art evs' true updated Hid Hf Hu)
    as (url & Hc & [(_ & -> & Hn & -> & -> & ->) | [(E & _) | (E & _)]]);
    [| discriminate E | discriminate E].
  simpl. split; [reflexivity|]. split; [exact Hc|]. split; [reflexivity|].
  split; [|auto].
  intros a Ha E. unfold article_key in E. simpl in E. injection E as Eu Es.
  apply (find_none _ _ Hn) in Ha. rewrite Eu, Es, !String.eqb_refl in Ha. discriminate.
Qed.

(** When [upsert_article] reports [updated], the stored article with the
    draft's canonical URL and source id, whose latest version has another
    content hash, gets the draft's fields and the next version number in
    place; its evidence is replaced by the draft's, re-keyed to it and
    the run, and one version row holding it is appended. *)
Theorem upsert_article_updated : forall (db : DB) d evs run_id nid db' art evs' created,
  reach db -> fresh_id nid db = true ->
  upsert d evs run_id nid db = Some (db', ((art, evs'), created, true)) ->
  created = false /\
  canonicalize_url (d_canonical_url d) = Some (a_canonical_url art) /\
  exists a, In a (articles db) /\ article_key a = article_key art /\
    same_hash Fields Rest (latest_version (a_id a) (versions db))
      (hash_article_fields (d_fields d)) = false /\
    art = mkArticle (a_id a) (a_canonical_url a) (d_source_id d) (d_fields d)
            (S (a_version a)) /\
    articles db' = map (fun b => if String.eqb (a_id b) (a_id a) then art else b)
                     (articles db) /\
    evs' = map (set_article_run Rest (a_id a) run_id) evs /\
    filter (fun e => String.eqb (e_article_id e) (a_id a)) (evidence db') = evs' /\
    versions db' = versions db ++
      [mkVersion (a_id a) (S (a_version a)) (hash_article_fields (d_fields d))
         (d_fields d) evs' run_id].
Proof.
  intros db d evs run_id nid db' art evs' created H Hf Hu.
  destruct (reachable_articles_unique db H) as [Hid Hkey].
  destruct (upsert_outcome db d evs run_id nid db' art evs' created true Hid Hf Hu)
    as (url & Hc & [(_ & E & _) | [(_ & E & _) | (-> & _ & a & Hfa & Hh & -> & -> & ->)]]);
    [discriminate E | discriminate E |].
  destruct (find_article_spec Fields url (d_source_id d) (articles db) a Hfa) as (Ha & Hu1 & Hs1).
  split; [reflexivity|]. split; [exact Hc|].
  exists a. split; [exact Ha|]. unfold article_key. simpl. rewrite Hu1, Hs1.
  split; [reflexivity|]. split; [exact Hh|]. split; [reflexivity|].
  unfold update_article. simpl. split.
  - apply map_ext_in. intros b Hb. destruct (String.eqb_spec (a_id b) (a_id a)) as [E|E];
      [|reflexivity].
    assert (b = a).
    { apply (NoDup_map_inj_on _ _ a_id (articles db)); assumption. }
    subst b. rewrite Hu1, Hs1. reflexivity.
  - split; [reflexivity|]. split; [apply load_replaced_evidence | reflexivity].
Qed.

Definition cancel_run (R : string) (p : string * string) : string * string :=
  if String.eqb (fst p) R then (fst p, "CANCELLED") else p.

Lemma rollback_run_log : forall R (db : DB),
  run_log (rollback R db) = map (cancel_run R) (run_log db).
Proof.
  intros R db. unfold rollback_run. destruct (fold_left _ _ _). reflexivity.
Qed.

Lemma rollback_run_clean : forall R (db : DB),
  (forall v, In v (versions db) -> v_run_id v <> R) ->
  (forall e, In e (evidence db) -> e_run_id e <> R) ->
  (forall r, In r (fetch_log db) -> rr_run_id r <> R) ->
  (forall r, In r (merge_decisions db) -> rr_run_id r <> R) ->
  rollback R db = mkDB (articles db) (evidence db) (versions db) (fetch_log db)
                       (merge_decisions db) (map (cancel_run R) (run_log db)).
Proof.
  intros R [arts evs vs fl md rl] Hv He Hf Hm. simpl in *. unfold rollback_run. simpl.
  assert (Ea : affected_article_ids Fields Rest R vs = []).
  { unfold affected_article_ids. rewrite filter_all_false_nil; [reflexivity|].
    intros v Hv'. apply String.eqb_neq. exact (Hv v Hv'). }
  rewrite Ea. simpl.
  rewrite (filter_all _ _ evs) by (intros e He'; apply negb_true_iff, String.eqb_neq; auto).
  rewrite (filter_all _ _ vs) by (intros v Hv'; apply negb_true_iff, String.eqb_neq; auto).
  rewrite (filter_all _ _ fl) by (intros r Hr'; apply negb_true_iff, String.eqb_neq; auto).
  rewrite (filter_all _ _ md) by (intros r Hr'; apply negb_true_iff, String.eqb_neq; auto).
  reflexivity.
Qed.

(** [rollback_run] changes nothing in a store that holds no row of the
    run and where the run is already cancelled. *)
Lemma rollback_run_fixed : forall R (db : DB),
  (forall v, In v (versions db) -> v_run_id v <> R) ->
  (forall e, In e (evidence db) -> e_run_id e <> R) ->
  (forall r, In r (fetch_log db) -> rr_run_id r <> R) ->
  (forall r, In r (merge_decisions db) -> rr_run_id r <> R) ->
  (forall p, In p (run_log db) -> cancel_run R p = p) ->
  rollback R db = db.
Proof.
  intros R db Hv He Hf Hm Hr. rewrite rollback_run_clean by assumption.
  destruct db as [arts evs vs fl md rl]. simpl in *. f_equal.
  rewrite <- (map_id rl) at 2. apply map_ext_in. exact Hr.
Qed.


Lemma restored_evidence_run : forall R (db : DB) aid e,
  snapshots_ok Fields Rest db -> R <> "snapshot" ->
  In e (restored_evidence Fields Rest uuid4
          (filter (fun v => negb (String.eqb (v_run_id v) R)) (versions db)) aid) ->
  e_run_id e <> R.
Proof.
  intros R db aid e Hs HR He. unfold restored_evidence in He.
  destruct (latest_version aid _) as [v|] eqn:El; [|destruct He].
  destruct (latest_version_spec Fields Rest aid _ v El) as [Hv _].
  apply filter_In in Hv. destruct Hv as [Hv HvR]. apply negb_true_iff, String.eqb_neq in HvR.
  unfold deserialize_evidence_snapshot in He.
  destruct (restore_from_In Rest uuid4 aid 0 _ e He) as (j & x & Hx & ->).
  unfold restore_item. simpl. destruct (String.eqb (e_run_id x) "") ; [exact (not_eq_sym HR)|].
  rewrite (Hs v Hv x Hx). exact HvR.
Qed.

(** Rolling back the same run twice is the same as rolling it back once,
    for a run id other than ["snapshot"]: the first rollback deletes
    every row carrying the run, and the evidence it restores carries the
    run ids of older versions or ["snapshot"]. *)
Theorem rollback_run_idempotent : forall R (db : DB),
  reach db -> R <> "snapshot" -> rollback R (rollback R db) = rollback R db.
Proof.
  intros R db H HR. destruct (reachable_invariants Fields Rest canonicalize_url
                               hash_article_fields uuid4 db H) as [_ Hs].
  destruct (rollback_run_tables Fields Rest uuid4 R db) as (_ & He & Hv & Hf & Hm).
  apply rollback_run_fixed.
  - rewrite Hv. intros v Hv'. apply filter_In in Hv'. destruct Hv' as [_ E].
    apply negb_true_iff, String.eqb_neq in E. exact E.
  - rewrite He. intros e He'. apply in_app_or in He'. destruct He' as [He' | He'].
    + apply filter_In in He'. destruct He' as [He' _]. apply filter_In in He'.
      destruct He' as [_ E]. apply negb_true_iff, String.eqb_neq in E. exact E.
    + apply in_flat_map in He'. destruct He' as [aid [_ He']].
      exact (restored_evidence_run R db aid e Hs HR He').
  - rewrite Hf. intros r Hr. apply filter_In in Hr. destruct Hr as [_ E].
    unfold keep_run in E. apply negb_true_iff, String.eqb_neq in E. exact E.
  - rewrite Hm. intros r Hr. apply filter_In in Hr. destruct Hr as [_ E].
    unfold keep_run in E. apply negb_true_iff, String.eqb_neq in E. exact E.
  - rewrite rollback_run_log. intros p Hp. apply in_map_iff in Hp. destruct Hp as [q [<- _]].
    unfold cancel_run. destruct (String.eqb_spec (fst q) R) as [E|E]; simpl.
    + rewrite E, String.eqb_refl. reflexivity.
    + apply String.eqb_neq in E. rewrite E. reflexivity.
Qed.

Lemma final_article_nil : forall vs affected (a : Article),
  final_article Fields Rest vs affected a = [] <->
  In (a_id a) affected /\ forall w, In w vs -> v_article_id w <> a_id a.
Proof.
  intros vs affected a. unfold final_article. rewrite <- inb_In, <- latest_version_none.
  destruct (inb (a_id a) affected); [|split; [discriminate | intros [E _]; discriminate E]].
  destruct (latest_version (a_id a) vs); split; try discriminate; try tauto.
  intros [_ E]; discriminate E.
Qed.

(** [rollback_run] deletes an article (its row and, with it, every row
    of that id) exactly when the run wrote a version of it and every
    version row of it was written by the run; otherwise the row stays,
    restored or untouched. *)
Theorem rollback_run_deletes_iff : forall R (db : DB) a,
  In a (articles db) ->
  ((forall b, In b (articles (rollback R db)) -> a_id b <> a_id a) <->
   (exists w, In w (versions db) /\ v_article_id w = a_id a /\ v_run_id w = R) /\
   (forall w, In w (versions db) -> v_article_id w = a_id a -> v_run_id w = R)).
Proof.
  intros R db a Ha. destruct (rollback_run_tables Fields Rest uuid4 R db) as (Har & _).
  rewrite Har.
  set (vs' := filter (fun v => negb (String.eqb (v_run_id v) R)) (versions db)).
  set (aff := affected_article_ids Fields Rest R (versions db)).
  assert (Hn : final_article Fields Rest vs' aff a = [] <->
     (exists w, In w (versions db) /\ v_article_id w = a_id a /\ v_run_id w = R) /\
     (forall w, In w (versions db) -> v_article_id w = a_id a -> v_run_id w = R)).
  { rewrite final_article_nil. unfold aff. rewrite affected_In. unfold vs'.
    split; intros [H1 H2]; split; try exact H1.
    - intros w Hw Ew. destruct (String.eqb_spec (v_run_id w) R) as [E|E]; [exact E|].
      exfalso. apply (H2 w); [apply filter_In; split; [exact Hw|] | exact Ew].
      apply negb_true_iff, String.eqb_neq. exact E.
    - intros w Hw Ew. apply filter_In in Hw. destruct Hw as [Hw E].
      apply negb_true_iff, String.eqb_neq in E. exact (E (H2 w Hw Ew)). }
  rewrite <- Hn. split.
  - intros H. destruct (final_article Fields Rest vs' aff a) as [|b t] eqn:Ef; [reflexivity|].
    exfalso. assert (Hb : In b (final_article Fields Rest vs' aff a)) by (rewrite Ef; left; reflexivity).
    apply (H b); [apply in_flat_map; exists a; split; assumption|].
    exact (proj1 (final_article_shape _ _ _ _ Hb)).
  - intros H b Hb E. apply in_flat_map in Hb. destruct Hb as [c [Hc Hb]].
    pose proof (proj1 (final_article_shape _ _ _ _ Hb)) as Ebc.
    assert (Hc0 : final_article Fields Rest vs' aff c = []).
    { apply final_article_nil. apply final_article_nil in H. rewrite <- Ebc, E. exact H. }
    rewrite Hc0 in Hb. destruct Hb.
Qed.

(** [upsert_article] touches only the rows of the article it returns:
    every other article row and every evidence row of another article is
    kept as it was, version rows are only appended, and only for that
    article, and the fetch log, merge decision and run log tables are
    left alone. *)
Theorem upsert_article_frame : forall (db : DB) d evs run_id nid db' art evs' created updated,
  reach db -> fresh_id nid db = true ->
  upsert d evs run_id nid db = Some (db', ((art, evs'), created, updated)) ->
  (forall b, a_id b <> a_id art -> (In b (articles db') <-> In b (articles db))) /\
  filter (fun e => negb (String.eqb (e_article_id e) (a_id art))) (evidence db')
  = filter (fun e => negb (String.eqb (e_article_id e) (a_id art))) (evidence db) /\
  (exists vs, versions db' = versions db ++ vs /\
     forall v, In v vs -> v_article_id v = a_id art) /\
  fetch_log db' = fetch_log db /\ merge_decisions db' = merge_decisions db /\
  run_log db' = run_log db.
Proof.
  intros db d evs run_id nid db' art evs' created updated H Hf Hu.
  destruct (reachable_articles_unique db H) as [Hid _].
  destruct (upsert_outcome db d evs run_id nid db' art evs' created updated Hid Hf Hu)
    as (url & _ & [(_ & _ & _ & -> & _ & ->) | [(_ & _ & -> & _) |
                   (_ & _ & a & _ & _ & -> & _ & ->)]]).
  - unfold insert_new_article. simpl. split; [|split; [|split]].
    + intros b Hb. rewrite in_app_iff. simpl. split; [|tauto].
      intros [Hb' | [<- | []]]; [exact Hb'|]. exfalso. apply Hb. reflexivity.
    + apply filter_replace_evidence_other.
    + eexists. split; [reflexivity|]. intros v [<- | []]. reflexivity.
    + auto.
  - split; [tauto|]. split; [reflexivity|]. split; [|auto].
    exists []. split; [symmetry; apply app_nil_r | intros v []].
  - unfold update_article. simpl. split; [|split; [|split]].
    + intros b Hb. rewrite in_map_iff. split.
      * intros [c [Ec Hc]]. destruct (String.eqb_spec (a_id c) (a_id a)) as [E|E].
        -- exfalso. apply Hb. rewrite <- Ec. simpl. exact E.
        -- rewrite <- Ec. exact Hc.
      * intros Hb'. exists b. split; [|exact Hb'].
        apply String.eqb_neq in Hb. rewrite Hb. reflexivity.
    + apply filter_replace_evidence_other.
    + eexists. split; [reflexivity|]. intros v [<- | []]. reflexivity.
    + auto.
Qed.

End Extras.

End StorageExtras.

Module StorageExtraSamples.
Import Storage StorageSamples StorageExtras.
Local Open Scope list_scope.

(** The store after run ["r1"] stored the sample draft with title v1. *)
Definition x_db1 : DB string unit := s_step "v1" "r1" "a1" empty_db.

Lemma x_db1_reachable : reachable s_canon s_hash s_uuid x_db1.
Proof. apply s_step_reachable; [constructor | reflexivity]. Qed.

Lemma reachable_articles_unique_witness :
  articles_unique string unit c7_db.
Proof.
  exact (reachable_articles_unique string unit s_canon s_hash s_uuid c7_db c7_db_reachable).
Defined.

Lemma upsert_article_created_witness :
  exists db' art evs',
    upsert_article s_canon s_hash (s_draft "v1") s_evidence "r1" "a1" empty_db
    = Some (db', ((art, evs'), true, false)) /\
    art = mkArticle "a1" "https://example.com/a" "src-1" "v1" 1 /\
    versions db' = [mkVersion "a1" 1 "v1" "v1" evs' "r1"].
Proof.
  destruct (upsert_article s_canon s_hash (s_draft "v1") s_evidence "r1" "a1" empty_db)
    as [[db' [[[art evs'] c] u]]|] eqn:E; [|vm_compute in E; discriminate E].
  assert (Ec : c = true) by (vm_compute in E; injection E as _ _ _ Ec _; symmetry; exact Ec).
  subst c.
  destruct (upsert_article_created string unit s_canon s_hash s_uuid empty_db (s_draft "v1")
              s_evidence "r1" "a1" db' art evs' u (reach_empty _ _ _ _ _) eq_refl E)
    as (-> & Hc & Ha & _ & _ & _ & Hv).
  exists db', art, evs'. split; [reflexivity|]. simpl in Hc. injection Hc as Hc.
  rewrite Ha, <- Hc. split; [reflexivity | exact Hv].
Defined.

Lemma upsert_article_updated_witness :
  exists db' art evs',
    upsert_article s_canon s_hash (s_draft "v2") s_evidence "r2" "a2" x_db1
    = Some (db', ((art, evs'), false, true)) /\
    a_id art = "a1" /\ a_version art = 2 /\ a_fields art = "v2".
Proof.
  destruct (upsert_article s_canon s_hash (s_draft "v2") s_evidence "r2" "a2" x_db1)
    as [[db' [[[art evs'] c] u]]|] eqn:E; [|vm_compute in E; discriminate E].
  assert (Eu : u = true) by (vm_compute in E; injection E as _ _ _ _ Eu; symmetry; exact Eu).
  subst u.
  destruct (upsert_article_updated string unit s_canon s_hash s_uuid x_db1 (s_draft "v2")
              s_evidence "r2" "a2" db' art evs' c x_db1_reachable
              ltac:(vm_compute; reflexivity) E)
    as (-> & _ & a & Ha & _ & _ & Hart & _).
  exists db', art, evs'. split; [reflexivity|].
  vm_compute in Ha. destruct Ha as [<- | []]. rewrite Hart. auto.
Defined.

Lemma upsert_article_frame_witness :
  exists db' art evs',
    upsert_article s_canon s_hash (s_draft "v2") s_evidence "r2" "a2" x_db1
    = Some (db', ((art, evs'), false, true)) /\
    fetch_log db' = fetch_log x_db1 /\
    exists vs, versions db' = versions x_db1 ++ vs /\
      forall v, In v vs -> v_article_id v = a_id art.
Proof.
  destruct (upsert_article s_canon s_hash (s_draft "v2") s_evidence "r2" "a2" x_db1)
    as [[db' [[[art evs'] c] u]]|] eqn:E; [|vm_compute in E; discriminate E].
  assert (Ecu : c = false /\ u = true)
    by (vm_compute in E; injection E as _ _ _ Ec Eu; split; symmetry; assumption).
  destruct Ecu; subst c u.
  destruct (upsert_article_frame string unit s_canon s_hash s_uuid x_db1 (s_draft "v2")
              s_evidence "r2" "a2" db' art evs' false true x_db1_reachable
              ltac:(vm_compute; reflexivity) E)
    as (_ & _ & Hv & Hf & _).
  exists db', art, evs'. auto.
Defined.

Lemma rollback_run_idempotent_witness :
  rollback_run s_uuid "r1" (rollback_run s_uuid "r1" c7_db) = rollback_run s_uuid "r1" c7_db.
Proof.
  apply (rollback_run_idempotent string unit s_canon s_hash s_uuid "r1" c7_db c7_db_reachable).
  discriminate.
Defined.

Lemma rollback_run_deletes_iff_witness :
  (forall b, In b (articles (rollback_run s_uuid "r2" x_db1)) -> a_id b <> "a1") <->
  (exists w, In w (versions x_db1) /\ v_article_id w = "a1" /\ v_run_id w = "r2") /\
  (forall w, In w (versions x_db1) -> v_article_id w = "a1" -> v_run_id w = "r2").
Proof.
  exact (rollback_run_deletes_iff string unit s_uuid "r2" x_db1
           (mkArticle "a1" "https://example.com/a" "src-1" "v1" 1)
           ltac:(vm_compute; left; reflexivity)).
Defined.


End StorageExtraSamples.

Module ExtractExtras.
Import UText Extract ExtractFacts.
Local Open Scope list_scope.
#[local] Arguments u : simpl never.

Ltac enforce_cases d evs :=
  destruct (d_title _ d) eqn:?; [destruct (has_claim CLAIM_TITLE evs) eqn:?|];
  destruct (d_author_hint _ d) eqn:?; try (destruct (has_claim CLAIM_AUTHOR evs) eqn:?);
  destruct (d_published_at _ d) eqn:?; try (destruct (has_claim CLAIM_PUBLISHED evs) eqn:?).

(** Running [enforce_evidence_coverage] a second time over the same
    evidence list changes nothing and warns about nothing. *)
Theorem enforce_evidence_coverage_idempotent : forall dt (d : ArticleDraft dt) evs d' w,
  enforce_evidence_coverage dt d evs = (d', w) ->
  enforce_evidence_coverage dt d' evs = (d', []).
Proof.
  intros dt d evs d' w H. unfold enforce_evidence_coverage in H.
  enforce_cases d evs; injection H as <- _; unfold enforce_evidence_coverage; simpl;
    repeat match goal with E : has_claim _ _ = _ |- _ => rewrite E end; reflexivity.
Qed.

(** 1 when a field was set before and is null after. *)
Definition dropped {A} (before after : option A) : nat :=
  match before, after with Some _, None => 1 | _, _ => 0 end.

(** [enforce_evidence_coverage] only nulls fields: the URL, source id
    and snippet are kept and every other field is kept or set to null;
    it returns one warning per field it nulled, so no warning exactly
    when the draft is left as it was. *)
Theorem enforce_evidence_coverage_warnings : forall dt (d : ArticleDraft dt) evs d' w,
  enforce_evidence_coverage dt d evs = (d', w) ->
  d_canonical_url dt d' = d_canonical_url dt d /\ d_source_id dt d' = d_source_id dt d /\
  d_snippet dt d' = d_snippet dt d /\
  (d_title dt d' = d_title dt d \/ d_title dt d' = None) /\
  (d_author_hint dt d' = d_author_hint dt d \/ d_author_hint dt d' = None) /\
  (d_published_at dt d' = d_published_at dt d \/ d_published_at dt d' = None) /\
  length w = dropped (d_title dt d) (d_title dt d')
             + dropped (d_author_hint dt d) (d_author_hint dt d')
             + dropped (d_published_at dt d) (d_published_at dt d') /\
  (w = [] <-> d' = d).
Proof.
  intros dt [cu sid t a p sn] evs d' w H. unfold enforce_evidence_coverage in H. simpl in *.
  destruct t as [t|]; [destruct (has_claim CLAIM_TITLE evs)|];
  destruct a as [a|]; try (destruct (has_claim CLAIM_AUTHOR evs));
  destruct p as [p|]; try (destruct (has_claim CLAIM_PUBLISHED evs));
  injection H as <- <-; simpl;
    (split; [reflexivity|]); (split; [reflexivity|]); (split; [reflexivity|]);
    (split; [auto|]); (split; [auto|]); (split; [auto|]); (split; [reflexivity|]);
    split; intros E; solve [reflexivity | discriminate E].
Qed.

(** A [name] on which [_add] raises: truthy, and not a string (so it
    has no [split]). *)
Definition bad_name (o : option jval) : bool :=
  jtruthy o && match o with Some (JStr _) => false | _ => true end.

(** The [author] values on which [_extract_jsonld_author_names] raises. *)
Definition author_raises (raw : option jval) : bool :=
  match raw with
  | Some (JObj kvs) => bad_name (dict_get kvs (u "name"))
  | Some (JList items) =>
      existsb (fun it => match it with JObj kvs => bad_name (dict_get kvs (u "name"))
                                     | _ => false end) items
  | _ => false
  end.

Definition names_ok (names : list ustr) : Prop :=
  NoDup names /\ forall n, In n names -> n <> [].

Lemma add_name_none : forall names o, add_name names o = None <-> bad_name o = true.
Proof.
  intros names o. unfold add_name, bad_name.
  destruct (jtruthy o); simpl; [|split; discriminate].
  destruct o as [[s| | |]|]; split; (discriminate || reflexivity || idtac).
  destruct (_ && _); discriminate.
Qed.

Lemma add_name_ok : forall names o names',
  names_ok names -> add_name names o = Some names' -> names_ok names'.
Proof.
  intros names o names' [Hnd Hne] H. unfold add_name in H.
  destruct (jtruthy o); simpl in H; [|injection H as <-; split; assumption].
  destruct o as [[s| | |]|]; try discriminate.
  destruct (negb (ustr_eqb (normalize_ws s) [])) eqn:E1;
    destruct (existsb (ustr_eqb (normalize_ws s)) names) eqn:E2; simpl in H;
    injection H as <-; try (split; assumption).
  split.
  - apply NoDup_app; [exact Hnd | repeat constructor; intros [] |].
    intros x Hx [<- | []].
    assert (existsb (ustr_eqb (normalize_ws s)) names = true)
      by (apply existsb_exists; exists (normalize_ws s); split; [exact Hx | apply ustr_eqb_eq; reflexivity]).
    congruence.
  - intros n Hn. apply in_app_or in Hn. destruct Hn as [Hn | [<- | []]]; [auto|].
    intros E. rewrite E in E1. discriminate E1.
Qed.

Definition author_step (acc : option (list ustr)) (it : jval) : option (list ustr) :=
  match acc with
  | None => None
  | Some names =>
      match it with
      | JStr s => add_name names (Some (JStr s))
      | JObj kvs => add_name names (dict_get kvs (u "name"))
      | _ => Some names
      end
  end.

Lemma author_fold_none : forall items, fold_left author_step items None = None.
Proof. induction items; simpl; auto. Qed.

Lemma author_fold_spec : forall items names,
  names_ok names ->
  match fold_left author_step items (Some names) with
  | Some names' => names_ok names'
  | None => True
  end /\
  (fold_left author_step items (Some names) = None <->
   existsb (fun it => match it with JObj kvs => bad_name (dict_get kvs (u "name"))
                                  | _ => false end) items = true).
Proof.
  induction items as [|it r IH]; intros names Hok; simpl; [split; [exact Hok | split; discriminate]|].
  destruct it as [s|l|kvs|t]; simpl.
  - destruct (add_name names (Some (JStr s))) as [n'|] eqn:E.
    + apply (IH n'). exact (add_name_ok _ _ _ Hok E).
    + apply add_name_none in E. unfold bad_name in E. rewrite andb_false_r in E. discriminate E.
  - apply IH. exact Hok.
  - destruct (add_name names (dict_get kvs (u "name"))) as [n'|] eqn:E.
    + assert (Hb : bad_name (dict_get kvs (u "name")) = false).
      { destruct (bad_name _) eqn:Eb; [|reflexivity]. apply (add_name_none names) in Eb. congruence. }
      rewrite Hb. simpl. apply (IH n'). exact (add_name_ok _ _ _ Hok E).
    + apply add_name_none in E. rewrite E. simpl. rewrite author_fold_none.
      split; [exact I | split; reflexivity].
  - apply IH. exact Hok.
Qed.

(** The body of [_extract_jsonld_author_names] once [raw =
    block.get("author")] is read from a non-empty block. *)
Definition author_names_of (raw : option jval) : option (list ustr) :=
  match raw with
  | Some (JStr s) => add_name [] (Some (JStr s))
  | Some (JObj kvs) => add_name [] (dict_get kvs (u "name"))
  | Some (JList items) => fold_left author_step items (Some [])
  | _ => Some []
  end.

(** The author names [_extract_jsonld_author_names] collects from an
    [author] value are distinct and non-empty. *)
Theorem author_names_distinct : forall raw names,
  author_names_of raw = Some names ->
  NoDup names /\ forall n, In n names -> n <> [].
Proof.
  intros raw names H. assert (H0 : names_ok []) by (split; [constructor | intros n []]).
  unfold author_names_of in H.
  destruct raw as [[s|items|kvs|x]|]; try (injection H as <-; exact H0).
  - exact (add_name_ok _ _ _ H0 H).
  - destruct (author_fold_spec items [] H0) as [Hs _]. rewrite H in Hs. exact Hs.
  - exact (add_name_ok _ _ _ H0 H).
Qed.

(** Collecting the author names raises exactly when the [author] value
    is a dict, or a list holding a dict, whose [name] is truthy but not a
    string; a string author, or string items, never make it raise. *)
Theorem author_names_raises_iff : forall raw,
  author_names_of raw = None <-> author_raises raw = true.
Proof.
  intros raw. unfold author_names_of, author_raises.
  destruct raw as [[s|items|kvs|x]|]; try (split; discriminate).
  - split; [|discriminate]. intros H. apply add_name_none in H. unfold bad_name in H.
    rewrite andb_false_r in H. discriminate H.
  - apply (author_fold_spec items []). split; [constructor | intros n []].
  - apply add_name_none.
Qed.

Lemma lstrip_suffix : forall l, exists pre, l = pre ++ lstrip l.
Proof.
  induction l as [|c r IH]; simpl; [exists []; reflexivity|].
  destruct (is_uspace c); [|exists []; reflexivity].
  destruct IH as [pre E]. exists (c :: pre). simpl. rewrite <- E. reflexivity.
Qed.

Lemma lstrip_head : forall l, lstrip l = [] \/ exists c r, lstrip l = c :: r /\ is_uspace c = false.
Proof.
  induction l as [|c r IH]; simpl; [left; reflexivity|].
  destruct (is_uspace c) eqn:E; [exact IH | right; exists c, r; auto].
Qed.

Lemma rstrip_prefix : forall l, exists q, l = rstrip l ++ q.
Proof.
  intros l. destruct (lstrip_suffix (rev l)) as [pre E]. exists (rev pre).
  unfold rstrip. rewrite <- rev_app_distr, <- E, rev_involutive. reflexivity.
Qed.

Lemma rstrip_last : forall l,
  rstrip l = [] \/ exists p c, rstrip l = p ++ [c] /\ is_uspace c = false.
Proof.
  intros l. unfold rstrip. destruct (lstrip_head (rev l)) as [E | (c & r & E & Hc)];
    rewrite E; [left; reflexivity|]. right. exists (rev r), c. split; [reflexivity | exact Hc].
Qed.

Lemma drop_through_space_suffix : forall l b,
  drop_through_space l = Some b -> exists pre, l = pre ++ b.
Proof.
  induction l as [|c r IH]; intros b H; simpl in H; [discriminate|].
  destruct (N.eqb c SPACE); [injection H as <-; exists [c]; reflexivity|].
  destruct (IH b H) as [pre E]. exists (c :: pre). simpl. rewrite <- E. reflexivity.
Qed.

Lemma rsplit_space_head_prefix : forall t, exists q, t = rsplit_space_head t ++ q.
Proof.
  intros t. unfold rsplit_space_head. destruct (drop_through_space (rev t)) as [b|] eqn:E;
    [|exists []; symmetry; apply app_nil_r].
  destruct (drop_through_space_suffix _ _ E) as [pre Ep]. exists (rev pre).
  rewrite <- rev_app_distr, <- Ep, rev_involutive. reflexivity.
Qed.

Lemma prefix_trans : forall (a b c : ustr), (exists q, b = a ++ q) -> (exists q, c = b ++ q) ->
  exists q, c = a ++ q.
Proof.
  intros a b c [q1 E1] [q2 E2]. exists (q1 ++ q2). rewrite E2, E1, app_assoc. reflexivity.
Qed.

(** [_truncate_with_ellipsis] returns at most [max_chars + 1] code
    points. When the whitespace-normalized text is longer than
    [max_chars], the result is a prefix of it of at most [max_chars] code
    points, ending in no whitespace, followed by the ellipsis. *)
Theorem truncate_with_ellipsis_prefix : forall text max_chars,
  length (truncate_with_ellipsis text max_chars) <= max_chars + 1 /\
  (max_chars < length (normalize_ws text) ->
   exists p q, truncate_with_ellipsis text max_chars = p ++ [ELLIPSIS] /\
     normalize_ws text = p ++ q /\ length p <= max_chars /\
     (p = [] \/ exists p' c, p = p' ++ [c] /\ is_uspace c = false)).
Proof.
  intros text max_chars. unfold truncate_with_ellipsis.
  set (n := normalize_ws text).
  destruct (Nat.leb_spec (length n) max_chars) as [Hle|Hgt].
  - split; [lia | intros H; lia].
  - rewrite firstn_firstn, Nat.min_l by lia.
    set (t0 := firstn max_chars n).
    assert (H0 : exists q, n = t0 ++ q) by (exists (skipn max_chars n); symmetry; apply firstn_skipn).
    assert (Hl0 : length t0 <= max_chars) by (unfold t0; rewrite length_firstn; lia).
    set (t1 := if negb (ends_with_space t0) && has_space t0 then rsplit_space_head t0 else t0).
    assert (H1 : exists q, t0 = t1 ++ q).
    { unfold t1. destruct (_ && _); [apply rsplit_space_head_prefix | exists []; symmetry; apply app_nil_r]. }
    destruct (rstrip_prefix t1) as [q2 E2].
    assert (Hp : exists q, n = rstrip t1 ++ q)
      by (apply (prefix_trans _ t1); [exists q2; exact E2 | apply (prefix_trans _ t0); assumption]).
    assert (Hlp : length (rstrip t1) <= max_chars).
    { destruct H1 as [q1 E1]. apply (f_equal (@length N)) in E1, E2.
      rewrite length_app in E1, E2. lia. }
    split; [rewrite length_app; simpl; lia|].
    intros _. destruct Hp as [q Hq]. exists (rstrip t1), q.
    split; [reflexivity|]. split; [exact Hq|]. split; [exact Hlp | apply rstrip_last].
Qed.

End ExtractExtras.

Module ExtractExtraSamples.
Import UText Extract ExtractExtras.
Local Open Scope list_scope.

(** A draft with a title and an author, and evidence for the title only. *)
Definition x_draft : ArticleDraft ustr :=
  mkDraft ustr (u "https://example.com/a") (u "rss:test") (Some (u "Title")) (Some (u "Jane Doe"))
    None None.

Definition x_evs : list Evidence :=
  [mkEvidence DRAFT_ARTICLE_ID CLAIM_TITLE META_TAG (u "https://example.com/a") (u "Title")
     (u "run-1") (u "meta.og:title") (u "og:title")].

Definition x_covered : ArticleDraft ustr :=
  mkDraft ustr (u "https://example.com/a") (u "rss:test") (Some (u "Title")) None None None.

Lemma enforce_evidence_coverage_idempotent_witness :
  enforce_evidence_coverage ustr x_draft x_evs = (x_covered, [u "author_hint"]) /\
  enforce_evidence_coverage ustr x_covered x_evs = (x_covered, []).
Proof.
  assert (H : enforce_evidence_coverage ustr x_draft x_evs = (x_covered, [u "author_hint"]))
    by (vm_compute; reflexivity).
  split; [exact H | exact (enforce_evidence_coverage_idempotent ustr _ _ _ _ H)].
Defined.

Lemma enforce_evidence_coverage_warnings_witness :
  length [u "author_hint"] = dropped (Some (u "Jane Doe")) (d_author_hint ustr x_covered) /\
  ([u "author_hint"] = [] <-> x_covered = x_draft).
Proof.
  destruct (enforce_evidence_coverage_warnings ustr x_draft x_evs x_covered [u "author_hint"]
              ltac:(vm_compute; reflexivity)) as (_ & _ & _ & _ & _ & _ & Hl & Hw).
  split; [reflexivity | exact Hw].
Defined.

(** An [author] list with a repeated name, spelled with extra spaces. *)
Definition x_authors : option jval :=
  Some (JList [JStr (u "Jane  Doe"); JObj [(u "name", JStr (u "Jane Doe"))];
               JOther true; JStr (u " John ")]).

Lemma author_names_distinct_witness :
  author_names_of x_authors = Some [u "Jane Doe"; u "John"] /\
  NoDup [u "Jane Doe"; u "John"].
Proof.
  assert (H : author_names_of x_authors = Some [u "Jane Doe"; u "John"])
    by (vm_compute; reflexivity).
  split; [exact H | exact (proj1 (author_names_distinct _ _ H))].
Defined.

Lemma truncate_with_ellipsis_prefix_witness :
  exists p q, truncate_with_ellipsis (u "Hello  wonderful world") 12 = p ++ [ELLIPSIS] /\
    normalize_ws (u "Hello  wonderful world") = p ++ q /\ length p <= 12.
Proof.
  destruct (truncate_with_ellipsis_prefix (u "Hello  wonderful world") 12) as [_ H].
  destruct (H ltac:(apply Nat.ltb_lt; vm_compute; reflexivity)) as (p & q & H1 & H2 & H3 & _).
  exists p, q. split; [exact H1 | split; [exact H2 | exact H3]].
Defined.

End ExtractExtraSamples.

Module UrlExtras.
Import Py UrlLib UrlNorm.

Lemma contains_app : forall x a b, contains x (a ++ b) = contains x a || contains x b.
Proof.
  intros x a b. induction a as [|c a IH]; simpl; [reflexivity|]. rewrite IH, orb_assoc. reflexivity.
Qed.

Lemma contains_lower : forall s, contains "#" (lower s) = contains "#" s.
Proof.
  induction s as [|c s IH]; simpl; [reflexivity|]. rewrite IH. f_equal.
  destruct c as [[] [] [] [] [] [] [] []]; reflexivity.
Qed.

Lemma rev_str_contains : forall x s acc,
  contains x (rev_str s acc) = contains x s || contains x acc.
Proof.
  intros x s. induction s as [|c s IH]; intros acc; simpl; [reflexivity|].
  rewrite IH. simpl. destruct (Ascii.eqb x c), (contains x s), (contains x acc); reflexivity.
Qed.

Lemma partition_contains : forall x c s a f b,
  partition c s = (a, f, b) -> contains x s = false -> contains x a = false /\ contains x b = false.
Proof.
  intros x c s. induction s as [|d s IH]; intros a f b H Hs; simpl in H.
  - injection H as <- _ <-. auto.
  - simpl in Hs. apply orb_false_iff in Hs. destruct Hs as [Hd Hs].
    destruct (Ascii.eqb c d).
    + injection H as <- _ <-. auto.
    + destruct (partition c s) as [[a' f'] b'] eqn:E. injection H as <- _ <-.
      destruct (IH a' f' b' eq_refl Hs) as [H1 H2]. simpl. rewrite Hd, H1. auto.
Qed.

Lemma partition_before : forall c s a f b, partition c s = (a, f, b) -> contains c a = false.
Proof.
  intros c s. induction s as [|d s IH]; intros a f b H; simpl in H.
  - injection H as <- _ _. reflexivity.
  - destruct (Ascii.eqb c d) eqn:E.
    + injection H as <- _ _. reflexivity.
    + destruct (partition c s) as [[a' f'] b'] eqn:Ep. injection H as <- _ _.
      simpl. rewrite E. exact (IH _ _ _ eq_refl).
Qed.

Lemma rpartition_contains : forall x c s a f b,
  rpartition c s = (a, f, b) -> contains x s = false -> contains x a = false /\ contains x b = false.
Proof.
  intros x c s a f b H Hs. unfold rpartition in H.
  destruct (partition c (rev_str s "")) as [[a' f'] b'] eqn:E.
  assert (Hr : contains x (rev_str s "") = false) by (rewrite rev_str_contains, Hs; reflexivity).
  destruct (partition_contains x _ _ _ _ _ E Hr) as [H1 H2].
  destruct f'; injection H as <- _ <-.
  - rewrite !rev_str_contains, H1, H2. auto.
  - auto.
Qed.

Lemma split_before_first : forall s a b,
  split_before is_netloc_delim s = (a, b) -> contains "#" a = false.
Proof.
  induction s as [|c s IH]; intros a b H; simpl in H.
  - injection H as <- _. reflexivity.
  - destruct (is_netloc_delim c) eqn:Ed; [injection H as <- _; reflexivity|].
    destruct (split_before is_netloc_delim s) as [a' b'] eqn:E. injection H as <- _.
    cbn [contains]. rewrite (IH _ _ eq_refl). rewrite orb_false_r.
    destruct (Ascii.eqb_spec "#" c) as [<-|Hn]; [vm_compute in Ed; discriminate Ed | reflexivity].
Qed.

Lemma show_N_aux_contains : forall fuel n acc,
  contains "#" acc = false -> contains "#" (show_N_aux fuel n acc) = false.
Proof.
  induction fuel as [|f IH]; intros n acc H; simpl; [exact H|].
  assert (Hd : Ascii.eqb "#" (digit_char (n mod 10)) = false).
  { unfold digit_char. assert (Hm : (n mod 10 < 10)%N) by (apply N.mod_lt; discriminate).
    assert (N.to_nat (n mod 10) < 10) by lia. generalize dependent (N.to_nat (n mod 10)).
    intros k Hk. do 10 (destruct k as [|k]; [reflexivity|]). lia. }
  destruct (n <? 10)%N; [cbn [contains]; rewrite Hd, H; reflexivity|].
  apply IH. cbn [contains]. rewrite Hd, H. reflexivity.
Qed.

Lemma hex_digit_not_hash : forall n, n < 16 -> Ascii.eqb "#" (hex_digit n) = false.
Proof. intros n Hn. do 16 (destruct n as [|n]; [reflexivity|]). lia. Qed.

Lemma quote_plus_contains : forall s, contains "#" (quote_plus s) = false.
Proof.
  induction s as [|c s IH]; [reflexivity|]. cbn [quote_plus].
  destruct (is_alpha c || is_digit c || contains c "_.-~") eqn:Ec.
  - cbn [contains]. rewrite IH, orb_false_r.
    destruct (Ascii.eqb_spec "#" c) as [<-|Hn]; [vm_compute in Ec; discriminate Ec | reflexivity].
  - cbv zeta. destruct (Ascii.eqb c " "); cbn [contains]; [rewrite IH; reflexivity|].
    pose proof (nat_ascii_bounded c) as Hc.
    rewrite !hex_digit_not_hash, IH; [reflexivity | |].
    + apply Nat.mod_upper_bound. discriminate.
    + apply Nat.Div0.div_lt_upper_bound. lia.
Qed.

Lemma concat_contains : forall sep l,
  contains "#" sep = false -> (forall x, In x l -> contains "#" x = false) ->
  contains "#" (String.concat sep l) = false.
Proof.
  intros sep l Hs. induction l as [|x r IH]; intros Hl; simpl; [reflexivity|].
  destruct r as [|y r].
  - apply Hl. left. reflexivity.
  - rewrite !contains_app, Hs, (Hl x (or_introl eq_refl)), IH; [reflexivity|].
    intros z Hz. apply Hl. right. exact Hz.
Qed.

Lemma urlencode_contains : forall pairs, contains "#" (urlencode pairs) = false.
Proof.
  intros pairs. unfold urlencode. apply concat_contains; [reflexivity|].
  intros x Hx. apply in_map_iff in Hx. destruct Hx as [[k v] [<- _]].
  rewrite !contains_app, !quote_plus_contains. reflexivity.
Qed.

Lemma netloc_split_no_hash : forall url3 nl url4,
  match url3 with
  | String "/" (String "/" rest) =>
      let '(nl, r) := split_before is_netloc_delim rest in
      let ob := contains "[" nl in
      let cb := contains "]" nl in
      if xorb ob cb then None
      else if ob && cb then (if check_bracketed_netloc nl then Some (nl, r) else None)
      else Some (nl, r)
  | _ => Some (EmptyString, url3)
  end = Some (nl, url4) -> contains "#" nl = false.
Proof.
  intros url3 nl url4 Ens.
  destruct url3 as [|c1 s1]; [injection Ens as <- _; reflexivity|].
  destruct c1 as [[] [] [] [] [] [] [] []]; try (injection Ens as <- _; reflexivity).
  destruct s1 as [|c2 s2]; [injection Ens as <- _; reflexivity|].
  destruct c2 as [[] [] [] [] [] [] [] []]; try (injection Ens as <- _; reflexivity).
  destruct (split_before is_netloc_delim s2) as [nl' r'] eqn:Eb. cbv zeta in Ens.
  destruct (xorb _ _); [discriminate Ens|].
  destruct (_ && _); [destruct (check_bracketed_netloc nl'); [|discriminate Ens]|];
    injection Ens as <- _; exact (split_before_first _ _ _ Eb).
Qed.

Lemma urlsplit_no_hash : forall u sr, urlsplit u = Some sr ->
  contains "#" (netloc sr) = false /\ contains "#" (path sr) = false.
Proof.
  intros u sr H. unfold urlsplit in H. cbv zeta in H.
  destruct (split_scheme _) as [sch url3].
  match type of H with
  | (match ?ns with None => _ | Some _ => _ end) = _ =>
      destruct ns as [[nl url4]|] eqn:Ens; [|discriminate H]
  end.
  destruct (partition "#" url4) as [[url5 f1] frag] eqn:E1.
  destruct (partition "?" url5) as [[url6 f2] q] eqn:E2.
  injection H as <-. simpl. split.
  - exact (netloc_split_no_hash _ _ _ Ens).
  - exact (proj1 (partition_contains "#" _ _ _ _ _ E2 (partition_before _ _ _ _ _ E1))).
Qed.

Lemma hostname_no_hash : forall sr h,
  contains "#" (netloc sr) = false -> hostname sr = Some h -> contains "#" h = false.
Proof.
  intros sr h Hn H. unfold hostname, hostinfo in H.
  destruct (rpartition "@" (netloc sr)) as [[x1 f1] hi] eqn:E1.
  destruct (rpartition_contains "#" _ _ _ _ _ E1 Hn) as [_ Hhi].
  destruct (partition "[" hi) as [[x2 ob] br] eqn:E2.
  destruct (partition_contains "#" _ _ _ _ _ E2 Hhi) as [_ Hbr].
  assert (Hh : forall h0 p0, (if ob then let '(h, _, rest) := partition "]" br in
                                       let '(_, _, p) := partition ":" rest in (h, p)
                              else let '(h, _, p) := partition ":" hi in (h, p)) = (h0, p0) ->
                             contains "#" h0 = false).
  { intros h0 p0 E. destruct ob.
    - destruct (partition "]" br) as [[h3 f3] rest] eqn:E3.
      destruct (partition ":" rest) as [[x4 f4] p4] eqn:E4. injection E as <- _.
      exact (proj1 (partition_contains "#" _ _ _ _ _ E3 Hbr)).
    - destruct (partition ":" hi) as [[h3 f3] p3] eqn:E3. injection E as <- _.
      exact (proj1 (partition_contains "#" _ _ _ _ _ E3 Hhi)). }
  destruct (if ob then _ else _) as [h0 p0] eqn:Eh. specialize (Hh h0 p0 eq_refl).
  cbn [fst] in H. destruct h0 as [|c0 r0]; [discriminate H|].
  destruct (partition "%" (String c0 r0)) as [[a f] z] eqn:E5. injection H as <-.
  destruct (partition_contains "#" _ _ _ _ _ E5 Hh) as [Ha Hz].
  rewrite contains_app, contains_lower, Ha. destruct f; [exact Hz | reflexivity].
Qed.

Lemma prefix_app : forall a b c, String.prefix a b = true -> String.prefix a (b ++ c) = true.
Proof.
  induction a as [|x a IH]; intros b c H; [destruct (b ++ c); reflexivity|].
  destruct b as [|y b]; [discriminate H|]. simpl in *.
  destruct (ascii_dec x y); [apply IH; exact H | discriminate H].
Qed.

Lemma slash_prefix_cases : forall p,
  (match p with EmptyString => p | String "/" _ => p | _ => String "/" p end) = p \/
  (match p with EmptyString => p | String "/" _ => p | _ => String "/" p end) = String "/" p.
Proof.
  intros p. destruct p as [|ch r]; [left; reflexivity|].
  destruct ch as [[] [] [] [] [] [] [] []]; (left; reflexivity) || (right; reflexivity).
Qed.

Lemma urlunsplit_https : forall nl p q,
  contains "#" nl = false -> contains "#" p = false -> contains "#" q = false ->
  String.prefix "https://" (urlunsplit "https" nl p q "") = true /\
  contains "#" (urlunsplit "https" nl p q "") = false.
Proof.
  intros nl p q Hn Hp Hq. unfold urlunsplit.
  change (String.eqb "" "") with true. change (String.eqb "https" "") with false.
  change (existsb (String.eqb "https") ["http"; "https"; "ftp"; "file"; ""]) with true.
  cbv iota.
  set (p0 := match p with EmptyString => p | String "/" _ => p | _ => String "/" p end).
  assert (Hp0 : contains "#" p0 = false)
    by (unfold p0; destruct (slash_prefix_cases p) as [E|E]; rewrite E; [exact Hp|]; exact Hp).
  assert (H1 : forall p1, String.prefix "//" p1 = true -> contains "#" p1 = false ->
             String.prefix "https://" (if String.eqb q "" then "https" ++ ":" ++ p1
                                       else ("https" ++ ":" ++ p1) ++ "?" ++ q) = true /\
             contains "#" (if String.eqb q "" then "https" ++ ":" ++ p1
                           else ("https" ++ ":" ++ p1) ++ "?" ++ q) = false).
  { intros p1 Hpre Hc.
    assert (Ha : String.prefix "https://" ("https" ++ ":" ++ p1) = true /\
                 contains "#" ("https" ++ ":" ++ p1) = false).
    { split; [exact Hpre|]. cbn [append contains]. rewrite Hc. reflexivity. }
    destruct (String.eqb q ""); [exact Ha|].
    split; [apply prefix_app; apply Ha|].
    rewrite contains_app, (proj2 Ha). cbn [append contains]. rewrite Hq. reflexivity. }
  destruct (negb (String.eqb nl "") || (negb false && true && negb (String.prefix "//" p)))
    eqn:Ec; apply H1.
  - cbn. destruct (ascii_dec "/" "/") as [_|n]; [destruct (nl ++ p0); reflexivity | exfalso; exact (n eq_refl)].
  - cbn [append contains]. rewrite contains_app, Hn, Hp0. reflexivity.
  - apply orb_false_iff in Ec. destruct Ec as [_ Ec]. simpl in Ec.
    destruct (String.prefix "//" p); [reflexivity | discriminate Ec].
  - exact Hp.
Qed.

(** [canonicalize_url] returns either its input unchanged (a scheme
    other than http and https) or an https URL, starting with
    [https://], without a fragment. *)
Theorem canonicalize_url_https_no_fragment : forall url c,
  canonicalize_url url = Some c ->
  c = url \/ (String.prefix "https://" c = true /\ contains "#" c = false).
Proof.
  intros url c H. unfold canonicalize_url in H.
  destruct (urlsplit (Py.strip url)) as [sr|] eqn:Es; [|discriminate H].
  destruct (negb _); [left; injection H as <-; reflexivity|]. right. cbv zeta in H.
  destruct (port sr) as [prt|]; [|discriminate H]. injection H as <-.
  destruct (urlsplit_no_hash _ _ Es) as [Hnl Hpath].
  apply urlunsplit_https.
  - assert (Hhost : contains "#" (match hostname sr with Some h => lower h | None => "" end)
                    = false).
    { destruct (hostname sr) as [h|] eqn:Eh; [|reflexivity].
      rewrite contains_lower. exact (hostname_no_hash _ _ Hnl Eh). }
    destruct prt as [p|]; [|exact Hhost].
    destruct (p =? 0)%N; [exact Hhost|]. destruct (p =? _)%N; [exact Hhost|].
    rewrite !contains_app, Hhost. cbn [contains]. apply show_N_aux_contains. reflexivity.
  - assert (Hp0 : contains "#" (lower (match path sr with EmptyString => "/" | p => p end))
                  = false).
    { rewrite contains_lower. destruct (path sr); [reflexivity | exact Hpath]. }
    destruct (String.prefix "/" _); [exact Hp0|]. cbn [append contains]. exact Hp0.
  - apply urlencode_contains.
Qed.

End UrlExtras.

Module UrlExtraSamples.
Import Py UrlNorm UrlExtras.

Lemma canonicalize_url_https_no_fragment_witness :
  canonicalize_url "http://Example.COM/A?x=1#top" = Some "https://example.com/a?x=1" /\
  String.prefix "https://" "https://example.com/a?x=1" = true /\
  contains "#" "https://example.com/a?x=1" = false.
Proof.
  assert (H : canonicalize_url "http://Example.COM/A?x=1#top" = Some "https://example.com/a?x=1")
    by (vm_compute; reflexivity).
  split; [exact H|].
  destruct (canonicalize_url_https_no_fragment _ _ H) as [E | Hc]; [discriminate E | exact Hc].
Defined.

End UrlExtraSamples.
